(** * H.A.T. assessment backend: test assembly and candidate scoring

    A shallow embedding of the route handlers of [server.js] that build a
    candidate's exam and record its verdict, together with the question-bank
    editor routes, and the properties of the design specification that can
    be checked against them.

    Layout: the model of the JavaScript runtime pieces the handlers rely on
    ([JS]), the shuffle ([shuffleArray]), the question bank, the exam
    assembler and the candidate state machine, and then the theorems. *)

From Stdlib Require Import ZArith QArith Qround Qpower Qfield String Ascii List Permutation Lia.
From Stdlib Require Import DecimalString Floats.SpecFloat.
From stdpp Require Import base decidable option list gmap strings.

Local Open Scope string_scope.
Local Open Scope nat_scope.

(* ===================================================================== *)
(** * The JavaScript runtime, as far as the handlers use it *)
(* ===================================================================== *)

(** Strings are sequences of code units; the model keeps the code units below
    256, which is where every character the handlers test for lives. *)
Module JS.

(** ** Truthiness of a string-or-undefined value ([if (candidate.result)]). *)
Definition truthy (v : option string) : bool :=
  match v with
  | None => false
  | Some s => negb (String.eqb s "")
  end.

(** A template literal [`${v}`] prints an undefined value as "undefined". *)
Definition template (v : option string) : string :=
  match v with
  | None => "undefined"
  | Some s => s
  end.

(** ** [String.prototype.split] with a one-character separator. *)
Fixpoint split (sep : ascii) (s : string) : list string :=
  match s with
  | EmptyString => [EmptyString]
  | String c s' =>
      if Ascii.eqb c sep then EmptyString :: split sep s'
      else match split sep s' with
           | [] => [String c EmptyString]
           | w :: ws => String c w :: ws
           end
  end.

(** ** White space and [String.prototype.trim]. *)
Definition isWhiteSpace (c : ascii) : bool :=
  let n := nat_of_ascii c in
  ((9 <=? n) && (n <=? 13)) || (n =? 32) || (n =? 160).

Fixpoint trimStart (s : string) : string :=
  match s with
  | EmptyString => EmptyString
  | String c s' => if isWhiteSpace c then trimStart s' else s
  end.

Fixpoint trimEnd (s : string) : string :=
  match s with
  | EmptyString => EmptyString
  | String c s' =>
      match trimEnd s' with
      | EmptyString => if isWhiteSpace c then EmptyString else String c EmptyString
      | t => String c t
      end
  end.

Definition trim (s : string) : string := trimEnd (trimStart s).

(** ** [charAt(0)]: the first code unit as a string, or the empty string. *)
Definition charAt0 (s : string) : string :=
  match s with
  | EmptyString => EmptyString
  | String c _ => String c EmptyString
  end.

(** ** [toUpperCase] and [toLowerCase] on the ASCII letters. *)
Definition upper (c : ascii) : ascii :=
  let n := nat_of_ascii c in
  if (97 <=? n) && (n <=? 122) then ascii_of_nat (n - 32) else c.

Definition lower (c : ascii) : ascii :=
  let n := nat_of_ascii c in
  if (65 <=? n) && (n <=? 90) then ascii_of_nat (n + 32) else c.

Fixpoint mapString (f : ascii -> ascii) (s : string) : string :=
  match s with
  | EmptyString => EmptyString
  | String c s' => String (f c) (mapString f s')
  end.

Definition toUpperCase : string -> string := mapString upper.
Definition toLowerCase : string -> string := mapString lower.

(** ** Decimal rendering of an integer ([String(n)]). *)
Definition String_Z (z : Z) : string := NilZero.string_of_int (Z.to_int z).
Definition String_nat (n : nat) : string := String_Z (Z.of_nat n).

Definition digitChar (d : Z) : ascii := ascii_of_N (Z.to_N (48 + d)).

(** ** [padStart(width, "0")]. *)
Fixpoint zeros (n : nat) : string :=
  match n with
  | 0 => EmptyString
  | S n' => String "0" (zeros n')
  end.

Definition padStart0 (width : nat) (s : string) : string :=
  zeros (width - String.length s) ++ s.

(** ** [parseInt(s)] without a radix argument.

    Leading white space is skipped, a sign is read, a [0x]/[0X] prefix
    switches to radix 16, and the longest prefix of digits is read; no digit
    gives NaN, which is [None] here.  The result is kept as the mathematical
    integer: the handlers only compare it with 15, and rounding an integer to
    a double never moves it across 15. *)
Definition digitValue (radix : Z) (c : ascii) : option Z :=
  let n := Z.of_nat (nat_of_ascii c) in
  let v := (if (48 <=? n) && (n <=? 57) then Some (n - 48)
            else if (97 <=? n) && (n <=? 102) then Some (n - 87)
            else if (65 <=? n) && (n <=? 70) then Some (n - 55)
            else None)%Z in
  match v with
  | Some d => if (d <? radix)%Z then Some d else None
  | None => None
  end.

Fixpoint readDigits (radix : Z) (s : string) (acc : option Z) : option Z :=
  match s with
  | EmptyString => acc
  | String c s' =>
      match digitValue radix c with
      | Some d => readDigits radix s' (Some (default 0 acc * radix + d))%Z
      | None => acc
      end
  end.

Definition parseInt (s : string) : option Z :=
  let t := trimStart s in
  let '(neg, t) := match t with
                   | String "-" t' => (true, t')
                   | String "+" t' => (false, t')
                   | _ => (false, t)
                   end in
  let '(radix, t) := match t with
                     | String "0" (String "x" t') => (16, t')
                     | String "0" (String "X" t') => (16, t')
                     | _ => (10, t)
                     end%Z in
  match readDigits radix t None with
  | None => None
  | Some v => Some (if neg then - v else v)%Z
  end.

(** [parseInt(...) || 0]: NaN and zero give 0. *)
Definition orZeroInt (v : option Z) : Z := default 0%Z v.

(** ** Numbers: IEEE 754 binary64, as [spec_float] with its operations. *)
Definition number := spec_float.

Definition prec : Z := 53.
Definition emax : Z := 1024.

(** The double nearest to [m * 2^e]. *)
Definition b64 (m e : Z) : number := binary_normalize prec emax m e false.

Definition num_0_75 : number := b64 3 (-2).
Definition num_100 : number := b64 100 0.
Definition num_0 : number := S754_zero false.

Definition mul : number -> number -> number := SFmul prec emax.

(** [x >= y]; false as soon as one side is NaN. *)
Definition geb (x y : number) : bool := SFleb y x.

(** [x || 0] on a number: NaN, +0 and -0 are falsy. *)
Definition orZero (x : number) : number :=
  match x with
  | S754_nan | S754_zero _ => num_0
  | _ => x
  end.

(** The exact value of a finite number as a fraction [num / den]. *)
Definition magnitude (m : positive) (e : Z) : Z * Z :=
  if (0 <=? e)%Z then (Zpos m * 2 ^ e, 1)%Z else (Zpos m, 2 ^ (- e))%Z.

(** ** [Number::toString] for a double of magnitude at least 10^21, which is
    an integer [X] and prints in exponent notation: the shortest digit string
    [s] (of [k] digits) with [s * 10^(n-k)] rounding to the number, the
    closest to it when several have that length. *)
Definition numDigits (X : Z) : Z := Z.of_nat (String.length (String_Z X)).

Definition roundsTo (X v : Z) : bool :=
  match b64 v 0, b64 X 0 with
  | S754_finite _ m1 e1, S754_finite _ m2 e2 => Pos.eqb m1 m2 && Z.eqb e1 e2
  | _, _ => false
  end.

Definition candidates (X n k : Z) : list Z :=
  let p := (10 ^ (n - k))%Z in
  let s0 := (X / p)%Z in
  List.filter (fun s => (10 ^ (k - 1) <=? s)%Z && (s <? 10 ^ k)%Z && roundsTo X (s * p))
              [s0; (s0 + 1)%Z].

Definition closest (X p : Z) (ss : list Z) : option Z :=
  List.fold_left (fun best s =>
    match best with
    | None => Some s
    | Some b => if (Z.abs (s * p - X) <? Z.abs (b * p - X))%Z then Some s else best
    end) ss None.

Fixpoint shortest (fuel : nat) (X k : Z) : option (Z * Z * Z) :=
  match fuel with
  | 0 => None
  | S fuel' =>
      let d := numDigits X in
      match closest X (10 ^ (d - k)) (candidates X d k),
            closest X (10 ^ (d + 1 - k)) (candidates X (d + 1) k) with
      | Some s, _ => Some (d, k, s)
      | None, Some s => Some (d + 1, k, s)%Z
      | None, None => shortest fuel' X (k + 1)%Z
      end
  end.

Definition toString_large (X : Z) : string :=
  match shortest 17 X 1 with
  | None => String_Z X
  | Some (n, k, s) =>
      match String_Z s with
      | EmptyString => EmptyString
      | String c EmptyString => String c ("e+" ++ String_Z (n - 1))
      | String c rest => String c ("." ++ rest ++ "e+" ++ String_Z (n - 1))
      end
  end.

(** ** [Number.prototype.toFixed(1)].

    For a finite [x] below 10^21 in magnitude, [n] is the integer nearest to
    [10 * |x|], the larger one on a tie, and is printed with its last digit
    after the point. *)
Definition nearestTenths (m : positive) (e : Z) : Z :=
  let '(num, den) := magnitude m e in ((20 * num + den) / (2 * den))%Z.

Definition toFixed1 (x : number) : string :=
  match x with
  | S754_nan => "NaN"
  | S754_infinity s => if s then "-Infinity" else "Infinity"
  | S754_zero _ => "0.0"
  | S754_finite s m e =>
      let sign := if s then "-" else "" in
      let '(num, den) := magnitude m e in
      if (10 ^ 21 * den <=? num)%Z then sign ++ toString_large (num / den)
      else
        let n := nearestTenths m e in
        sign ++ String_Z (n / 10) ++ "." ++ String (digitChar (n mod 10)) ""
  end.

End JS.

(* ===================================================================== *)
(** * [shuffleArray] *)
(* ===================================================================== *)

(** [Math.random()] is modelled by the sequence [rand] of the values it
    returns, each in the unit interval, and a counter of the calls made so
    far, which every operation that draws threads through. *)
Definition randomSource := nat -> Q.

Definition inUnitInterval (rand : randomSource) : Prop :=
  forall k, (0 <= rand k)%Q /\ (rand k < 1)%Q.

(** [Math.floor(r * n)]. *)
Definition floorMul (r : Q) (n : nat) : nat :=
  Z.to_nat (Qfloor (r * inject_Z (Z.of_nat n))).

Section Shuffle.
Context {A : Type}.

(** [[array[i], array[j]] = [array[j], array[i]]]: both reads come first,
    then [array[i]] and [array[j]] are written in that order.  The loop
    only swaps positions inside the array: [i] is below the length and, the
    random value being below 1, [j] is at most [i] (see [drawnIndices_draws]);
    an index outside, which would make a JavaScript array grow, is left
    out of the model. *)
Definition swap (array : list A) (i j : nat) : list A :=
  match array !! i, array !! j with
  | Some x, Some y => <[j := x]> (<[i := y]> array)
  | _, _ => array
  end.

Variable rand : randomSource.

(** The loop [for (let i = array.length - 1; i > 0; i--)], entered at [i],
    with [k] calls of [Math.random()] made before. *)
Fixpoint shuffleFrom (i : nat) (array : list A) (k : nat) : list A * nat :=
  match i with
  | 0 => (array, k)
  | S i' =>
      let j := floorMul (rand k) (i + 1) in
      shuffleFrom i' (swap array i j) (S k)
  end.

Definition shuffleArray (array : list A) (k : nat) : list A * nat :=
  shuffleFrom (length array - 1) array k.
End Shuffle.

(* ===================================================================== *)
(** * Responses *)
(* ===================================================================== *)

Record ExamQuestion := {
  eq_id : string;
  eq_question : string;
  eq_options : list string;
  eq_answer : string;
  eq_time : nat;
  eq_type : string
}.

Record TokenClaims := {
  tk_id : nat;
  tk_username : string;
  tk_questionBankName : string;
  tk_scope : string;
  tk_expiresInHours : nat
}.

Inductive payload :=
| Message (success : bool) (message : string)
| ErrorMessage (error : string)
| Login (accessToken : TokenClaims) (page : string)
| Exam (level username : string) (questions : list ExamQuestion).

Record response := { status : nat; body : payload }.

Definition respond (code : nat) (p : payload) : response :=
  {| status := code; body := p |}.

(* ===================================================================== *)
(** * The question bank *)
(* ===================================================================== *)

Record QuestionBankItem := {
  questionBankName : string;
  questionId : string;
  question : string;
  referenceUrls : list (option string);
  options : option string;
  questionType : string;
  correctAnswer : string
}.

(** The body of an add or update request. *)
Record QuestionData := {
  qd_question : string;
  qd_ref1 : option string;
  qd_ref2 : option string;
  qd_ref3 : option string;
  qd_ref4 : option string;
  qd_options : option string;
  qd_type : option string;
  qd_answer : string
}.

(** The collection is the list of its documents, oldest first. *)
Definition questionCollection := list QuestionBankItem.

Definition inBank (name : string) (q : QuestionBankItem) : bool :=
  String.eqb (questionBankName q) name.

Definition hasId (id : string) (q : QuestionBankItem) : bool :=
  String.eqb (questionId q) id.

(** [QuestionBankItem.find({ questionBankName })]. *)
Definition findByBank (db : questionCollection) (name : string) : list QuestionBankItem :=
  List.filter (inBank name) db.

(** [QuestionBankItem.countDocuments({ questionBankName })]. *)
Definition countDocuments (db : questionCollection) (name : string) : nat :=
  length (findByBank db name).

(** [[ref1, ref2, ref3, ref4].filter(String)]: an entry stays when its
    string conversion is not empty, and [undefined] converts to "undefined". *)
Definition filterString (refs : list (option string)) : list (option string) :=
  List.filter (fun r => negb (String.eqb (JS.template r) "")) refs.

(** [(qData.type || '').trim().toLowerCase()]. *)
Definition normalType (t : option string) : string :=
  JS.toLowerCase (JS.trim (if JS.truthy t then JS.template t else "")).

(** The identifier computed by the add route from the bank's name and the
    number of questions it holds. *)
Definition newId (bank : string) (count : nat) : string :=
  let nameParts := JS.split " " bank in
  let firstInitial :=
    match nameParts with
    | [] => ""
    | p :: _ => if JS.truthy (Some p) then JS.charAt0 p else ""
    end in
  let lastInitial :=
    if 1 <? length nameParts then JS.charAt0 (List.last nameParts "") else "" in
  let prefix := JS.toUpperCase (firstInitial ++ lastInitial) in
  let paddedNumber := JS.padStart0 3 (JS.String_nat (count + 1)) in
  prefix ++ paddedNumber.

(** [POST /api/quizzer/questions/:questionBankName].  [save] validates the
    new document first: [question] is required, and the validator refuses a
    missing or empty text.  The unique index on [questionId] then makes the
    insertion fail on an identifier already in use.  Either failure is caught
    and answered 500 with the message of the error, shortened here. *)
Definition addQuestion (db : questionCollection) (bank : string) (qData : QuestionData)
  : response * questionCollection :=
  let count := countDocuments db bank in
  let newQuestion :=
    {| questionBankName := bank;
       questionId := newId bank count;
       question := qd_question qData;
       referenceUrls :=
         filterString [qd_ref1 qData; qd_ref2 qData; qd_ref3 qData; qd_ref4 qData];
       options := qd_options qData;
       questionType := normalType (qd_type qData);
       correctAnswer := qd_answer qData |} in
  if String.eqb (question newQuestion) ""
  then (respond 500 (Message false "Failed to add question: validation failed"), db)
  else if List.existsb (hasId (questionId newQuestion)) db
  then (respond 500 (Message false "Failed to add question: duplicate key"), db)
  else (respond 201 (Message true "Question added successfully!"), (db ++ [newQuestion])%list).

(** The update document of the PUT route applied to a stored question. *)
Definition applyUpdate (qData : QuestionData) (q : QuestionBankItem) : QuestionBankItem :=
  {| questionBankName := questionBankName q;
     questionId := questionId q;
     question := qd_question qData;
     referenceUrls :=
       filterString [qd_ref1 qData; qd_ref2 qData; qd_ref3 qData; qd_ref4 qData];
     options := qd_options qData;
     questionType := normalType (qd_type qData);
     correctAnswer := qd_answer qData |}.

(** [findOneAndUpdate(filter, update)]: the first document that matches is
    replaced by its update; the result tells whether there was one. *)
Fixpoint findOneAndUpdate {D : Type} (matches : D -> bool) (update : D -> D)
    (db : list D) : option D * list D :=
  match db with
  | [] => (None, [])
  | d :: db' =>
      if matches d then (Some (update d), update d :: db')
      else let '(r, db'') := findOneAndUpdate matches update db' in (r, d :: db'')
  end.

(** [deleteOne(filter)]: the first document that matches is removed; the
    result is the [deletedCount]. *)
Fixpoint deleteOne {D : Type} (matches : D -> bool) (db : list D) : nat * list D :=
  match db with
  | [] => (0, [])
  | d :: db' =>
      if matches d then (1, db')
      else let '(n, db'') := deleteOne matches db' in (n, d :: db'')
  end.

(** The parameters of the routes [/:questionBankName/:questionId]. *)
Record QuestionParams := {
  p_questionBankName : string;
  p_questionId : string
}.

(** [PUT /api/quizzer/questions/:questionBankName/:questionId]. *)
Definition updateQuestion (db : questionCollection) (params : QuestionParams)
    (qData : QuestionData) : response * questionCollection :=
  let questionId := p_questionId params in
  let '(updatedQuestion, db') :=
    findOneAndUpdate (hasId questionId) (applyUpdate qData) db in
  match updatedQuestion with
  | None => (respond 404 (Message false "Question ID not found."), db')
  | Some _ => (respond 200 (Message true "Question updated successfully!"), db')
  end.

(** [DELETE /api/quizzer/questions/:questionBankName/:questionId]. *)
Definition deleteQuestion (db : questionCollection) (params : QuestionParams)
  : response * questionCollection :=
  let questionId := p_questionId params in
  let '(deletedCount, db') := deleteOne (hasId questionId) db in
  if deletedCount =? 0
  then (respond 404 (Message false "Question ID not found."), db')
  else (respond 200 (Message true "Question deleted successfully!"), db').

(* ===================================================================== *)
(** * Candidates *)
(* ===================================================================== *)

(** The documents of the collection have passed the validation of the
    schema when they were created; the handlers below change fields without a
    validator only, so that [save] of a loaded document goes through. *)
Record Candidate := {
  _id : nat;
  onboardedByTaName : string;
  onboardedByTaEmail : string;
  firstName : string;
  lastName : string;
  email : string;
  username : string;
  password : string;
  program : string;
  project : option string;
  c_status : string;
  result : option string;
  score : option string;
  videoLink : option string
}.

Definition candidateCollection := list Candidate.

(** [Candidate.findById(id)]. *)
Definition findById (db : candidateCollection) (id : nat) : option Candidate :=
  List.find (fun c => _id c =? id) db.

(** [Candidate.findOne({ username })]. *)
Definition findByUsername (db : candidateCollection) (name : string) : option Candidate :=
  List.find (fun c => String.eqb (username c) name) db.

(** [candidate.save()] of a document read from the collection: the stored
    document with that [_id] is replaced. *)
Definition save (db : candidateCollection) (c : Candidate) : candidateCollection :=
  snd (findOneAndUpdate (fun d => _id d =? _id c) (fun _ => c) db).

(** [Candidate.findOne({ email })]. *)
Definition findByEmail (db : candidateCollection) (address : string) : option Candidate :=
  List.find (fun c => String.eqb (email c) address) db.

(** The body of an onboarding request, and the recruiter of its token. *)
Record OnboardBody := {
  ob_firstName : string;
  ob_lastName : string;
  ob_email : string;
  ob_program : string;
  ob_project : option string
}.

Record Recruiter := {
  ta_fullName : string;
  ta_email : string
}.

(** The fields of a candidate that the schema requires are present and not
    empty. *)
Definition requiredPresent (c : Candidate) : bool :=
  List.forallb (fun v => negb (String.eqb v ""))
    [onboardedByTaName c; onboardedByTaEmail c; firstName c; lastName c;
     email c; program c; username c; password c].

(** [POST /api/enrollment/candidates/onboard]: the candidate is created with
    the status "Mail Sent" and no verdict field, and saved when the required
    fields are there.  [id] is the identifier the database gives the new
    document and [hashedPassword] the hash of the generated password. *)
Definition onboard (sendMail : string -> bool) (db : candidateCollection)
    (ta : Recruiter) (req : OnboardBody) (id : nat) (hashedPassword : string)
  : response * candidateCollection :=
  match findByEmail db (JS.toLowerCase (ob_email req)) with
  | Some _ => (respond 409 (ErrorMessage "Candidate with this email already exists"), db)
  | None =>
      let candidate :=
        {| _id := id;
           onboardedByTaName := ta_fullName ta;
           onboardedByTaEmail := ta_email ta;
           firstName := ob_firstName req;
           lastName := ob_lastName req;
           email := JS.toLowerCase (ob_email req);
           username := JS.toLowerCase (ob_email req);
           password := hashedPassword;
           program := ob_program req;
           project := ob_project req;
           c_status := "Mail Sent";
           result := None;
           score := None;
           videoLink := None |} in
      let db' := (db ++ [candidate])%list in
      if negb (requiredPresent candidate)
      then (respond 500 (Message false "Onboarding failed: validation failed"), db)
      else if sendMail (ob_email req)
      then (respond 201 (Message true
              "Candidate onboarded and assessment email sent successfully!"), db')
      else (respond 500 (Message false "Onboarding failed: mail not sent"), db')
  end.

(** The verdict fields, written by assignment to the loaded document. *)
Definition setVerdict (c : Candidate) (score' result' : option string)
    (status' : string) (videoLink' : option string) : Candidate :=
  {| _id := _id c;
     onboardedByTaName := onboardedByTaName c;
     onboardedByTaEmail := onboardedByTaEmail c;
     firstName := firstName c;
     lastName := lastName c;
     email := email c;
     username := username c;
     password := password c;
     program := program c;
     project := project c;
     c_status := status';
     result := result';
     score := score';
     videoLink := videoLink' |}.

(** The candidate's attempt is closed once [result] is truthy. *)
Definition closed (c : Candidate) : bool := JS.truthy (result c).

(* ===================================================================== *)
(** * The exam assembler: [GET /api/test/setup] *)
(* ===================================================================== *)

Definition hasType (t : string) (q : QuestionBankItem) : bool :=
  String.eqb (questionType q) t.

(** The plain object sent for a question. *)
Definition clean (q : QuestionBankItem) : ExamQuestion :=
  {| eq_id := questionId q;
     eq_question := question q;
     eq_options :=
       if JS.truthy (options q)
       then List.map JS.trim (JS.split "," (JS.template (options q)))
       else [];
     eq_answer := correctAnswer q;
     eq_time := if hasType "hard" q then 2 else 1;
     eq_type := questionType q |}.

Section Assembler.
Variable rand : randomSource.

(** The loop [for (let i = 0; i < minCount; i++)], with [n] rounds left. *)
Fixpoint triplets (n i : nat) (easy moderate hard : list QuestionBankItem)
    (finalQuestions : list QuestionBankItem) (k : nat)
  : list QuestionBankItem * nat :=
  match n with
  | 0 => (finalQuestions, k)
  | S n' =>
      match easy !! i, moderate !! i, hard !! i with
      | Some e, Some m, Some h =>
          let '(triplet, k') := shuffleArray rand [e; m; h] k in
          triplets n' (S i) easy moderate hard (finalQuestions ++ triplet)%list k'
      | _, _, _ => (finalQuestions, k)
      end
  end.

(** From the bank's questions to the ordered exam. *)
Definition assemble (allQuestions : list QuestionBankItem) (k : nat)
  : list QuestionBankItem * nat :=
  let easyQuestions := List.filter (hasType "easy") allQuestions in
  let moderateQuestions := List.filter (hasType "moderate") allQuestions in
  let hardQuestions := List.filter (hasType "hard") allQuestions in
  let '(easyQuestions, k) := shuffleArray rand easyQuestions k in
  let '(moderateQuestions, k) := shuffleArray rand moderateQuestions k in
  let '(hardQuestions, k) := shuffleArray rand hardQuestions k in
  let minCount :=
    Nat.min (length easyQuestions)
            (Nat.min (length moderateQuestions) (length hardQuestions)) in
  triplets minCount 0 easyQuestions moderateQuestions hardQuestions [] k.

(** The handler, for the claims [user] of a verified test-taker token; it
    returns the response and the number of random draws made. *)
Definition testSetup (candidates : candidateCollection) (questions : questionCollection)
    (user : TokenClaims) (k : nat) : response * nat :=
  match findById candidates (tk_id user) with
  | None =>
      (respond 500 (Message false "An error occurred while fetching questions."), k)
  | Some candidate =>
      if JS.truthy (result candidate)
      then (respond 403 (Message false "Test has already been submitted."), k)
      else
        let allQuestions := findByBank questions (tk_questionBankName user) in
        if length allQuestions =? 0
        then (respond 404 (Message false
                ("Question bank '" ++ tk_questionBankName user ++ "' not found or is empty.")), k)
        else
          let '(finalQuestions, k') := assemble allQuestions k in
          (respond 200 (Exam (tk_questionBankName user) (tk_username user)
                             (List.map clean finalQuestions)), k')
  end.
End Assembler.

(* ===================================================================== *)
(** * The candidate state machine: login, submit, fail *)
(* ===================================================================== *)

(** The handlers of the test routes run behind [authenticateToken] and
    [authorize(null, 'test-taker')]; they are modelled from the point where
    the token is verified, with its claims as [user]. *)

(** [toLocaleString('en-IN', { timeZone })] raises a RangeError on a name
    that is not a time zone; of the two names the handlers pass,
    "Asia/Kolkata" is one and "Asia/KKolkata" is not. *)
Definition knownTimeZone (tz : string) : bool :=
  String.eqb tz "Asia/Kolkata" || String.eqb tz "UTC".

(** [s.replace(/&/g, 'and')]. *)
Fixpoint replaceAmp (s : string) : string :=
  match s with
  | EmptyString => EmptyString
  | String c s' => if Ascii.eqb c "&" then "and" ++ replaceAmp s' else String c (replaceAmp s')
  end.

(** [s.replace(/\s+/g, '_')]. *)
Fixpoint replaceSpaces (s : string) : string :=
  match s with
  | EmptyString => EmptyString
  | String c s' =>
      if JS.isWhiteSpace c
      then match s' with
           | String c' _ => if JS.isWhiteSpace c' then replaceSpaces s'
                            else String "_" (replaceSpaces s')
           | EmptyString => "_"
           end
      else String c (replaceSpaces s')
  end.

(** The request bodies; a missing field is [None].  The percentage is taken
    as the client sends it, a JSON number. *)
Record LoginBody := {
  lb_username : string;
  lb_password : string
}.

Record SubmitBody := {
  percentage : option JS.number;
  scoreString : option string
}.

Section StateMachine.
(** [bcrypt.compare(password, hash)]. *)
Variable bcryptCompare : string -> string -> bool.
(** [mailTransport.sendMail] to a recipient: delivered, or raised. *)
Variable sendMail : string -> bool.

(** [POST /api/test/auth/login]. *)
Definition login (db : candidateCollection) (req : LoginBody) : response :=
  if negb (JS.truthy (Some (lb_username req))) || negb (JS.truthy (Some (lb_password req)))
  then respond 400 (ErrorMessage "Username and password are required")
  else
    match findByUsername db (JS.toLowerCase (lb_username req)) with
    | None => respond 401 (ErrorMessage "Invalid username or password.")
    | Some candidate =>
        if negb (bcryptCompare (lb_password req) (password candidate))
        then respond 401 (ErrorMessage "Invalid username or password.")
        else if JS.truthy (result candidate)
                || String.eqb (c_status candidate) "Pass"
                || String.eqb (c_status candidate) "Fail"
        then respond 403 (ErrorMessage
               "The test has already been attempted with these credentials.")
        else
          let questionBankName :=
            JS.trim (program candidate ++ " " ++ JS.template (project candidate)) in
          let payload :=
            {| tk_id := _id candidate;
               tk_username := username candidate;
               tk_questionBankName := questionBankName;
               tk_scope := "test-taker";
               tk_expiresInHours := 3 |} in
          respond 200 (Login payload
                         (replaceSpaces (replaceAmp questionBankName) ++ "_test"))
    end.

(** The mail to the recruiter once the verdict is saved: the completion
    time is formatted, then the mail is sent if a recipient is recorded. *)
Definition notify (timeZone : string) (candidate : Candidate)
    (success : string) : response :=
  if negb (knownTimeZone timeZone)
  then respond 500 (Message false "An error occurred.")
  else if JS.truthy (Some (onboardedByTaEmail candidate))
            && negb (sendMail (onboardedByTaEmail candidate))
  then respond 500 (Message false "An error occurred.")
  else respond 200 (Message true success).

(** The verdict of a submission. *)
Definition verdict (attemptedQuestions : Z) (numericPercentage : JS.number) : string :=
  if (attemptedQuestions <? 15)%Z then "Not Qualified"
  else if JS.geb numericPercentage JS.num_0_75 then "Pass"
  else "Fail".

(** [parseFloat(percentage)] of a number is that number, and of a missing
    field NaN. *)
Definition parseFloat (v : option JS.number) : JS.number :=
  match v with
  | None => S754_nan
  | Some x => x
  end.

(** [POST /api/test/submit]. *)
Definition submit (db : candidateCollection) (user : TokenClaims) (req : SubmitBody)
  : response * candidateCollection :=
  match findById db (tk_id user) with
  | None => (respond 404 (Message false "User not found."), db)
  | Some candidate =>
      if JS.truthy (result candidate)
      then (respond 403 (Message false "Test already submitted."), db)
      else
        let numericPercentage := JS.orZero (parseFloat (percentage req)) in
        match scoreString req with
        | None => (respond 500 (Message false "An error occurred."), db)
        | Some scoreString =>
            match JS.split "/" scoreString !! 1 with
            | None => (respond 500 (Message false "An error occurred."), db)
            | Some attempted =>
                let attemptedQuestions := JS.orZeroInt (JS.parseInt (JS.trim attempted)) in
                let candidateStatus := verdict attemptedQuestions numericPercentage in
                let candidate' :=
                  setVerdict candidate
                    (Some (JS.toFixed1 (JS.mul numericPercentage JS.num_100) ++ "%"))
                    (Some scoreString)
                    candidateStatus
                    (videoLink candidate) in
                (notify "Asia/Kolkata" candidate' "Test submitted and email sent.",
                 save db candidate')
            end
        end
  end.

(** [POST /api/test/fail]. *)
Definition fail (db : candidateCollection) (user : TokenClaims) (failureReason : string)
  : response * candidateCollection :=
  match findById db (tk_id user) with
  | None => (respond 404 (Message false "User not found."), db)
  | Some candidate =>
      if JS.truthy (result candidate)
      then (respond 403 (Message false "Test already submitted."), db)
      else
        let candidate' :=
          setVerdict candidate (Some "0.0%") (Some "0 / 0")
                     failureReason (Some failureReason) in
        (notify "Asia/KKolkata" candidate' "Failure recorded and email sent.",
         save db candidate')
  end.
End StateMachine.

(** ** The scoring operations as one transition function *)

Inductive scoringCall :=
| CallLogin (req : LoginBody)
| CallSetup (user : TokenClaims) (k : nat)
| CallSubmit (user : TokenClaims) (req : SubmitBody)
| CallFail (user : TokenClaims) (failureReason : string).

Record World := {
  w_bcryptCompare : string -> string -> bool;
  w_sendMail : string -> bool;
  w_rand : randomSource;
  w_questions : questionCollection
}.

(** One request against the candidate collection. *)
Definition run (w : World) (call : scoringCall) (db : candidateCollection)
  : response * candidateCollection :=
  match call with
  | CallLogin req => (login (w_bcryptCompare w) db req, db)
  | CallSetup user k => (fst (testSetup (w_rand w) db (w_questions w) user k), db)
  | CallSubmit user req => submit (w_sendMail w) db user req
  | CallFail user reason => fail (w_sendMail w) db user reason
  end.

(** The two calls that close an attempt, and the candidate they act on. *)
Definition closingTarget (call : scoringCall) : option nat :=
  match call with
  | CallSubmit user _ | CallFail user _ => Some (tk_id user)
  | _ => None
  end.

(** A closing call that gets as far as saving on an open record: every
    [fail], and a [submit] whose [scoreString] has a part after a "/". *)
Definition reachesSave (call : scoringCall) : bool :=
  match call with
  | CallFail _ _ => true
  | CallSubmit _ req =>
      match scoreString req with
      | Some s => bool_decide (is_Some (JS.split "/" s !! 1))
      | None => false
      end
  | _ => false
  end.

(** The four verdict fields of a candidate. *)
Definition verdictFields (c : Candidate)
  : option string * option string * string * option string :=
  (result c, score c, c_status c, videoLink c).

(** ** Abbreviations used in the statements *)

(** The test the login route makes for an attempt already made. *)
Definition alreadyAttempted (c : Candidate) : bool :=
  JS.truthy (result c) || String.eqb (c_status c) "Pass" || String.eqb (c_status c) "Fail".

(** The token issued for a candidate. *)
Definition tokenFor (c : Candidate) : TokenClaims :=
  {| tk_id := _id c;
     tk_username := username c;
     tk_questionBankName := JS.trim (program c ++ " " ++ JS.template (project c));
     tk_scope := "test-taker";
     tk_expiresInHours := 3 |}.

(** The number of rounds: the size of the scarcest tier. *)
Definition minCount (all : list QuestionBankItem) : nat :=
  Nat.min (length (List.filter (hasType "easy") all))
          (Nat.min (length (List.filter (hasType "moderate") all))
                   (length (List.filter (hasType "hard") all))).


(** The questions a request for identifier [id] does not select. *)
Definition otherId (id : string) (q : QuestionBankItem) : bool := negb (hasId id q).

(** *** The shuffle as a function of the indices drawn *)

(** The indices [Math.floor(Math.random() * (i + 1))] that the loop entered
    at [i] draws, for the rounds [i], [i - 1], ..., 1. *)
Fixpoint drawnIndices (rand : randomSource) (i k : nat) : list nat :=
  match i with
  | 0 => []
  | S i' => floorMul (rand k) (i + 1) :: drawnIndices rand i' (S k)
  end.

(** The loop entered at [i], run on given indices. *)
Fixpoint shuffleSteps {A : Type} (i : nat) (js : list nat) (array : list A) : list A :=
  match i, js with
  | S i', j :: js' => shuffleSteps i' js' (swap array i j)
  | _, _ => array
  end.

(** All the sequences of indices the loop entered at [i] can draw: any of
    [0..i] in round [i].  When each value of [Math.random()] is uniform over
    the unit interval, each of the [i + 1] indices of round [i] has the same
    probability, whatever was drawn before, and so has each of these
    sequences. *)
Fixpoint draws (i : nat) : list (list nat) :=
  match i with
  | 0 => [[]]
  | S i' => List.flat_map (fun j => List.map (cons j) (draws i')) (seq 0 (i + 1))
  end.

(** The values of [Math.random()] for which the loop entered at [i] draws
    the sequence [js]: the value of round [t] lies in the [j]-th of the
    [t + 1] equal parts of the unit interval.  The widths of these parts do
    not depend on [js], which is why all sequences are equally likely. *)
Fixpoint drawsBox (rand : randomSource) (i k : nat) (js : list nat) : Prop :=
  match i, js with
  | 0, [] => True
  | S i', j :: js' =>
      ((inject_Z (Z.of_nat j) <= rand k * inject_Z (Z.of_nat (i + 1)))%Q
       /\ (rand k * inject_Z (Z.of_nat (i + 1)) < inject_Z (Z.of_nat j + 1))%Q)
      /\ drawsBox rand i' (S k) js'
  | _, _ => False
  end.

(** The results of the shuffle of [array], one for each sequence of draws. *)
Definition outcomes {A : Type} (array : list A) : list (list A) :=
  List.map (fun js => shuffleSteps (length array - 1) js array)
           (draws (length array - 1)).

(** How often [x] is in [l]. *)
Definition countOf {A : Type} `{EqDecision A} (x : A) (l : list A) : nat :=
  length (List.filter (fun y => bool_decide (y = x)) l).

(** The number of ways to rearrange the positions of [l] that give [l]
    again: the product of the factorials of the multiplicities. *)
Fixpoint repeats {A : Type} `{EqDecision A} (l : list A) : nat :=
  match l with
  | [] => 1
  | x :: l' => (1 + countOf x l') * repeats l'
  end.

(** The first round of the loop on [l ++ [x]] with the index [j]: the element
    at [j] goes to the end and [x] takes its place; with [j] the last
    position nothing moves. *)
Definition place {A : Type} (l : list A) (x : A) (j : nat) : list A * A :=
  match l !! j with
  | Some y => (<[j := x]> l, y)
  | None => (l, x)
  end.

(** How often [p] is among the results [ps]. *)
Definition occurrences {A : Type} `{EqDecision A} (p : list A) (ps : list (list A)) : nat :=
  length (List.filter (fun q => bool_decide (q = p)) ps).





(* ===================================================================== *)
(** * The middleware: [authenticateToken] and [authorize] *)
(* ===================================================================== *)

(** What the middleware reads of the claims of a verified token. *)
Record AuthUser := {
  au_role : option string;
  au_scope : option string
}.

(** [authHeader && authHeader.split(' ')[1]]. *)
Definition bearerToken (authHeader : option string) : option string :=
  match authHeader with
  | None => None
  | Some h => if JS.truthy (Some h) then JS.split " " h !! 1 else Some h
  end.

(** [authenticateToken], with [jwtVerify] for [jwt.verify] under the secret
    of the server: the claims of the token, or nothing for a token it
    refuses.  The request goes on with the claims, or is answered. *)
Definition authenticateToken {U : Type} (jwtVerify : string -> option U)
    (authHeader : option string) : response + U :=
  match bearerToken authHeader with
  | None => inl (respond 401 (ErrorMessage "Unauthorized: No token provided"))
  | Some token =>
      match jwtVerify token with
      | None => inl (respond 403 (ErrorMessage "Forbidden: Invalid token"))
      | Some user => inr user
      end
  end.

(** [roles.includes(role)]. *)
Definition includes (roles : list string) (role : option string) : bool :=
  match role with
  | Some r => List.existsb (String.eqb r) roles
  | None => false
  end.

Definition hasScope (user : AuthUser) (scope : string) : bool :=
  match au_scope user with
  | Some s => String.eqb s scope
  | None => false
  end.

(** [authorize(allowedRoles, allowedScope)]: the answer that stops the
    request, or nothing when it goes on. *)
Definition authorize (allowedRoles : option (list string)) (allowedScope : string)
    (user : AuthUser) : option response :=
  if negb (hasScope user allowedScope)
  then Some (respond 403 (ErrorMessage "Forbidden: Invalid token scope for this action"))
  else match allowedRoles with
       | Some roles =>
           if negb (includes roles (au_role user))
           then Some (respond 403
                  (ErrorMessage "Forbidden: You do not have permission for this action"))
           else None
       | None => None
       end.

(** The test of the routes shared by the two administration scopes. *)
Definition sharedGuard (user : AuthUser) : option response :=
  if negb (hasScope user "enrollment") && negb (hasScope user "quizzer")
  then Some (respond 403 (ErrorMessage "Forbidden"))
  else None.


(* ===================================================================== *)
(** * The enrollment application: its users *)
(* ===================================================================== *)

Record EnrollmentUser := {
  eu_id : nat;
  eu_firstName : string;
  eu_lastName : string;
  eu_email : string;
  eu_password : string;
  eu_role : string
}.




Definition findEnrollmentUser (db : list EnrollmentUser) (address : string)
  : option EnrollmentUser :=
  List.find (fun u => String.eqb (eu_email u) address) db.


Record TaBody := {
  tb_firstName : string;
  tb_lastName : string;
  tb_email : string;
  tb_role : string
}.

(** [POST /api/enrollment/tas/onboard], behind
    [authorize(['Owner', 'Manager'], 'enrollment')].  The schema lowercases
    and trims the stored email, requires every field and keeps the emails
    unique; [id] is the identifier the database gives the new document and
    [hashedPassword] the hash of the generated password. *)
Definition tasOnboard (sendMail : string -> bool) (db : list EnrollmentUser)
    (requester : AuthUser) (req : TaBody) (id : nat) (hashedPassword : string)
  : response * list EnrollmentUser :=
  if negb (JS.truthy (Some (tb_firstName req))) || negb (JS.truthy (Some (tb_lastName req)))
     || negb (JS.truthy (Some (tb_email req))) || negb (JS.truthy (Some (tb_role req)))
  then (respond 400 (ErrorMessage "Missing required fields"), db)
  else if negb (includes ["TA"; "Manager"; "Owner"] (Some (tb_role req)))
  then (respond 400 (ErrorMessage "Invalid role for this application"), db)
  else if String.eqb (tb_role req) "Owner" && negb (includes ["Owner"] (au_role requester))
  then (respond 403 (ErrorMessage "Forbidden: Only Owners can create other Owners."), db)
  else
    match findEnrollmentUser db (JS.toLowerCase (tb_email req)) with
    | Some _ => (respond 409 (ErrorMessage "User with this email already exists"), db)
    | None =>
        let user :=
          {| eu_id := id;
             eu_firstName := tb_firstName req;
             eu_lastName := tb_lastName req;
             eu_email := JS.trim (JS.toLowerCase (tb_email req));
             eu_password := hashedPassword;
             eu_role := tb_role req |} in
        if String.eqb (eu_email user) "" || String.eqb (eu_password user) ""
        then (respond 500 (Message false "Onboarding failed: validation failed"), db)
        else if List.existsb (fun u => String.eqb (eu_email u) (eu_email user)) db
        then (respond 500 (Message false "Onboarding failed: duplicate key"), db)
        else
          let db' := (db ++ [user])%list in
          if sendMail (tb_email req)
          then (respond 201 (Message true
                  "New user onboarded and credential email sent successfully!"), db')
          else (respond 500 (Message false "Onboarding failed: mail not sent"), db')
    end.

(* ===================================================================== *)
(** * The quizzer application: its users and the programmes *)
(* ===================================================================== *)

Record Programme := {
  pr_name : string;
  pr_projects : list string
}.

(** [Programme.findOneAndUpdate({ name }, { $addToSet: { projects: project } },
    { upsert: true })]: the project joins the projects of the programme of
    that name unless it is one of them, and a programme of that name is
    created with it when there is none. *)
Fixpoint addProject (name project : string) (db : list Programme) : list Programme :=
  match db with
  | [] => [ {| pr_name := name; pr_projects := [project] |} ]
  | p :: db' =>
      if String.eqb (pr_name p) name
      then {| pr_name := pr_name p;
              pr_projects :=
                if List.existsb (String.eqb project) (pr_projects p)
                then pr_projects p
                else (pr_projects p ++ [project])%list |} :: db'
      else p :: addProject name project db'
  end.

Record QuizzerUser := {
  qu_id : nat;
  qu_firstName : string;
  qu_lastName : string;
  qu_email : string;
  qu_username : string;
  qu_password : string;
  qu_role : string;
  qu_programme : option string;
  qu_project : option string;
  qu_questionBankSheet : option string
}.

Record QuizzerClaims := {
  qc_id : nat;
  qc_email : string;
  qc_username : string;
  qc_role : string;
  qc_fullName : string;
  qc_programme : option string;
  qc_project : option string;
  qc_questionBankSheet : option string;
  qc_scope : string;
  qc_expiresInHours : nat
}.

Definition quizzerUser (t : QuizzerClaims) : AuthUser :=
  {| au_role := Some (qc_role t); au_scope := Some (qc_scope t) |}.



Record RegisterBody := {
  rb_firstName : string;
  rb_lastName : string;
  rb_email : string;
  rb_role : string;
  rb_programme : option string;
  rb_project : option string
}.

(** [`${firstName.toLowerCase()}.${lastName.toLowerCase().charAt(0)}`]. *)
Definition quizzerUsername (first last : string) : string :=
  JS.toLowerCase first ++ "." ++ JS.charAt0 (JS.toLowerCase last).

(** [POST /api/quizzer/users/register], behind
    [authorize(['Owner', 'Manager'], 'quizzer')], on the collection of the
    programmes and that of the users.  The project is added to the programme
    before anything is looked up.  The schema lowercases and trims the stored
    email, trims the stored user name, requires the names, email, user name,
    password and role, and keeps emails and user names unique. *)
Definition registerQuizzer (sendMail : string -> bool)
    (programmes : list Programme) (db : list QuizzerUser)
    (requester : AuthUser) (req : RegisterBody) (id : nat) (hashedPassword : string)
  : response * list Programme * list QuizzerUser :=
  if negb (includes ["Editor"; "Manager"; "Owner"] (Some (rb_role req)))
  then (respond 400 (ErrorMessage "Invalid role for this application"), programmes, db)
  else if String.eqb (rb_role req) "Owner" && negb (includes ["Owner"] (au_role requester))
  then (respond 403 (ErrorMessage "Forbidden: Only Owners can create other Owners."),
        programmes, db)
  else
    let programmes' :=
      if JS.truthy (rb_programme req) && JS.truthy (rb_project req)
      then addProject (JS.template (rb_programme req)) (JS.template (rb_project req))
                      programmes
      else programmes in
    match List.find (fun u => String.eqb (qu_email u) (JS.toLowerCase (rb_email req))) db with
    | Some _ =>
        (respond 409 (ErrorMessage "User with this email already exists"), programmes', db)
    | None =>
        let user :=
          {| qu_id := id;
             qu_firstName := rb_firstName req;
             qu_lastName := rb_lastName req;
             qu_email := JS.trim (JS.toLowerCase (rb_email req));
             qu_username := JS.trim (quizzerUsername (rb_firstName req) (rb_lastName req));
             qu_password := hashedPassword;
             qu_role := rb_role req;
             qu_programme := rb_programme req;
             qu_project := rb_project req;
             qu_questionBankSheet := None |} in
        if List.existsb (String.eqb "")
             [qu_firstName user; qu_lastName user; qu_email user; qu_username user;
              qu_password user]
        then (respond 500 (Message false "Failed to register user: validation failed"),
              programmes', db)
        else if List.existsb (fun u => String.eqb (qu_email u) (qu_email user)
                                       || String.eqb (qu_username u) (qu_username user)) db
        then (respond 500 (Message false "Failed to register user: duplicate key"),
              programmes', db)
        else
          let db' := (db ++ [user])%list in
          if sendMail (rb_email req)
          then (respond 201 (Message true "New user registered successfully!"),
                programmes', db')
          else (respond 500 (Message false "Failed to register user: mail not sent"),
                programmes', db')
    end.

(** An entry of the access data: a project and the name of its question
    bank. *)
Record Sheet := {
  sh_project : string;
  sh_sheetName : string
}.

Definition sheetsOf (p : Programme) : list Sheet :=
  List.map (fun proj => {| sh_project := proj; sh_sheetName := pr_name p ++ " " ++ proj |})
           (pr_projects p).

Inductive accessReply :=
| AllProgrammes (byName : gmap string (list Sheet))
| ProjectsInProgramme (sheets : list Sheet)
| AccessRefused (res : response).

(** [GET /api/quizzer/access-data], behind
    [authorize(['Owner', 'Manager'], 'quizzer')]: the object an Owner gets
    has the programme names as keys; a Manager gets the projects of the
    programme of the token.  The object is a map for names other than
    "__proto__", which an assignment does not make a key. *)
Definition accessData (programmes : list Programme) (user : QuizzerClaims) : accessReply :=
  if String.eqb (qc_role user) "Owner"
  then AllProgrammes
         (List.fold_left (fun all p => <[pr_name p := sheetsOf p]> all) programmes ∅)
  else if String.eqb (qc_role user) "Manager"
  then ProjectsInProgramme
         match List.find (fun p => bool_decide (Some (pr_name p) = qc_programme user))
                         programmes with
         | Some managerProgramme => sheetsOf managerProgramme
         | None => []
         end
  else AccessRefused (respond 403 (ErrorMessage "Invalid role for access data.")).

(* ===================================================================== *)
(** * Candidates: credentials sent again, and the portal as a whole *)
(* ===================================================================== *)

Definition setPassword (c : Candidate) (password' : string) : Candidate :=
  {| _id := _id c;
     onboardedByTaName := onboardedByTaName c;
     onboardedByTaEmail := onboardedByTaEmail c;
     firstName := firstName c;
     lastName := lastName c;
     email := email c;
     username := username c;
     password := password';
     program := program c;
     project := project c;
     c_status := c_status c;
     result := result c;
     score := score c;
     videoLink := videoLink c |}.

(** [POST /api/candidates/resend-credentials], for the claims of a verified
    token; [newPassword] is the generated password and [bcryptHash] is
    [bcrypt.hash].  The password is the one field the handler changes that
    the schema requires, so that [save] raises on an empty hash. *)
Definition resendCredentials (bcryptHash : string -> string) (sendMail : string -> bool)
    (db : candidateCollection) (user : AuthUser) (address newPassword : string)
  : response * candidateCollection :=
  match sharedGuard user with
  | Some refused => (refused, db)
  | None =>
      match findByEmail db (JS.toLowerCase address) with
      | None => (respond 404 (Message false "Candidate not found"), db)
      | Some candidate =>
          if String.eqb (bcryptHash newPassword) ""
          then (respond 500 (Message false "validation failed"), db)
          else
            let db' := save db (setPassword candidate (bcryptHash newPassword)) in
            if sendMail address
            then (respond 200 (Message true
                    ("New assessment credentials sent to " ++ address ++ ".")), db')
            else (respond 500 (Message false "mail not sent"), db')
      end
  end.

(** The requests that act on the candidates: the scoring operations,
    onboarding and the resending of credentials. *)
Inductive portalCall :=
| Scoring (call : scoringCall)
| Onboarding (ta : Recruiter) (req : OnboardBody) (hashedPassword : string)
| Resending (user : AuthUser) (address newPassword : string).

(** An identifier no document of the collection has, for the one the
    database gives a new document. *)
Definition freshId (db : candidateCollection) : nat :=
  S (list_max (List.map _id db)).

Definition portalStep (w : World) (bcryptHash : string -> string)
    (db : candidateCollection) (call : portalCall) : candidateCollection :=
  match call with
  | Scoring call => snd (run w call db)
  | Onboarding ta req hashedPassword =>
      snd (onboard (w_sendMail w) db ta req (freshId db) hashedPassword)
  | Resending user address newPassword =>
      snd (resendCredentials bcryptHash (w_sendMail w) db user address newPassword)
  end.

Definition portalRun (w : World) (bcryptHash : string -> string)
    (calls : list portalCall) (db : candidateCollection) : candidateCollection :=
  List.fold_left (portalStep w bcryptHash) calls db.

(** The verdict fields of a candidate are those of an attempt not made, of
    a submission, or of a recorded failure. *)
Definition verdictShape (c : Candidate) : Prop :=
  (c_status c = "Mail Sent" /\ result c = None /\ score c = None /\ videoLink c = None)
  \/ (exists s, result c = Some s /\ In "/"%char (list_ascii_of_string s)
                /\ In (c_status c) ["Not Qualified"; "Pass"; "Fail"]
                /\ is_Some (score c) /\ videoLink c = None)
  \/ (result c = Some "0 / 0" /\ score c = Some "0.0%"
      /\ videoLink c = Some (c_status c)).

(** The prefix of the identifiers of a bank, as the add route computes it. *)
Definition idPrefix (bank : string) : string :=
  let nameParts := JS.split " " bank in
  JS.toUpperCase
    ((match nameParts with
      | [] => ""
      | p :: _ => if JS.truthy (Some p) then JS.charAt0 p else ""
      end)
     ++ (if 1 <? length nameParts then JS.charAt0 (List.last nameParts "") else "")).

(** How often the character [c] is in [s]. *)
Fixpoint countChar (c : ascii) (s : string) : nat :=
  match s with
  | EmptyString => 0
  | String c' s' => (if Ascii.eqb c' c then 1 else 0) + countChar c s'
  end.

(** An address without white space around it: the schema, which trims the
    stored address, stores it as the handler passes it, and a query finds it
    under the value the handler passes. *)
Definition plainAddress (address : string) : Prop :=
  JS.trim (JS.toLowerCase address) = JS.toLowerCase address.

(** A request whose address, where it carries one, is plain. *)
Definition plainCall (call : portalCall) : Prop :=
  match call with
  | Scoring _ => True
  | Onboarding _ req _ => plainAddress (ob_email req)
  | Resending _ address _ => plainAddress address
  end.

(** What onboarding records of a candidate, apart from the password. *)
Definition particulars (c : Candidate)
  : nat * string * string * string * string * string * string * string * option string :=
  (_id c, onboardedByTaName c, onboardedByTaEmail c, firstName c, lastName c,
   email c, username c, program c, project c).

(* ===================================================================== *)
(** * Sample data *)
(* ===================================================================== *)

(** A candidate as the onboarding route creates it, a token for that
    candidate, and a small bank, used to run the handlers below. *)
Definition sampleCandidate : Candidate :=
  {| _id := 1;
     onboardedByTaName := "Asha";
     onboardedByTaEmail := "asha@example.org";
     firstName := "Ravi";
     lastName := "Kumar";
     email := "ravi@example.org";
     username := "ravi@example.org";
     password := "hash:secret";
     program := "Go";
     project := Some "Backend";
     c_status := "Mail Sent";
     result := None;
     score := None;
     videoLink := None |}.

Definition sampleToken : TokenClaims :=
  {| tk_id := 1;
     tk_username := "ravi@example.org";
     tk_questionBankName := "Go Backend";
     tk_scope := "test-taker";
     tk_expiresInHours := 3 |}.

Definition sampleCompare (password hash : string) : bool :=
  String.eqb ("hash:" ++ password) hash.

Definition sampleMail (recipient : string) : bool := true.

Definition sampleRand : randomSource :=
  fun k => (Z.of_nat (k * 7 mod 10) # 10)%Q.

Definition sampleQuestion (bank id type : string) : QuestionBankItem :=
  {| questionBankName := bank;
     questionId := id;
     question := "What is printed?";
     referenceUrls := [];
     options := Some "a, b, c, d";
     questionType := type;
     correctAnswer := "a" |}.

Definition sampleBanks : questionCollection :=
  [sampleQuestion "Go Backend" "GB001" "easy";
   sampleQuestion "Python Scripting" "PS001" "hard"].

(** A request that names the bank "Python Scripting" and a question of the
    bank "Go Backend". *)
Definition crossParams : QuestionParams :=
  {| p_questionBankName := "Python Scripting"; p_questionId := "GB001" |}.

(** The bank "Go Backend" with 5 easy, 3 moderate and 4 hard questions, next
    to a question of another bank. *)
Definition goBackend : questionCollection :=
  [sampleQuestion "Go Backend" "GB001" "easy";
   sampleQuestion "Go Backend" "GB002" "hard";
   sampleQuestion "Go Backend" "GB003" "moderate";
   sampleQuestion "Go Backend" "GB004" "easy";
   sampleQuestion "Python Scripting" "PS001" "hard";
   sampleQuestion "Go Backend" "GB005" "easy";
   sampleQuestion "Go Backend" "GB006" "hard";
   sampleQuestion "Go Backend" "GB007" "moderate";
   sampleQuestion "Go Backend" "GB008" "hard";
   sampleQuestion "Go Backend" "GB009" "easy";
   sampleQuestion "Go Backend" "GB010" "moderate";
   sampleQuestion "Go Backend" "GB011" "easy";
   sampleQuestion "Go Backend" "GB012" "hard"].

Definition sampleData : QuestionData :=
  {| qd_question := "What is returned?";
     qd_ref1 := None; qd_ref2 := None; qd_ref3 := None; qd_ref4 := None;
     qd_options := Some "x, y";
     qd_type := Some " Hard ";
     qd_answer := "y" |}.

Definition sampleWorld : World :=
  {| w_bcryptCompare := sampleCompare;
     w_sendMail := sampleMail;
     w_rand := sampleRand;
     w_questions := [] |}.

(** 0.8 and 0.9 as doubles. *)
Definition num_0_8 : JS.number := SFdiv JS.prec JS.emax (JS.b64 8 0) (JS.b64 10 0).
Definition num_0_9 : JS.number := SFdiv JS.prec JS.emax (JS.b64 9 0) (JS.b64 10 0).

(* ===================================================================== *)
(** * Properties *)
(* ===================================================================== *)

(** ** The candidate collection *)

Section Collection.
Context {D : Type}.
Implicit Types (db : list D) (matches : D -> bool).

Lemma findOneAndUpdate_find matches update db :
  fst (findOneAndUpdate matches update db) = update <$> List.find matches db.
Proof.
  induction db as [|d db IH]; simpl; [done|].
  destruct (matches d); [done|].
  destruct (findOneAndUpdate matches update db); simpl in *. done.
Qed.

Lemma findOneAndUpdate_none matches update db :
  List.find matches db = None -> snd (findOneAndUpdate matches update db) = db.
Proof.
  induction db as [|d db IH]; simpl; [done|].
  destruct (matches d); [done|]. intros H.
  destruct (findOneAndUpdate matches update db); simpl in *. by rewrite IH.
Qed.

Lemma findOneAndUpdate_length matches update db :
  length (snd (findOneAndUpdate matches update db)) = length db.
Proof.
  induction db as [|d db IH]; simpl; [done|].
  destruct (matches d); [done|].
  destruct (findOneAndUpdate matches update db); simpl in *. by rewrite IH.
Qed.

(** A search that agrees with the filter on the updated document finds it. *)
Lemma find_findOneAndUpdate_same matches update db d :
  List.find matches db = Some d -> matches (update d) = true ->
  List.find matches (snd (findOneAndUpdate matches update db)) = Some (update d).
Proof.
  induction db as [|d' db IH]; simpl; [done|].
  destruct (matches d') eqn:E.
  - intros [= ->] H. simpl. by rewrite H.
  - intros Hf H. destruct (findOneAndUpdate matches update db); simpl in *.
    rewrite E. by apply IH.
Qed.

(** A search that never tells a document from its update is not affected. *)
Lemma find_findOneAndUpdate_other matches update other db :
  (forall d, matches d = true -> other d = false) ->
  (forall d, matches d = true -> other (update d) = false) ->
  List.find other (snd (findOneAndUpdate matches update db)) = List.find other db.
Proof.
  intros H1 H2. induction db as [|d db IH]; simpl; [done|].
  destruct (matches d) eqn:E; simpl.
  - by rewrite (H1 d E), (H2 d E).
  - destruct (findOneAndUpdate matches update db); simpl in *. by rewrite IH.
Qed.
End Collection.

Lemma findById_id db id c : findById db id = Some c -> _id c = id.
Proof.
  unfold findById. intros H. apply List.find_some in H as [_ H].
  by apply Nat.eqb_eq in H.
Qed.

Lemma findById_save_same db c c' :
  findById db (_id c') = Some c -> findById (save db c') (_id c') = Some c'.
Proof.
  intros H. unfold findById, save in *.
  apply (find_findOneAndUpdate_same _ (fun _ => c')) in H; [done|].
  apply Nat.eqb_refl.
Qed.

Lemma findById_save_other db c' id :
  id <> _id c' -> findById (save db c') id = findById db id.
Proof.
  intros H. unfold findById, save.
  apply find_findOneAndUpdate_other.
  - intros d Hd. apply Nat.eqb_eq in Hd. apply Nat.eqb_neq. congruence.
  - intros d _. apply Nat.eqb_neq. congruence.
Qed.

Lemma setVerdict_id c s r st v : _id (setVerdict c s r st v) = _id c.
Proof. done. Qed.

(** ** Strings *)

Lemma truthy_Some_nonempty s : JS.truthy (Some s) = true <-> s <> "".
Proof.
  unfold JS.truthy. rewrite negb_true_iff. split.
  - intros H ->. by rewrite String.eqb_refl in H.
  - intros H. by apply String.eqb_neq.
Qed.

Lemma split_nonempty sep s : JS.split sep s <> [].
Proof. destruct s as [|c s]; simpl; [done|]. by repeat case_match. Qed.

(** Without the separator there is one part, the string itself. *)
Lemma split_without sep s :
  ~ In sep (list_ascii_of_string s) -> JS.split sep s = [s].
Proof.
  induction s as [|c s IH]; simpl; [done|]. intros H.
  destruct (Ascii.eqb_spec c sep) as [->|Hne]; [tauto|].
  rewrite IH; [done | tauto].
Qed.

(** With the separator there is a second part. *)
Lemma split_with sep s :
  In sep (list_ascii_of_string s) -> is_Some (JS.split sep s !! 1).
Proof.
  induction s as [|c s IH]; simpl; [done|]. intros H.
  destruct (Ascii.eqb_spec c sep) as [->|Hne].
  - pose proof (split_nonempty sep s). destruct (JS.split sep s); [done|]. by eexists.
  - destruct H as [H|H]; [done|]. specialize (IH H).
    destruct (JS.split sep s) as [|w ws]; [by destruct IH|]. exact IH.
Qed.

Lemma split_second_iff sep s :
  is_Some (JS.split sep s !! 1) <-> In sep (list_ascii_of_string s).
Proof.
  split; [|apply split_with].
  intros H. destruct (in_dec ascii_dec sep (list_ascii_of_string s)) as [|Hn]; [done|].
  rewrite (split_without _ _ Hn) in H. by destruct H.
Qed.

(** A string with a "/" in it is not empty, so a saved [result] is truthy. *)
Lemma truthy_with_sep sep s :
  is_Some (JS.split sep s !! 1) -> JS.truthy (Some s) = true.
Proof. intros H. apply truthy_Some_nonempty. intros ->. by destruct H. Qed.

(** ** The closing calls *)

Section Closing.
Variable sendMail : string -> bool.
Implicit Types (db : candidateCollection) (user : TokenClaims) (c : Candidate).

Lemma submit_closed db user req c :
  findById db (tk_id user) = Some c -> closed c = true ->
  submit sendMail db user req
  = (respond 403 (Message false "Test already submitted."), db).
Proof. unfold submit, closed. by intros -> ->. Qed.

Lemma fail_closed db user reason c :
  findById db (tk_id user) = Some c -> closed c = true ->
  fail sendMail db user reason
  = (respond 403 (Message false "Test already submitted."), db).
Proof. unfold fail, closed. by intros -> ->. Qed.

Lemma submit_open db user req c s part :
  findById db (tk_id user) = Some c -> closed c = false ->
  scoreString req = Some s -> JS.split "/" s !! 1 = Some part ->
  snd (submit sendMail db user req)
  = save db (setVerdict c
       (Some (JS.toFixed1 (JS.mul (JS.orZero (parseFloat (percentage req))) JS.num_100) ++ "%"))
       (Some s)
       (verdict (JS.orZeroInt (JS.parseInt (JS.trim part)))
                (JS.orZero (parseFloat (percentage req))))
       (videoLink c)).
Proof. unfold submit, closed. by intros -> -> -> ->. Qed.

Lemma submit_malformed db user req c s :
  findById db (tk_id user) = Some c -> closed c = false ->
  scoreString req = Some s -> ~ In "/"%char (list_ascii_of_string s) ->
  submit sendMail db user req
  = (respond 500 (Message false "An error occurred."), db).
Proof.
  unfold submit, closed. intros -> -> -> H. by rewrite (split_without _ _ H).
Qed.

Lemma fail_open db user reason c :
  findById db (tk_id user) = Some c -> closed c = false ->
  snd (fail sendMail db user reason)
  = save db (setVerdict c (Some "0.0%") (Some "0 / 0") reason (Some reason)).
Proof. unfold fail, closed. by intros -> ->. Qed.

(** Saving the document just read is seen by the next read. *)
Lemma findById_save_read db id c s r st v :
  findById db id = Some c ->
  findById (save db (setVerdict c s r st v)) id = Some (setVerdict c s r st v).
Proof.
  intros H. pose proof (findById_id _ _ _ H) as <-.
  by apply (findById_save_same db c (setVerdict c s r st v)).
Qed.
End Closing.

(** ** Claims on [submit] and [fail] *)

(** The time zone name the [fail] handler passes is not one, so that the
    handler raises after the save: the failure is recorded and the answer is
    the generic 500. *)
Example fail_answers_500_after_save :
  status (fst (fail sampleMail [sampleCandidate] sampleToken "Tab switched")) = 500
  /\ (verdictFields <$>
        findById (snd (fail sampleMail [sampleCandidate] sampleToken "Tab switched")) 1)
     = Some (Some "0 / 0", Some "0.0%", "Tab switched", Some "Tab switched").
Proof. vm_compute. done. Qed.

(** C10: a [submit] on an open record whose [scoreString] has no "/" is
    answered with the generic 500 (not a 400), changes nothing in the
    collection, so the candidate's verdict fields are as before and the
    attempt is still open; a later [fail], or a [submit] with a "/" in its
    [scoreString], closes it. *)
Theorem submit_without_slash_keeps_open
    (sendMail : string -> bool) (db : candidateCollection) (user : TokenClaims)
    (req : SubmitBody) (c : Candidate) (s : string) :
  findById db (tk_id user) = Some c -> closed c = false ->
  scoreString req = Some s -> ~ In "/"%char (list_ascii_of_string s) ->
  fst (submit sendMail db user req) = respond 500 (Message false "An error occurred.")
  /\ status (fst (submit sendMail db user req)) <> 400
  /\ snd (submit sendMail db user req) = db
  /\ findById (snd (submit sendMail db user req)) (tk_id user) = Some c
  /\ (forall reason, exists c',
        findById (snd (fail sendMail (snd (submit sendMail db user req)) user reason))
                 (tk_id user) = Some c'
        /\ closed c' = true)
  /\ (forall req' s', scoreString req' = Some s' ->
        In "/"%char (list_ascii_of_string s') ->
        exists c',
          findById (snd (submit sendMail (snd (submit sendMail db user req)) user req'))
                   (tk_id user) = Some c'
          /\ closed c' = true /\ result c' = Some s').
Proof.
  intros Hc Ho Hs Hn.
  rewrite (submit_malformed sendMail db user req c s Hc Ho Hs Hn). simpl.
  split_and!; [done | done | done | done | |].
  - intros reason. eexists. rewrite (fail_open _ _ _ _ _ Hc Ho). split.
    + by apply findById_save_read.
    + done.
  - intros req' s' Hs' Hin. apply split_with in Hin as Hp. destruct Hp as [part Hp].
    eexists. rewrite (submit_open _ _ _ _ _ _ _ Hc Ho Hs' Hp). split.
    + by apply findById_save_read.
    + split; [|done]. unfold closed. simpl. apply truthy_with_sep with "/"%char. by eexists.
Qed.

Lemma submit_without_slash_keeps_open_witness :
  findById [sampleCandidate] (tk_id sampleToken) = Some sampleCandidate
  /\ fst (submit sampleMail [sampleCandidate] sampleToken
            {| percentage := Some num_0_8; scoreString := Some "16 of 20" |})
     = respond 500 (Message false "An error occurred.").
Proof.
  split; [reflexivity|].
  refine (proj1 (submit_without_slash_keeps_open sampleMail [sampleCandidate] sampleToken
            {| percentage := Some num_0_8; scoreString := Some "16 of 20" |}
            sampleCandidate "16 of 20" _ _ _ _)); try reflexivity.
  simpl. intros H. repeat (destruct H as [H|H]; [discriminate H|]). exact H.
Defined.

(** C8: a [fail] on an open record saves the score "0.0%" and the result
    "0 / 0", which closes the record, and the reason in both [status] and
    [videoLink]. *)
Theorem fail_saves_reason
    (sendMail : string -> bool) (db : candidateCollection) (user : TokenClaims)
    (reason : string) (c : Candidate) :
  findById db (tk_id user) = Some c -> closed c = false ->
  exists c',
    findById (snd (fail sendMail db user reason)) (tk_id user) = Some c'
    /\ score c' = Some "0.0%"
    /\ result c' = Some "0 / 0"
    /\ closed c' = true
    /\ c_status c' = reason
    /\ videoLink c' = Some reason.
Proof.
  intros Hc Ho. eexists. rewrite (fail_open _ _ _ _ _ Hc Ho). split.
  - by apply findById_save_read.
  - done.
Qed.

Lemma fail_saves_reason_witness :
  closed sampleCandidate = false
  /\ exists c',
       findById (snd (fail sampleMail [sampleCandidate] sampleToken "Tab switched"))
                (tk_id sampleToken) = Some c'
       /\ score c' = Some "0.0%"
       /\ result c' = Some "0 / 0"
       /\ closed c' = true
       /\ c_status c' = "Tab switched"
       /\ videoLink c' = Some "Tab switched".
Proof.
  split; [reflexivity|].
  apply (fail_saves_reason sampleMail [sampleCandidate] sampleToken "Tab switched"
           sampleCandidate); reflexivity.
Defined.

(** ** The closed attempt *)

(** What a closing call can do to the collection: nothing, or save verdict
    fields into the open record it was issued for. *)
Lemma closing_call_cases (w : World) (call : scoringCall) (db : candidateCollection) :
  snd (run w call db) = db
  \/ exists c0 s r st v id,
       closingTarget call = Some id
       /\ findById db id = Some c0 /\ closed c0 = false
       /\ JS.truthy r = true
       /\ snd (run w call db) = save db (setVerdict c0 s r st v).
Proof.
  destruct call as [req|user k|user req|user reason]; simpl; [by left | by left | |].
  - unfold submit, closed.
    destruct (findById db (tk_id user)) as [c0|] eqn:Hc; [|by left].
    destruct (JS.truthy (result c0)) eqn:Ho; [by left|].
    destruct (scoreString req) as [s|]; [|by left].
    destruct (JS.split "/" s !! 1) as [part|] eqn:Hp; [|by left].
    right. do 6 eexists. split_and!; try done.
    apply truthy_with_sep with "/"%char. by eexists.
  - unfold fail, closed.
    destruct (findById db (tk_id user)) as [c0|] eqn:Hc; [|by left].
    destruct (JS.truthy (result c0)) eqn:Ho; [by left|].
    right. exists c0, (Some "0.0%"), (Some "0 / 0"), reason, (Some reason), (tk_id user).
    by split_and!.
Qed.

(** No scoring operation touches a closed record. *)
Lemma closed_frame (w : World) (call : scoringCall) (db : candidateCollection)
    (id : nat) (c : Candidate) :
  findById db id = Some c -> closed c = true ->
  findById (snd (run w call db)) id = Some c.
Proof.
  intros Hc Hcl.
  destruct (closing_call_cases w call db)
    as [->|(c0 & s & r & st & v & id0 & _ & Hc0 & Ho & _ & ->)]; [done|].
  rewrite findById_save_other; [done|]. simpl.
  rewrite (findById_id _ _ _ Hc0). intros ->. congruence.
Qed.

(** A closing call for a closed record is refused. *)
Lemma closing_refused (w : World) (call : scoringCall) (db : candidateCollection)
    (id : nat) (c : Candidate) :
  findById db id = Some c -> closed c = true -> closingTarget call = Some id ->
  run w call db = (respond 403 (Message false "Test already submitted."), db).
Proof.
  intros Hc Hcl Ht.
  destruct call as [req|user k|user req|user reason]; simpl in *; try done;
    injection Ht as <-.
  - by apply submit_closed with c.
  - by apply fail_closed with c.
Qed.

(** A closing call that reaches the save leaves the record closed. *)
Lemma closing_closes (w : World) (call : scoringCall) (db : candidateCollection)
    (id : nat) (c : Candidate) :
  findById db id = Some c -> closingTarget call = Some id -> reachesSave call = true ->
  exists c1, findById (snd (run w call db)) id = Some c1 /\ closed c1 = true.
Proof.
  intros Hc Ht Hr. destruct (closed c) eqn:Ho.
  { exists c. split; [by apply closed_frame | done]. }
  destruct call as [req|user k|user req|user reason]; simpl in *; try done;
    injection Ht as <-.
  - destruct (scoreString req) as [s|] eqn:Hs; [|done].
    apply bool_decide_eq_true in Hr. destruct Hr as [part Hp].
    eexists. rewrite (submit_open _ _ _ _ _ _ _ Hc Ho Hs Hp). split.
    + by apply findById_save_read.
    + unfold closed. simpl. apply truthy_with_sep with "/"%char. by eexists.
  - eexists. rewrite (fail_open _ _ _ _ _ Hc Ho). split.
    + by apply findById_save_read.
    + done.
Qed.

(** C1, as stated, fails when the first of the two calls never reaches the
    save: after a [submit] whose [scoreString] has no "/", answered 500, the
    second [submit] is accepted and writes the verdict. *)
Lemma second_call_accepted_after_malformed_first :
  let call1 := CallSubmit sampleToken
                 {| percentage := Some num_0_8; scoreString := Some "16 of 20" |} in
  let call2 := CallSubmit sampleToken
                 {| percentage := Some num_0_8; scoreString := Some "16 / 20" |} in
  let db1 := snd (run sampleWorld call1 [sampleCandidate]) in
  let db2 := snd (run sampleWorld call2 db1) in
  status (fst (run sampleWorld call1 [sampleCandidate])) = 500
  /\ status (fst (run sampleWorld call2 db1)) = 200
  /\ (verdictFields <$> findById db1 1) = Some (None, None, "Mail Sent", None)
  /\ (verdictFields <$> findById db2 1)
     = Some (Some "16 / 20", Some "80.0%", "Pass", None).
Proof. vm_compute. done. Qed.

(** C1 (amended): a closed record is left as it is by every scoring
    operation, and a closing call for it is answered 403; of two successive
    closing calls for one candidate, when the record was closed already or
    the first call reaches the save (a [fail], or a [submit] whose
    [scoreString] has a "/"), the second is answered 403 and the record is
    the one the first call left. *)
Theorem closed_attempt_is_final (w : World) (db : candidateCollection)
    (id : nat) (c : Candidate) :
  findById db id = Some c ->
  (closed c = true ->
   forall call,
     findById (snd (run w call db)) id = Some c
     /\ (closingTarget call = Some id ->
         run w call db = (respond 403 (Message false "Test already submitted."), db)))
  /\ (forall call1 call2,
        closingTarget call1 = Some id -> closingTarget call2 = Some id ->
        closed c = true \/ reachesSave call1 = true ->
        let db1 := snd (run w call1 db) in
        run w call2 db1 = (respond 403 (Message false "Test already submitted."), db1)
        /\ exists c1, findById db1 id = Some c1 /\ closed c1 = true
                      /\ findById (snd (run w call2 db1)) id = Some c1).
Proof.
  intros Hc. split.
  - intros Hcl call. split; [by apply closed_frame|]. intros Ht. by apply closing_refused with id c.
  - intros call1 call2 Ht1 Ht2 Hor db1.
    assert (exists c1, findById db1 id = Some c1 /\ closed c1 = true) as (c1 & Hc1 & Hcl1).
    { destruct Hor as [Hcl|Hr].
      - exists c. split; [by apply closed_frame | done].
      - by apply closing_closes with c. }
    pose proof (closing_refused w call2 db1 id c1 Hc1 Hcl1 Ht2) as H2.
    split; [done|]. exists c1. by rewrite H2.
Qed.

Lemma closed_attempt_is_final_witness :
  findById [sampleCandidate] 1 = Some sampleCandidate
  /\ let db1 := snd (run sampleWorld (CallFail sampleToken "Tab switched") [sampleCandidate]) in
     run sampleWorld (CallSubmit sampleToken
                        {| percentage := Some num_0_8; scoreString := Some "16 / 20" |}) db1
     = (respond 403 (Message false "Test already submitted."), db1).
Proof.
  split; [reflexivity|].
  refine (proj1 (proj2 (closed_attempt_is_final sampleWorld [sampleCandidate] 1
                          sampleCandidate _)
                   (CallFail sampleToken "Tab switched")
                   (CallSubmit sampleToken
                      {| percentage := Some num_0_8; scoreString := Some "16 / 20" |})
                   _ _ _)); try reflexivity.
  right. reflexivity.
Defined.

(** ** The shuffle rearranges *)

Section ShuffleBasics.
Context {A : Type}.
Implicit Types (a : list A) (i j k : nat).

Lemma swap_length a i j : length (swap a i j) = length a.
Proof.
  unfold swap. destruct (a !! i), (a !! j); try done.
  by rewrite !length_insert.
Qed.

Lemma insert_head_Permutation a j (x y : A) :
  a !! j = Some y -> y :: <[j := x]> a ≡ₚ x :: a.
Proof.
  revert j. induction a as [|z a IH]; intros [|j] H; simplify_eq/=.
  - apply perm_swap.
  - rewrite (perm_swap z y), (IH j H). apply perm_swap.
Qed.

Lemma insert_insert_Permutation a i j (x y : A) :
  a !! i = Some x -> a !! j = Some y -> <[j := x]> (<[i := y]> a) ≡ₚ a.
Proof.
  revert i j. induction a as [|z a IH]; intros [|i] [|j] Hi Hj; simplify_eq/=.
  - done.
  - by apply insert_head_Permutation.
  - symmetry. rewrite <- (insert_head_Permutation a i y x Hi). done.
  - f_equiv. by apply IH.
Qed.

Lemma swap_Permutation a i j : swap a i j ≡ₚ a.
Proof.
  unfold swap. destruct (a !! i) eqn:Hi, (a !! j) eqn:Hj; try done.
  by apply insert_insert_Permutation.
Qed.

Variable rand : randomSource.

Lemma shuffleFrom_length i a k : length (fst (shuffleFrom rand i a k)) = length a.
Proof.
  revert a k. induction i as [|i IH]; intros a k; simpl; [done|].
  by rewrite IH, swap_length.
Qed.

Lemma shuffleFrom_Permutation i a k : fst (shuffleFrom rand i a k) ≡ₚ a.
Proof.
  revert a k. induction i as [|i IH]; intros a k; simpl; [done|].
  by rewrite IH, swap_Permutation.
Qed.

(** One draw per round. *)
Lemma shuffleFrom_draws i a k : snd (shuffleFrom rand i a k) = k + i.
Proof.
  revert a k. induction i as [|i IH]; intros a k; simpl; [lia|].
  rewrite IH. lia.
Qed.

Lemma shuffleArray_length a k : length (fst (shuffleArray rand a k)) = length a.
Proof. apply shuffleFrom_length. Qed.

Lemma shuffleArray_Permutation a k : fst (shuffleArray rand a k) ≡ₚ a.
Proof. apply shuffleFrom_Permutation. Qed.

Lemma shuffleArray_nil k : shuffleArray rand (@nil A) k = ([], k).
Proof. done. Qed.
End ShuffleBasics.

(** ** Test-taker login *)



(** ** Exam setup on an empty bank and on a bank with an empty tier *)

Section AssemblerBasics.
Variable rand : randomSource.

Lemma assemble_unfold (all : list QuestionBankItem) (k : nat) :
  let E := shuffleArray rand (List.filter (hasType "easy") all) k in
  let M := shuffleArray rand (List.filter (hasType "moderate") all) (snd E) in
  let H := shuffleArray rand (List.filter (hasType "hard") all) (snd M) in
  assemble rand all k
  = triplets rand
      (Nat.min (length (fst E)) (Nat.min (length (fst M)) (length (fst H))))
      0 (fst E) (fst M) (fst H) [] (snd H).
Proof.
  intros E M H. unfold assemble. fold E.
  destruct E as [e k1] eqn:HE. simpl in M. fold M.
  destruct M as [m k2] eqn:HM. simpl in H. fold H.
  by destruct H as [h k3] eqn:HH.
Qed.

Lemma assemble_empty_tier (all : list QuestionBankItem) (k : nat) :
  minCount all = 0 -> fst (assemble rand all k) = [].
Proof.
  intros H. rewrite assemble_unfold. simpl. rewrite !shuffleArray_length.
  unfold minCount in H. by rewrite H.
Qed.
End AssemblerBasics.

(** C4: exam setup for a bank without any question never answers with an
    exam, and answers 404 for an open candidate record; for a bank that has
    questions but none in one of the three tiers it answers 200 with an exam
    of no questions. *)
Theorem setup_empty_bank_and_empty_tier (rand : randomSource)
    (candidates : candidateCollection) (questions : questionCollection)
    (user : TokenClaims) (k : nat) :
  let bank := findByBank questions (tk_questionBankName user) in
  let res := fst (testSetup rand candidates questions user k) in
  (bank = [] ->
   status res <> 200
   /\ (forall level name qs, body res <> Exam level name qs)
   /\ (forall c, findById candidates (tk_id user) = Some c -> closed c = false ->
         res = respond 404 (Message false
                 ("Question bank '" ++ tk_questionBankName user
                  ++ "' not found or is empty."))))
  /\ (bank <> [] -> minCount bank = 0 ->
      forall c, findById candidates (tk_id user) = Some c -> closed c = false ->
        res = respond 200 (Exam (tk_questionBankName user) (tk_username user) [])
        /\ length (List.map clean (fst (assemble rand bank k))) = 0).
Proof.
  intros bank res. subst res. unfold testSetup. fold bank. split.
  - intros Hb. rewrite Hb. simpl.
    destruct (findById candidates (tk_id user)) as [c|]; simpl.
    + destruct (JS.truthy (result c)) eqn:Ho; simpl; split_and!; try done.
      intros c' [= <-]. unfold closed. by rewrite Ho.
    + split_and!; done.
  - intros Hb Hm c Hc Ho. unfold closed in Ho. rewrite Hc, Ho.
    destruct bank as [|q bank'] eqn:Hbank; [done|]. simpl length. simpl Nat.eqb.
    pose proof (assemble_empty_tier rand (q :: bank') k Hm) as Ha.
    destruct (assemble rand (q :: bank') k) as [out k']. simpl in *. by subst out.
Qed.

Lemma setup_empty_bank_and_empty_tier_witness :
  let questions := [sampleQuestion "Go Backend" "GB001" "easy";
                    sampleQuestion "Go Backend" "GB002" "hard"] in
  findByBank questions (tk_questionBankName sampleToken) <> []
  /\ fst (testSetup sampleRand [sampleCandidate] questions sampleToken 0)
     = respond 200 (Exam "Go Backend" "ravi@example.org" []).
Proof.
  intros questions. split; [discriminate|].
  refine (proj1 (proj2 (setup_empty_bank_and_empty_tier sampleRand [sampleCandidate]
            questions sampleToken 0) _ _ sampleCandidate _ _));
    try reflexivity; discriminate.
Defined.

(** ** Update and delete by identifier *)

Section ByFilter.
Context {D : Type}.
Implicit Types (db : list D) (matches keep : D -> bool).

Lemma filter_findOneAndUpdate matches update keep db :
  (forall d, In d db -> matches d = true -> keep d = false /\ keep (update d) = false) ->
  List.filter keep (snd (findOneAndUpdate matches update db)) = List.filter keep db.
Proof.
  induction db as [|d db IH]; intros H; simpl; [done|].
  destruct (matches d) eqn:E; simpl.
  - destruct (H d (or_introl eq_refl) E) as [-> ->]. done.
  - destruct (findOneAndUpdate matches update db); simpl in *.
    rewrite IH; [done|]. intros d' Hd'. apply H. by right.
Qed.

Lemma filter_deleteOne matches keep db :
  (forall d, In d db -> matches d = true -> keep d = false) ->
  List.filter keep (snd (deleteOne matches db)) = List.filter keep db.
Proof.
  induction db as [|d db IH]; intros H; simpl; [done|].
  destruct (matches d) eqn:E; simpl.
  - by rewrite (H d (or_introl eq_refl) E).
  - destruct (deleteOne matches db); simpl in *.
    rewrite IH; [done|]. intros d' Hd'. apply H. by right.
Qed.

Lemma lookup_findOneAndUpdate matches update db i d :
  db !! i = Some d -> matches d = false ->
  snd (findOneAndUpdate matches update db) !! i = Some d.
Proof.
  revert i. induction db as [|d' db IH]; intros [|i] Hi Hm; simpl in *; try done.
  - injection Hi as ->. rewrite Hm.
    by destruct (findOneAndUpdate matches update db).
  - destruct (matches d'); [done|].
    destruct (findOneAndUpdate matches update db); simpl in *. by apply IH.
Qed.
End ByFilter.

Lemma updateQuestion_db db params qData :
  snd (updateQuestion db params qData)
  = snd (findOneAndUpdate (hasId (p_questionId params)) (applyUpdate qData) db).
Proof.
  unfold updateQuestion. destruct (findOneAndUpdate _ _ db) as [[u|] db']; done.
Qed.

Lemma deleteQuestion_db db params :
  snd (deleteQuestion db params) = snd (deleteOne (hasId (p_questionId params)) db).
Proof.
  unfold deleteQuestion. destruct (deleteOne _ db) as [n db']. by destruct (n =? 0).
Qed.

(** C6, as stated, fails: a request that names the bank "Python Scripting"
    with the identifier of a question of the bank "Go Backend" updates, and
    deletes, that question of the other bank. *)
Lemma request_for_one_bank_changes_another :
  let q := sampleQuestion "Go Backend" "GB001" "easy" in
  In q sampleBanks
  /\ questionBankName q <> p_questionBankName crossParams
  /\ updateQuestion sampleBanks crossParams sampleData
     = (respond 200 (Message true "Question updated successfully!"),
        [applyUpdate sampleData q; sampleQuestion "Python Scripting" "PS001" "hard"])
  /\ applyUpdate sampleData q <> q
  /\ deleteQuestion sampleBanks crossParams
     = (respond 200 (Message true "Question deleted successfully!"),
        [sampleQuestion "Python Scripting" "PS001" "hard"]).
Proof. vm_compute. split_and!; try done. by left. Qed.

(** C6 (amended): update and delete select the question by its identifier
    alone.  The bank named in the request plays no part; the questions with
    another identifier stay as and where they are; and a bank none of whose
    questions has the identifier is left as it is. *)
Theorem update_delete_select_by_id (db : questionCollection) (params : QuestionParams)
    (qData : QuestionData) :
  let id := p_questionId params in
  (forall params', p_questionId params' = id ->
     updateQuestion db params' qData = updateQuestion db params qData
     /\ deleteQuestion db params' = deleteQuestion db params)
  /\ List.filter (otherId id) (snd (updateQuestion db params qData))
     = List.filter (otherId id) db
  /\ List.filter (otherId id) (snd (deleteQuestion db params))
     = List.filter (otherId id) db
  /\ (forall i q, db !! i = Some q -> questionId q <> id ->
        snd (updateQuestion db params qData) !! i = Some q)
  /\ (forall bank,
        (forall q, In q db -> questionId q = id -> questionBankName q <> bank) ->
        findByBank (snd (updateQuestion db params qData)) bank = findByBank db bank
        /\ findByBank (snd (deleteQuestion db params)) bank = findByBank db bank).
Proof.
  intros id. subst id. split_and!.
  - intros params' Hid. unfold updateQuestion, deleteQuestion. by rewrite Hid.
  - rewrite updateQuestion_db. apply filter_findOneAndUpdate.
    intros d _ Hd. unfold otherId, hasId in *. simpl. by rewrite Hd.
  - rewrite deleteQuestion_db. apply filter_deleteOne.
    intros d _ Hd. unfold otherId. by rewrite Hd.
  - intros i q Hi Hq. rewrite updateQuestion_db. apply lookup_findOneAndUpdate; [done|].
    by apply String.eqb_neq.
  - intros bank Hb.
    assert (forall d, In d db -> hasId (p_questionId params) d = true -> inBank bank d = false)
      as Hb'.
    { intros d Hd Hm. apply String.eqb_eq in Hm. apply String.eqb_neq. by apply Hb. }
    unfold findByBank. split.
    + rewrite updateQuestion_db. apply filter_findOneAndUpdate.
      intros d Hd Hm. split; [by apply Hb'|]. unfold inBank. simpl. by apply Hb'.
    + rewrite deleteQuestion_db. by apply filter_deleteOne.
Qed.

Lemma update_delete_select_by_id_witness :
  findByBank (snd (deleteQuestion sampleBanks crossParams)) "Python Scripting"
  = findByBank sampleBanks "Python Scripting".
Proof.
  refine (proj2 (proj2 (proj2 (proj2 (proj2
            (update_delete_select_by_id sampleBanks crossParams sampleData))))
            "Python Scripting" _)).
  intros q Hq Hid. simpl in Hq. destruct Hq as [<-|[<-|[]]]; [discriminate | discriminate Hid].
Defined.

(** ** The identifier of an added question *)






(** ** The verdict of a submission *)








(** An open record that onboarding and the scoring operations have produced
    has no [videoLink]. *)
Lemma In_findOneAndUpdate {D : Type} (matches : D -> bool) (d' : D) (db : list D) (d : D) :
  In d (snd (findOneAndUpdate matches (fun _ => d') db)) -> d = d' \/ In d db.
Proof.
  induction db as [|d0 db IH]; simpl; [tauto|].
  destruct (matches d0); simpl.
  - intros [<-|H]; tauto.
  - destruct (findOneAndUpdate matches (fun _ => d') db); simpl in *.
    intros [<-|H]; [tauto|]. destruct (IH H); tauto.
Qed.


Lemma findById_In db id c : findById db id = Some c -> In c db.
Proof. unfold findById. intros H. by apply List.find_some in H as [H _]. Qed.



(** The scenarios of the specification: 20 attempted with 0.8 correct is a
    "Pass" with score "80.0%"; 10 attempted with 0.9 correct is
    "Not Qualified". *)
Example submit_20_attempted_80_percent :
  verdictFields <$>
    findById (snd (submit sampleMail [sampleCandidate] sampleToken
                     {| percentage := Some num_0_8; scoreString := Some "16 / 20" |})) 1
  = Some (Some "16 / 20", Some "80.0%", "Pass", None).
Proof. vm_compute. done. Qed.

Example submit_10_attempted_90_percent :
  verdictFields <$>
    findById (snd (submit sampleMail [sampleCandidate] sampleToken
                     {| percentage := Some num_0_9; scoreString := Some "9 / 10" |})) 1
  = Some (Some "9 / 10", Some "90.0%", "Not Qualified", None).
Proof. vm_compute. done. Qed.

(** ** The assembled exam *)

Lemma filter_Permutation {A : Type} (f : A -> bool) (l l' : list A) :
  l ≡ₚ l' -> List.filter f l ≡ₚ List.filter f l'.
Proof.
  induction 1 as [|x l l' _ IH|x y l|l l' l'' _ IH1 _ IH2]; simpl.
  - done.
  - destruct (f x); by rewrite IH.
  - destruct (f x), (f y); try done. apply perm_swap.
  - by rewrite IH1.
Qed.

Lemma filter_all {A : Type} (f : A -> bool) (l : list A) :
  (forall x, In x l -> f x = true) -> List.filter f l = l.
Proof.
  induction l as [|x l IH]; intros H; simpl; [done|].
  rewrite (H x (or_introl eq_refl)). rewrite IH; [done|]. intros y Hy. apply H. by right.
Qed.

(** Blocks of three in a concatenation. *)
Lemma concat_block {A : Type} (ts : list (list A)) (t : nat) (tr : list A) :
  Forall (fun b => length b = 3) ts -> ts !! t = Some tr ->
  take 3 (drop (3 * t) (concat ts)) = tr.
Proof.
  revert t. induction ts as [|b ts IH]; intros [|t] Hall Ht; try done.
  - injection Ht as ->. apply Forall_cons in Hall as [Hb _].
    rewrite Nat.mul_0_r, drop_0. cbn [concat]. by rewrite take_app_length'.
  - apply Forall_cons in Hall as [Hb Hall]. cbn [concat].
    replace (3 * S t) with (length b + 3 * t) by lia.
    rewrite drop_app_add' by done. by apply IH.
Qed.

Lemma concat_blocks_length {A : Type} (ts : list (list A)) :
  Forall (fun b => length b = 3) ts -> length (concat ts) = 3 * length ts.
Proof.
  induction 1 as [|b ts Hb _ IH]; simpl; [done|]. rewrite length_app, IH, Hb. lia.
Qed.

Section AssemblerRounds.
Variable rand : randomSource.
Implicit Types (E M H acc : list QuestionBankItem).

Lemma triplets_round n i E M H acc k e m h :
  E !! i = Some e -> M !! i = Some m -> H !! i = Some h ->
  triplets rand (S n) i E M H acc k
  = triplets rand n (S i) E M H (acc ++ fst (shuffleArray rand [e; m; h] k))%list
      (snd (shuffleArray rand [e; m; h] k)).
Proof.
  intros He Hm Hh. cbn [triplets]. rewrite He, Hm, Hh.
  by destruct (shuffleArray rand [e; m; h] k).
Qed.

(** The rounds append, one after the other, a rearrangement of the [i]-th
    easy, moderate and hard question. *)
Lemma triplets_blocks n : forall i E M H acc k,
  i + n <= length E -> i + n <= length M -> i + n <= length H ->
  exists ts : list (list QuestionBankItem),
    length ts = n
    /\ fst (triplets rand n i E M H acc k) = (acc ++ concat ts)%list
    /\ forall t tr, ts !! t = Some tr ->
         exists e m h, E !! (i + t) = Some e /\ M !! (i + t) = Some m
                       /\ H !! (i + t) = Some h /\ tr ≡ₚ [e; m; h].
Proof.
  induction n as [|n IH]; intros i E M H acc k HE HM HH.
  - exists []. split_and!; [done | by rewrite app_nil_r | done].
  - destruct (lookup_lt_is_Some_2 E i) as [e He]; [lia|].
    destruct (lookup_lt_is_Some_2 M i) as [m Hm]; [lia|].
    destruct (lookup_lt_is_Some_2 H i) as [h Hh]; [lia|].
    rewrite (triplets_round n i E M H acc k e m h He Hm Hh).
    pose proof (shuffleArray_Permutation rand [e; m; h] k) as Hperm.
    destruct (shuffleArray rand [e; m; h] k) as [triplet k']. simpl fst in *. simpl snd.
    destruct (IH (S i) E M H (acc ++ triplet)%list k') as (ts & Hlen & Hout & Hts);
      [lia.. |].
    exists (triplet :: ts). split_and!.
    + simpl. by rewrite Hlen.
    + rewrite Hout. simpl. by rewrite <- app_assoc.
    + intros [|t] tr Ht; simplify_eq/=.
      * exists e, m, h. by rewrite Nat.add_0_r.
      * destruct (Hts t tr Ht) as (e' & m' & h' & ? & ? & ? & ?).
        exists e', m', h'. by rewrite <- Nat.add_succ_comm.
Qed.

(** Together the rounds use the first [n] questions of each shuffled tier. *)
Lemma triplets_Permutation n : forall i E M H acc k,
  i + n <= length E -> i + n <= length M -> i + n <= length H ->
  fst (triplets rand n i E M H acc k)
  ≡ₚ (acc ++ take n (drop i E) ++ take n (drop i M) ++ take n (drop i H))%list.
Proof.
  induction n as [|n IH]; intros i E M H acc k HE HM HH.
  - simpl. by rewrite !take_0, !app_nil_r.
  - destruct (lookup_lt_is_Some_2 E i) as [e He]; [lia|].
    destruct (lookup_lt_is_Some_2 M i) as [m Hm]; [lia|].
    destruct (lookup_lt_is_Some_2 H i) as [h Hh]; [lia|].
    rewrite (triplets_round n i E M H acc k e m h He Hm Hh).
    pose proof (shuffleArray_Permutation rand [e; m; h] k) as Hperm.
    destruct (shuffleArray rand [e; m; h] k) as [triplet k']. simpl fst in *. simpl snd.
    rewrite IH by lia.
    rewrite (drop_S E e i He), (drop_S M m i Hm), (drop_S H h i Hh). simpl.
    rewrite Hperm. solve_Permutation.
Qed.
End AssemblerRounds.

Lemma hasType_tiers (q : QuestionBankItem) (t t' : string) :
  hasType t q = true -> t <> t' -> hasType t' q = false.
Proof.
  unfold hasType. intros H Hne. apply String.eqb_eq in H. apply String.eqb_neq. congruence.
Qed.

Lemma tier_of_bucket (t : string) (all B : list QuestionBankItem) (i : nat)
    (q : QuestionBankItem) :
  B ≡ₚ List.filter (hasType t) all -> B !! i = Some q -> hasType t q = true.
Proof.
  intros HB Hq. apply list_elem_of_lookup_2, list_elem_of_In in Hq.
  apply (Permutation_in _ HB) in Hq. by apply List.filter_In in Hq as [_ Hq].
Qed.

(** A rearranged triplet of an easy, a moderate and a hard question has one
    question of each tier. *)
Lemma triplet_one_of_each (tr : list QuestionBankItem) (e m h : QuestionBankItem) (t : string) :
  tr ≡ₚ [e; m; h] ->
  hasType "easy" e = true -> hasType "moderate" m = true -> hasType "hard" h = true ->
  In t ["easy"; "moderate"; "hard"] ->
  length (List.filter (hasType t) tr) = 1.
Proof.
  intros Hp He Hm Hh Ht.
  rewrite (Permutation_length (filter_Permutation (hasType t) _ _ Hp)).
  simpl in Ht. destruct Ht as [<-|[<-|[<-|[]]]]; simpl.
  - by rewrite He, (hasType_tiers m "moderate" "easy"), (hasType_tiers h "hard" "easy").
  - by rewrite Hm, (hasType_tiers e "easy" "moderate"), (hasType_tiers h "hard" "moderate").
  - by rewrite Hh, (hasType_tiers e "easy" "hard"), (hasType_tiers m "moderate" "hard").
Qed.

Lemma NoDup_by_id (all : list QuestionBankItem) :
  NoDup (List.map questionId all) -> NoDup all.
Proof. apply NoDup_fmap_1. Qed.

(** A question past the first [n] of a shuffled tier is none of the first
    [n] of any tier. *)
Lemma surplus_absent (all B B1 B2 : list QuestionBankItem) (t t1 t2 : string)
    (n : nat) (q : QuestionBankItem) :
  NoDup all -> t <> t1 -> t <> t2 ->
  B ≡ₚ List.filter (hasType t) all ->
  B1 ≡ₚ List.filter (hasType t1) all ->
  B2 ≡ₚ List.filter (hasType t2) all ->
  In q (drop n B) ->
  ~ In q (take n B) /\ ~ In q (take n B1) /\ ~ In q (take n B2).
Proof.
  intros Hnd H1 H2 HB HB1 HB2 Hq.
  assert (NoDup B) as HndB.
  { rewrite HB. apply NoDup_ListNoDup, List.NoDup_filter. by apply NoDup_ListNoDup. }
  rewrite <- (take_drop n B) in HndB. apply NoDup_app in HndB as (_ & Hdisj & _).
  assert (hasType t q = true) as Hqt.
  { apply list_elem_of_In, list_elem_of_lookup in Hq as (i & Hi).
    rewrite lookup_drop in Hi. by apply (tier_of_bucket t all B (n + i)). }
  assert (forall t' B', t <> t' -> B' ≡ₚ List.filter (hasType t') all -> ~ In q (take n B'))
    as Hother.
  { intros t' B' Hne HB' Hin. apply list_elem_of_In, elem_of_take in Hin as (i & Hi & _).
    pose proof (tier_of_bucket t' all B' i q HB' Hi) as Hq'.
    by rewrite (hasType_tiers q t t' Hqt Hne) in Hq'. }
  split_and!; [|by apply Hother with t1 | by apply Hother with t2].
  intros Hin. apply list_elem_of_In in Hin, Hq. by apply (Hdisj q Hin).
Qed.

(** C2: for an open candidate record and a bank that is not empty, setup
    answers with the assembled exam; with [e], [m] and [h] the numbers of
    easy, moderate and hard questions of the bank, the exam has
    [3 * min e m h] questions; its questions at the positions [3i], [3i+1]
    and [3i+2] are one of each tier; and it is made of the first [min e m h]
    questions of each shuffled tier, so that, the identifiers being unique,
    no question beyond those is in it. *)
Theorem exam_is_balanced (rand : randomSource) (candidates : candidateCollection)
    (questions : questionCollection) (user : TokenClaims) (k : nat) (c : Candidate) :
  inUnitInterval rand ->
  findById candidates (tk_id user) = Some c -> closed c = false ->
  findByBank questions (tk_questionBankName user) <> [] ->
  let bank := findByBank questions (tk_questionBankName user) in
  let out := fst (assemble rand bank k) in
  let n := Nat.min (length (List.filter (hasType "easy") bank))
             (Nat.min (length (List.filter (hasType "moderate") bank))
                      (length (List.filter (hasType "hard") bank))) in
  fst (testSetup rand candidates questions user k)
  = respond 200 (Exam (tk_questionBankName user) (tk_username user) (List.map clean out))
  /\ length (List.map clean out) = 3 * n
  /\ (forall i t, i < n -> In t ["easy"; "moderate"; "hard"] ->
        length (List.filter (hasType t) (take 3 (drop (3 * i) out))) = 1)
  /\ exists E M H : list QuestionBankItem,
       E ≡ₚ List.filter (hasType "easy") bank
       /\ M ≡ₚ List.filter (hasType "moderate") bank
       /\ H ≡ₚ List.filter (hasType "hard") bank
       /\ out ≡ₚ (take n E ++ take n M ++ take n H)%list
       /\ (NoDup (List.map questionId bank) ->
           forall q, In q (drop n E ++ drop n M ++ drop n H)%list -> ~ In q out).
Proof.
  intros _ Hc Ho Hne bank out n.
  set (E := shuffleArray rand (List.filter (hasType "easy") bank) k).
  set (M := shuffleArray rand (List.filter (hasType "moderate") bank) (snd E)).
  set (H := shuffleArray rand (List.filter (hasType "hard") bank) (snd M)).
  assert (length (fst E) = length (List.filter (hasType "easy") bank)) as HlE
    by apply shuffleArray_length.
  assert (length (fst M) = length (List.filter (hasType "moderate") bank)) as HlM
    by apply shuffleArray_length.
  assert (length (fst H) = length (List.filter (hasType "hard") bank)) as HlH
    by apply shuffleArray_length.
  assert (fst E ≡ₚ List.filter (hasType "easy") bank) as HpE
    by apply shuffleArray_Permutation.
  assert (fst M ≡ₚ List.filter (hasType "moderate") bank) as HpM
    by apply shuffleArray_Permutation.
  assert (fst H ≡ₚ List.filter (hasType "hard") bank) as HpH
    by apply shuffleArray_Permutation.
  assert (assemble rand bank k = triplets rand n 0 (fst E) (fst M) (fst H) [] (snd H))
    as Hout.
  { rewrite assemble_unfold. fold E M H. by rewrite HlE, HlM, HlH. }
  destruct (triplets_blocks rand n 0 (fst E) (fst M) (fst H) [] (snd H))
    as (ts & Hlen & Hcat & Hts); [lia..|].
  assert (out = concat ts) as Hout' by (subst out; by rewrite Hout, Hcat).
  assert (Forall (fun b => length b = 3) ts) as Hthree.
  { apply Forall_lookup. intros t tr Ht.
    destruct (Hts t tr Ht) as (e & m & h & _ & _ & _ & Hp).
    by rewrite (Permutation_length Hp). }
  split_and!.
  - unfold testSetup. unfold closed in Ho. rewrite Hc, Ho. fold bank.
    destruct bank as [|q0 bank0] eqn:Hbank; [done|]. simpl length. simpl Nat.eqb.
    subst out. by destruct (assemble rand (q0 :: bank0) k).
  - rewrite length_map, Hout', concat_blocks_length, Hlen; done.
  - intros i t Hi Ht.
    destruct (lookup_lt_is_Some_2 ts i) as [tr Htr]; [lia|].
    rewrite Hout', (concat_block ts i tr Hthree Htr).
    destruct (Hts i tr Htr) as (e & m & h & He & Hm & Hh & Hp).
    apply (triplet_one_of_each tr e m h t Hp); [| | |done].
    + by apply (tier_of_bucket "easy" bank (fst E) (0 + i)).
    + by apply (tier_of_bucket "moderate" bank (fst M) (0 + i)).
    + by apply (tier_of_bucket "hard" bank (fst H) (0 + i)).
  - exists (fst E), (fst M), (fst H).
    assert (out ≡ₚ (take n (fst E) ++ take n (fst M) ++ take n (fst H))%list) as Hperm.
    { subst out. rewrite Hout.
      rewrite (triplets_Permutation rand n 0 (fst E) (fst M) (fst H) [] (snd H)) by lia.
      by rewrite !drop_0. }
    split_and!; try done.
    intros Hnd q Hq Hin. apply NoDup_by_id in Hnd.
    apply (Permutation_in _ Hperm) in Hin.
    apply in_app_or in Hq as [Hq|Hq]; [|apply in_app_or in Hq as [Hq|Hq]].
    + destruct (surplus_absent bank (fst E) (fst M) (fst H) "easy" "moderate" "hard"
                  n q Hnd) as (H1 & H2 & H3); try done.
      apply in_app_or in Hin as [|Hin]; [done|]. apply in_app_or in Hin as [|]; done.
    + destruct (surplus_absent bank (fst M) (fst E) (fst H) "moderate" "easy" "hard"
                  n q Hnd) as (H1 & H2 & H3); try done.
      apply in_app_or in Hin as [|Hin]; [done|]. apply in_app_or in Hin as [|]; done.
    + destruct (surplus_absent bank (fst H) (fst E) (fst M) "hard" "easy" "moderate"
                  n q Hnd) as (H1 & H2 & H3); try done.
      apply in_app_or in Hin as [|Hin]; [done|]. apply in_app_or in Hin as [|]; done.
Qed.

Lemma sampleRand_unit : inUnitInterval sampleRand.
Proof.
  intros k. unfold sampleRand, Qle, Qlt. simpl.
  pose proof (Nat.mod_upper_bound (k * 7) 10). lia.
Qed.

Lemma exam_is_balanced_witness :
  findByBank goBackend (tk_questionBankName sampleToken) <> []
  /\ length (List.map clean
               (fst (assemble sampleRand
                       (findByBank goBackend (tk_questionBankName sampleToken)) 0)))
     = 3 * 3.
Proof.
  split; [discriminate|].
  refine (proj1 (proj2 (exam_is_balanced sampleRand [sampleCandidate] goBackend
                          sampleToken 0 sampleCandidate sampleRand_unit _ _ _)));
    try reflexivity; discriminate.
Defined.

(** The scenario of the specification: 5 easy, 3 moderate and 4 hard questions
    give an exam of 9 questions, each triplet with one of each tier. *)
Example go_backend_exam :
  List.map (fun q => (questionId q, questionType q))
    (fst (assemble sampleRand (findByBank goBackend "Go Backend") 0))
  = [("GB003", "moderate"); ("GB012", "hard"); ("GB009", "easy");
     ("GB007", "moderate"); ("GB011", "easy"); ("GB006", "hard");
     ("GB008", "hard"); ("GB010", "moderate"); ("GB004", "easy")].
Proof. vm_compute. reflexivity. Qed.

(** ** The shuffle is uniform *)

(** *** One draw *)

(** [Math.floor(r * n)] is [j] exactly when [r] is in the [j]-th of the [n]
    intervals of width [1 / n] that divide the unit interval. *)
Lemma floorMul_interval (r : Q) (n j : nat) :
  0 < n -> (0 <= r)%Q ->
  floorMul r n = j
  <-> (inject_Z (Z.of_nat j) <= r * inject_Z (Z.of_nat n))%Q
      /\ (r * inject_Z (Z.of_nat n) < inject_Z (Z.of_nat j + 1))%Q.
Proof.
  intros Hn Hr. unfold floorMul. set (x := (r * inject_Z (Z.of_nat n))%Q).
  assert (0 <= x)%Q as Hx.
  { subst x. apply Qmult_le_0_compat; [done|]. rewrite <- (Zle_Qle 0). lia. }
  assert (0 <= Qfloor x)%Z as Hf.
  { rewrite <- (Qfloor_Z 0). by apply Qfloor_resp_le. }
  pose proof (Qfloor_le x) as H1. pose proof (Qlt_floor x) as H2.
  split.
  - intros <-. rewrite Z2Nat.id by done. by split.
  - intros [H3 H4].
    assert (Z.of_nat j <= Qfloor x)%Z as H5.
    { rewrite <- (Qfloor_Z (Z.of_nat j)). by apply Qfloor_resp_le. }
    assert (Qfloor x < Z.of_nat j + 1)%Z as H6.
    { rewrite Zlt_Qlt. by apply Qle_lt_trans with x. }
    lia.
Qed.

Lemma floorMul_lt (r : Q) (n : nat) :
  0 < n -> (0 <= r)%Q -> (r < 1)%Q -> floorMul r n < n.
Proof.
  intros Hn Hr Hr1.
  destruct (floorMul_interval r n (floorMul r n) Hn Hr) as [H _].
  destruct (H eq_refl) as [H1 _].
  assert (r * inject_Z (Z.of_nat n) < inject_Z (Z.of_nat n))%Q as H2.
  { rewrite <- (Qmult_1_l (inject_Z (Z.of_nat n))) at 2.
    apply Qmult_lt_compat_r; [|done]. rewrite <- (Zlt_Qlt 0). lia. }
  pose proof (Qle_lt_trans _ _ _ H1 H2) as H3. rewrite <- Zlt_Qlt in H3. lia.
Qed.

(** *** The sequences of draws *)

Lemma draws_length (i : nat) : length (draws i) = fact (S i).
Proof.
  induction i as [|i IH]; [done|].
  change (draws (S i))
    with (List.flat_map (fun j => List.map (cons j) (draws i)) (seq 0 (S i + 1))).
  assert (forall js : list nat,
            length (List.flat_map (fun j => List.map (cons j) (draws i)) js)
            = length js * fact (S i)) as H.
  { induction js as [|j js IHjs]; [done|].
    cbn [List.flat_map]. rewrite length_app, length_map, IHjs, IH. simpl. lia. }
  rewrite H, length_seq. change (fact (S (S i))) with (S (S i) * fact (S i)). lia.
Qed.

Lemma draws_cons (i j : nat) (js : list nat) :
  In (j :: js) (draws (S i)) <-> j <= S i /\ In js (draws i).
Proof.
  change (draws (S i))
    with (List.flat_map (fun j => List.map (cons j) (draws i)) (seq 0 (S i + 1))).
  rewrite in_flat_map. split.
  - intros (j' & Hj' & Hin). apply in_seq in Hj'. apply in_map_iff in Hin as (js' & [= <- <-] & Hjs).
    split; [lia | done].
  - intros [Hj Hjs]. exists j. split; [apply in_seq; lia|]. by apply in_map.
Qed.

Lemma draws_inv (i : nat) (js : list nat) :
  In js (draws (S i)) -> exists j js', js = j :: js' /\ j <= S i /\ In js' (draws i).
Proof.
  destruct js as [|j js'].
  - change (draws (S i))
      with (List.flat_map (fun j => List.map (cons j) (draws i)) (seq 0 (S i + 1))).
    rewrite in_flat_map. intros (j' & _ & Hin). by apply in_map_iff in Hin as (? & [=] & _).
  - intros H. apply draws_cons in H. by exists j, js'.
Qed.

Section Drawn.
Context {A : Type}.
Variable rand : randomSource.
Hypothesis rand_unit : inUnitInterval rand.

(** The indices the loop draws are one of the sequences of [draws], and the
    loop is the run on them. *)
Lemma drawnIndices_draws (i k : nat) : In (drawnIndices rand i k) (draws i).
Proof.
  revert k. induction i as [|i IH]; intros k; [by left|].
  cbn [drawnIndices]. apply draws_cons. split; [|done].
  destruct (rand_unit k) as [H0 H1].
  pose proof (floorMul_lt (rand k) (S i + 1) ltac:(lia) H0 H1). lia.
Qed.

Lemma shuffleFrom_steps (i : nat) (array : list A) (k : nat) :
  fst (shuffleFrom rand i array k) = shuffleSteps i (drawnIndices rand i k) array.
Proof.
  revert array k. induction i as [|i IH]; intros array k; [done|].
  cbn [shuffleFrom drawnIndices shuffleSteps]. by rewrite IH.
Qed.
End Drawn.

(** *** The rounds, from the last position down *)

Section Rounds.
Context {A : Type}.
Implicit Types (l r : list A) (x y : A) (i j : nat) (js : list nat).

Lemma place_length l x j : length (place l x j).1 = length l.
Proof. unfold place. destruct (l !! j); simpl; [by rewrite length_insert | done]. Qed.

Lemma place_Permutation l x j : ((place l x j).1 ++ [(place l x j).2])%list ≡ₚ (l ++ [x])%list.
Proof.
  unfold place. destruct (l !! j) as [y|] eqn:Hj; simpl; [|done].
  rewrite <- !Permutation_cons_append. by apply insert_head_Permutation.
Qed.

Lemma place_snd l x j : j <= length l -> (l ++ [x])%list !! j = Some (place l x j).2.
Proof.
  intros Hj. unfold place. destruct (l !! j) as [y|] eqn:Hy; simpl.
  - by apply lookup_app_l_Some.
  - apply lookup_ge_None in Hy. assert (j = length l) as -> by lia.
    by rewrite list_lookup_middle.
Qed.

Lemma swap_snoc l x j :
  j <= length l ->
  swap (l ++ [x])%list (length l) j = ((place l x j).1 ++ [(place l x j).2])%list.
Proof.
  intros Hj. unfold swap, place.
  rewrite (list_lookup_middle l [] x (length l) eq_refl).
  destruct (l !! j) as [y|] eqn:Hy.
  - rewrite (lookup_app_l_Some _ _ _ _ Hy). simpl.
    apply lookup_lt_Some in Hy as Hlt.
    rewrite (insert_app_r_alt l [x] (length l)) by lia.
    rewrite Nat.sub_diag. simpl. by rewrite insert_app_l.
  - apply lookup_ge_None in Hy. assert (j = length l) as -> by lia.
    rewrite (list_lookup_middle l [] x (length l) eq_refl). simpl.
    rewrite !insert_app_r_alt by lia.
    by rewrite Nat.sub_diag.
Qed.

Lemma swap_frame l r i j :
  i < length l -> j < length l -> swap (l ++ r)%list i j = (swap l i j ++ r)%list.
Proof.
  intros Hi Hj. unfold swap. rewrite !lookup_app_l by done.
  destruct (l !! i), (l !! j); try done.
  rewrite !insert_app_l; [done | by rewrite length_insert | done].
Qed.

(** The rounds below [length l] leave what follows [l] alone. *)
Lemma shuffleSteps_frame i : forall js l r,
  i < length l -> In js (draws i) ->
  shuffleSteps i js (l ++ r)%list = (shuffleSteps i js l ++ r)%list.
Proof.
  induction i as [|i IH]; intros js l r Hi Hjs; [done|].
  apply draws_inv in Hjs as (j & js' & -> & Hj & Hjs').
  cbn [shuffleSteps]. rewrite swap_frame by lia.
  apply IH; [|done]. rewrite swap_length. lia.
Qed.

Lemma shuffleSteps_Permutation i : forall js l, shuffleSteps i js l ≡ₚ l.
Proof.
  induction i as [|i IH]; intros [|j js] l; try done.
  cbn [shuffleSteps]. by rewrite IH, swap_Permutation.
Qed.

Lemma outcomes_Permutation l p : In p (outcomes l) -> l ≡ₚ p.
Proof.
  unfold outcomes. intros H. apply in_map_iff in H as (js & <- & _).
  symmetry. apply shuffleSteps_Permutation.
Qed.

Lemma outcomes_length l : length (outcomes l) = fact (length l).
Proof.
  unfold outcomes. rewrite length_map, draws_length.
  destruct l as [|x l]; [done|]. simpl length.
  by replace (S (length l) - 1) with (length l) by lia.
Qed.

Lemma map_flat_map {B C D : Type} (f : C -> D) (g : B -> list C) (bs : list B) :
  List.map f (List.flat_map g bs) = List.flat_map (fun b => List.map f (g b)) bs.
Proof.
  induction bs as [|b bs IH]; [done|]. cbn [List.flat_map]. by rewrite map_app, IH.
Qed.

Lemma flat_map_ext_in {B C : Type} (f g : B -> list C) (bs : list B) :
  (forall b, In b bs -> f b = g b) -> List.flat_map f bs = List.flat_map g bs.
Proof.
  induction bs as [|b bs IH]; intros H; [done|]. cbn [List.flat_map].
  rewrite (H b (or_introl eq_refl)), IH; [done|]. intros b' Hb'. apply H. by right.
Qed.

(** The results for [l ++ [x]]: for each index [j] of the first round, the
    results for what that round leaves in front, each followed by the
    element the round puts last. *)
Lemma outcomes_snoc l x :
  outcomes (l ++ [x])%list
  = List.flat_map
      (fun j => List.map (fun q => (q ++ [(place l x j).2])%list)
                         (outcomes (place l x j).1))
      (seq 0 (S (length l))).
Proof.
  unfold outcomes at 1. rewrite length_app. simpl length.
  replace (length l + 1 - 1) with (length l) by lia.
  destruct (length l) as [|i] eqn:Hlen.
  - destruct l; [|done]. reflexivity.
  - change (draws (S i))
      with (List.flat_map (fun j => List.map (cons j) (draws i)) (seq 0 (S i + 1))).
    rewrite map_flat_map. replace (S i + 1) with (S (S i)) by lia.
    apply flat_map_ext_in. intros j Hj. apply in_seq in Hj.
    rewrite map_map. unfold outcomes. rewrite map_map, place_length, Hlen.
    replace (S i - 1) with i by lia.
    apply map_ext_in. intros js Hjs. cbn [shuffleSteps].
    rewrite <- Hlen, swap_snoc by lia.
    apply shuffleSteps_frame; [|done]. rewrite place_length. lia.
Qed.
End Rounds.

(** *** Counting the results *)

Section Counting.
Context {A : Type} `{EqDecision A}.
Implicit Types (l p : list A) (x y : A).

Lemma countOf_cons x y l :
  countOf x (y :: l) = (if decide (y = x) then 1 else 0) + countOf x l.
Proof. unfold countOf. simpl. rewrite bool_decide_decide. by destruct (decide (y = x)). Qed.

Lemma countOf_app x l l' : countOf x (l ++ l')%list = countOf x l + countOf x l'.
Proof. unfold countOf. by rewrite List.filter_app, length_app. Qed.

Lemma countOf_Permutation x l l' : l ≡ₚ l' -> countOf x l = countOf x l'.
Proof. intros Hp. unfold countOf. by rewrite (filter_Permutation _ _ _ Hp). Qed.

Lemma countOf_absent x l : ~ In x l -> countOf x l = 0.
Proof.
  induction l as [|y l IH]; [done|]. intros Hn. rewrite countOf_cons, IH.
  - destruct (decide (y = x)) as [->|]; [|done]. destruct Hn. by left.
  - intros Hin. apply Hn. by right.
Qed.

Lemma repeats_Permutation l l' : l ≡ₚ l' -> repeats l = repeats l'.
Proof.
  induction 1 as [|x l l' Hp IH|x y l|l l' l'' _ IH1 _ IH2].
  - done.
  - cbn [repeats]. by rewrite IH, (countOf_Permutation x l l' Hp).
  - cbn [repeats]. rewrite !countOf_cons.
    destruct (decide (x = y)) as [->|Hne].
    + by rewrite decide_True.
    + rewrite decide_False by congruence. lia.
  - by rewrite IH1.
Qed.

Lemma repeats_snoc l y : repeats (l ++ [y])%list = countOf y (l ++ [y])%list * repeats l.
Proof.
  assert ((l ++ [y])%list ≡ₚ y :: l) as Hp by (symmetry; apply Permutation_cons_append).
  rewrite (repeats_Permutation _ _ Hp), (countOf_Permutation y _ _ Hp).
  cbn [repeats]. rewrite countOf_cons. by rewrite decide_True.
Qed.

Lemma repeats_NoDup l : NoDup l -> repeats l = 1.
Proof.
  induction 1 as [|x l Hx _ IH]; [done|]. cbn [repeats].
  rewrite IH, countOf_absent; [done|]. by rewrite <- list_elem_of_In.
Qed.

Lemma list_sum_cons (n : nat) (ns : list nat) : list_sum (n :: ns) = n + list_sum ns.
Proof. done. Qed.

Lemma occurrences_app p (ps qs : list (list A)) :
  occurrences p (ps ++ qs)%list = occurrences p ps + occurrences p qs.
Proof. unfold occurrences. by rewrite List.filter_app, length_app. Qed.

Lemma occurrences_flat_map {B : Type} p (f : B -> list (list A)) (bs : list B) :
  occurrences p (List.flat_map f bs) = list_sum (List.map (fun b => occurrences p (f b)) bs).
Proof.
  induction bs as [|b bs IH]; [done|]. cbn [List.flat_map List.map].
  by rewrite list_sum_cons, occurrences_app, IH.
Qed.

(** Among results that all end with [z], those equal to [p ++ [y]]. *)
Lemma occurrences_snoc p y z (qs : list (list A)) :
  occurrences (p ++ [y])%list (List.map (fun q => (q ++ [z])%list) qs)
  = if decide (z = y) then occurrences p qs else 0.
Proof.
  unfold occurrences. induction qs as [|q qs IH]; simpl.
  - by destruct (decide (z = y)).
  - rewrite !bool_decide_decide.
    destruct (decide (z = y)) as [->|Hne].
    + destruct (decide (q ++ [y] = p ++ [y])%list) as [Heq|Hneq].
      * apply app_inv_tail in Heq as ->. rewrite decide_True by done. simpl. by rewrite IH.
      * rewrite decide_False by (by intros ->). done.
    + rewrite decide_False; [done|]. intros Heq. by apply app_inj_tail in Heq as [_ ?].
Qed.

(** The positions of [a] that hold [y], counted along the positions. *)
Lemma sum_positions (a : list A) y (c : nat) :
  list_sum (List.map (fun j => if decide (a !! j = Some y) then c else 0)
                     (seq 0 (length a)))
  = countOf y a * c.
Proof.
  induction a as [|x a IH]; [done|].
  simpl length. rewrite <- cons_seq, <- fmap_S_seq. cbn [List.map].
  change (S <$> seq 0 (length a)) with (List.map S (seq 0 (length a))).
  rewrite map_map.
  rewrite (map_ext _ (fun j => if decide (a !! j = Some y) then c else 0)) by done.
  rewrite list_sum_cons, IH, countOf_cons.
  change ((x :: a) !! 0) with (Some x).
  destruct (decide (x = y)) as [->|Hne].
  - rewrite decide_True by done. lia.
  - rewrite decide_False by congruence. lia.
Qed.

(** Every rearrangement [p] of [a] is the result of [repeats a] sequences of
    draws. *)
Lemma occurrences_outcomes (n : nat) : forall (a p : list A),
  length a = n -> a ≡ₚ p -> occurrences p (outcomes a) = repeats a.
Proof.
  induction n as [|n IH]; intros a p Hlen Hp.
  - destruct a; [|done]. apply Permutation_nil in Hp as ->. reflexivity.
  - destruct a as [|x l _] using rev_ind; [done|].
    destruct p as [|y p0 _] using rev_ind.
    { apply Permutation_length in Hp. rewrite length_app in Hp. simpl in Hp. lia. }
    rewrite length_app in Hlen. simpl in Hlen. assert (length l = n) as Hl by lia.
    rewrite outcomes_snoc, occurrences_flat_map.
    rewrite (map_ext_in _
               (fun j => if decide ((l ++ [x])%list !! j = Some y) then repeats p0 else 0)).
    + replace (S (length l)) with (length (l ++ [x])%list)
        by (rewrite length_app; simpl; lia).
      rewrite sum_positions.
      rewrite (repeats_Permutation _ _ Hp), repeats_snoc.
      by rewrite (countOf_Permutation y _ _ Hp).
    + intros j Hj. apply in_seq in Hj. rewrite occurrences_snoc.
      rewrite (place_snd l x j) by lia.
      destruct (decide ((place l x j).2 = y)) as [Hy|Hy].
      * rewrite decide_True by (by rewrite Hy).
        assert ((place l x j).1 ≡ₚ p0) as Hp0.
        { apply (Permutation_app_inv_r [y]). rewrite <- Hp, <- Hy. apply place_Permutation. }
        rewrite (IH _ p0); [by apply repeats_Permutation | by rewrite place_length | done].
      * rewrite decide_False; [done|]. by intros [=].
Qed.
End Counting.

Lemma drawnIndices_box (rand : randomSource) (i : nat) : forall k js,
  inUnitInterval rand -> drawnIndices rand i k = js <-> drawsBox rand i k js.
Proof.
  induction i as [|i IH]; intros k js Hu.
  - destruct js; simpl; [done|]. split; [done | tauto].
  - destruct js as [|j js]; [simpl; split; [done | tauto]|].
    cbn [drawnIndices drawsBox]. destruct (Hu k) as [H0 _].
    pose proof (floorMul_interval (rand k) (S i + 1) j ltac:(lia) H0) as Hj.
    pose proof (IH (S k) js Hu) as Hjs. split.
    + intros [= H1 H2]. split; [by apply Hj | by apply Hjs].
    + intros [H1 H2]. f_equal; [by apply Hj | by apply Hjs].
Qed.

(** C7: [shuffleArray] is the run of its loop on the indices it draws, one
    of the sequences of [draws]; a sequence is drawn exactly for the values of
    [Math.random()] in a box whose sides do not depend on the sequence, so
    with uniform values every sequence is as likely as any other; the
    [length array]! sequences give rearrangements of the array only, and
    every rearrangement comes from the same number of them, [repeats array],
    which is 1 for an array without repetition: every permutation has the same
    probability.  For three elements the results are the six orderings, once
    each. *)
Theorem shuffle_is_uniform {A : Type} `{EqDecision A} (array : list A) :
  let top := length array - 1 in
  (forall rand k, inUnitInterval rand ->
     In (drawnIndices rand top k) (draws top)
     /\ fst (shuffleArray rand array k) = shuffleSteps top (drawnIndices rand top k) array
     /\ forall js, drawnIndices rand top k = js <-> drawsBox rand top k js)
  /\ length (outcomes array) = fact (length array)
  /\ (forall p, In p (outcomes array) -> array ≡ₚ p)
  /\ (forall p, array ≡ₚ p -> occurrences p (outcomes array) = repeats array)
  /\ (NoDup array -> forall p, array ≡ₚ p -> occurrences p (outcomes array) = 1)
  /\ (forall x y z, array = [x; y; z] ->
        outcomes array
        = [[y; z; x]; [z; y; x]; [z; x; y]; [x; z; y]; [y; x; z]; [x; y; z]]).
Proof.
  intros top. split_and!.
  - intros rand k Hu. split_and!.
    + by apply drawnIndices_draws.
    + apply shuffleFrom_steps.
    + intros js. by apply drawnIndices_box.
  - apply outcomes_length.
  - apply outcomes_Permutation.
  - intros p Hp. by apply occurrences_outcomes with (length array).
  - intros Hnd p Hp. rewrite (occurrences_outcomes (length array) array p eq_refl Hp).
    by apply repeats_NoDup.
  - by intros x y z ->.
Qed.

Lemma shuffle_is_uniform_witness :
  NoDup [1; 2; 3; 4] /\ occurrences [3; 1; 4; 2] (outcomes [1; 2; 3; 4]) = 1.
Proof.
  assert (NoDup [1; 2; 3; 4]) as Hnd.
  { apply NoDup_ListNoDup. repeat constructor; simpl; lia. }
  split; [exact Hnd|].
  refine (proj1 (proj2 (proj2 (proj2 (proj2 (shuffle_is_uniform [1; 2; 3; 4])))))
            Hnd [3; 1; 4; 2] _).
  apply (Permutation_trans (l' := [3; 1; 2; 4])).
  - apply (Permutation_trans (l' := [1; 3; 2; 4])).
    + apply perm_skip, perm_swap.
    + apply perm_swap.
  - do 2 apply perm_skip. apply perm_swap.
Defined.

(** A list with a repeated element: each of its three arrangements is the
    result of two of the six sequences of draws. *)
Example shuffle_with_repetition :
  List.map (fun p => occurrences p (outcomes [1; 1; 2])) [[1; 1; 2]; [1; 2; 1]; [2; 1; 1]]
  = [2; 2; 2].
Proof. vm_compute. reflexivity. Qed.

(* ===================================================================== *)
(** * Further properties of the question bank *)
(* ===================================================================== *)

Section BankCollection.
Context {D K : Type} (key : D -> K).
Implicit Types (db : list D) (matches : D -> bool).

Lemma findOneAndUpdate_keys matches update db :
  (forall d, key (update d) = key d) ->
  List.map key (snd (findOneAndUpdate matches update db)) = List.map key db.
Proof.
  intros H. induction db as [|d db IH]; simpl; [done|].
  destruct (matches d); simpl; [by rewrite H|].
  destruct (findOneAndUpdate matches update db); simpl in *. by rewrite IH.
Qed.

Lemma deleteOne_none matches db :
  List.existsb matches db = false -> deleteOne matches db = (0, db).
Proof.
  induction db as [|d db IH]; simpl; [done|].
  destruct (matches d); simpl; [done|]. intros H. by rewrite (IH H).
Qed.

Lemma deleteOne_some matches db :
  List.existsb matches db = true ->
  exists l1 d l2, db = (l1 ++ d :: l2)%list /\ matches d = true
                  /\ List.existsb matches l1 = false
                  /\ deleteOne matches db = (1, (l1 ++ l2)%list).
Proof.
  induction db as [|d db IH]; simpl; [done|].
  destruct (matches d) eqn:E; simpl.
  - intros _. by exists [], d, db.
  - intros H. destruct (IH H) as (l1 & d' & l2 & -> & Hd' & Hl1 & Heq).
    exists (d :: l1), d', l2. simpl. by rewrite E, Heq.
Qed.

Lemma findOneAndUpdate_absent matches update db :
  List.existsb matches db = false -> findOneAndUpdate matches update db = (None, db).
Proof.
  induction db as [|d db IH]; simpl; [done|].
  destruct (matches d); simpl; [done|]. intros H. by rewrite (IH H).
Qed.

Lemma findOneAndUpdate_present matches update db :
  List.existsb matches db = true -> is_Some (fst (findOneAndUpdate matches update db)).
Proof.
  induction db as [|d db IH]; simpl; [done|].
  destruct (matches d); simpl; [by eexists|]. intros H. specialize (IH H).
  by destruct (findOneAndUpdate matches update db).
Qed.

(** Updating again with the same update changes nothing more, when the
    update keeps what the filter looks at and is idempotent. *)
Lemma findOneAndUpdate_twice matches update db :
  (forall d, matches (update d) = matches d) ->
  (forall d, update (update d) = update d) ->
  snd (findOneAndUpdate matches update (snd (findOneAndUpdate matches update db)))
  = snd (findOneAndUpdate matches update db).
Proof.
  intros Hm Hu. induction db as [|d db IH]; simpl; [done|].
  destruct (matches d) eqn:E; simpl.
  - by rewrite Hm, E, Hu.
  - destruct (findOneAndUpdate matches update db) as [r db'] eqn:Hf. simpl in *.
    rewrite E. destruct (findOneAndUpdate matches update db'). simpl in *. by rewrite IH.
Qed.
End BankCollection.

Lemma existsb_hasId db id :
  List.existsb (hasId id) db = true <-> In id (List.map questionId db).
Proof.
  rewrite List.existsb_exists, in_map_iff. split.
  - intros (q & Hq & Hid). exists q. split; [by apply String.eqb_eq|done].
  - intros (q & Hid & Hq). exists q. split; [done|by apply String.eqb_eq].
Qed.

Lemma existsb_hasId_false db id :
  List.existsb (hasId id) db = false <-> ~ In id (List.map questionId db).
Proof. rewrite <- existsb_hasId. by destruct (List.existsb (hasId id) db). Qed.

(** What an add does: nothing, or the new question at the end. *)
Lemma addQuestion_cases db bank qData :
  let q := {| questionBankName := bank;
              questionId := newId bank (countDocuments db bank);
              question := qd_question qData;
              referenceUrls :=
                filterString [qd_ref1 qData; qd_ref2 qData; qd_ref3 qData; qd_ref4 qData];
              options := qd_options qData;
              questionType := normalType (qd_type qData);
              correctAnswer := qd_answer qData |} in
  (status (fst (addQuestion db bank qData)) = 500 /\ snd (addQuestion db bank qData) = db
   /\ (qd_question qData = "" \/ In (questionId q) (List.map questionId db)))
  \/ (addQuestion db bank qData
      = (respond 201 (Message true "Question added successfully!"), (db ++ [q])%list)
      /\ qd_question qData <> "" /\ ~ In (questionId q) (List.map questionId db)).
Proof.
  intros q. unfold addQuestion. fold q. simpl question.
  destruct (String.eqb_spec (qd_question qData) "") as [Hq|Hq]; [left; by auto|].
  destruct (List.existsb (hasId (questionId q)) db) eqn:He.
  - left. split_and!; try done. right. by apply existsb_hasId.
  - right. split_and!; try done. by apply existsb_hasId_false.
Qed.

(** X1: the identifiers of the stored questions stay pairwise distinct under
    add, update and delete. *)
Theorem question_ids_stay_distinct (db : questionCollection) :
  NoDup (List.map questionId db) ->
  forall bank params qData,
    NoDup (List.map questionId (snd (addQuestion db bank qData)))
    /\ NoDup (List.map questionId (snd (updateQuestion db params qData)))
    /\ NoDup (List.map questionId (snd (deleteQuestion db params))).
Proof.
  intros Hnd bank params qData. split_and!.
  - destruct (addQuestion_cases db bank qData) as [(_ & -> & _)|(-> & _ & Hn)]; [done|].
    simpl. rewrite map_app. apply NoDup_app. split_and!; [done| |apply NoDup_singleton].
    intros x Hx Hin. apply list_elem_of_singleton in Hin as ->.
    by apply list_elem_of_In in Hx.
  - rewrite updateQuestion_db, (findOneAndUpdate_keys questionId); done.
  - rewrite deleteQuestion_db.
    destruct (List.existsb (hasId (p_questionId params)) db) eqn:He.
    + destruct (deleteOne_some _ _ He) as (l1 & d & l2 & -> & _ & _ & ->). simpl.
      rewrite map_app in *. simpl in Hnd.
      apply NoDup_app in Hnd as (H1 & H2 & H3). apply NoDup_cons in H3 as [_ H3].
      apply NoDup_app. split_and!; try done.
      intros x Hx Hx'. apply (H2 x Hx). by right.
    + by rewrite (deleteOne_none _ _ He).
Qed.

Lemma question_ids_stay_distinct_witness :
  NoDup (List.map questionId sampleBanks)
  /\ NoDup (List.map questionId (snd (addQuestion sampleBanks "Go Backend" sampleData))).
Proof.
  assert (NoDup (List.map questionId sampleBanks)) as H.
  { apply NoDup_ListNoDup. repeat constructor; simpl; intuition discriminate. }
  split; [exact H|].
  exact (proj1 (question_ids_stay_distinct sampleBanks H "Go Backend" crossParams sampleData)).
Defined.

Lemma findByBank_app db db' bank :
  findByBank (db ++ db')%list bank = (findByBank db bank ++ findByBank db' bank)%list.
Proof. unfold findByBank. apply List.filter_app. Qed.

Lemma findByBank_snoc db q bank :
  findByBank (db ++ [q])%list bank
  = (findByBank db bank ++ (if String.eqb (questionBankName q) bank then [q] else []))%list.
Proof. by rewrite findByBank_app. Qed.







Lemma newId_prefix bank count :
  newId bank count = idPrefix bank ++ JS.padStart0 3 (JS.String_nat (count + 1)).
Proof. reflexivity. Qed.

(** X4: the identifiers are unique over all banks but carry only the
    initials of the bank: when two banks have the same prefix and hold the
    same number of questions, an add to one that is answered 201 makes the
    next add to the other compute the same identifier, and that add is
    answered 500 and stores nothing. *)
Theorem banks_with_same_initials_collide (db db1 : questionCollection)
    (bank1 bank2 : string) (qData1 qData2 : QuestionData) :
  bank1 <> bank2 -> idPrefix bank1 = idPrefix bank2 ->
  countDocuments db bank1 = countDocuments db bank2 ->
  addQuestion db bank1 qData1
  = (respond 201 (Message true "Question added successfully!"), db1) ->
  status (fst (addQuestion db1 bank2 qData2)) = 500
  /\ snd (addQuestion db1 bank2 qData2) = db1.
Proof.
  intros Hne Hp Hc H1.
  destruct (addQuestion_cases db bank1 qData1) as [(Hs & _)|(Heq1 & _ & _)];
    [rewrite H1 in Hs; discriminate Hs|].
  rewrite H1 in Heq1. injection Heq1 as ->.
  match goal with |- context [(db ++ [?q])%list] => set (q1 := q) end.
  assert (countDocuments (db ++ [q1])%list bank2 = countDocuments db bank2) as Hc2.
  { unfold countDocuments. rewrite findByBank_snoc. simpl questionBankName.
    apply String.eqb_neq in Hne. rewrite Hne. by rewrite app_nil_r. }
  destruct (addQuestion_cases (db ++ [q1])%list bank2 qData2)
    as [(Hs & Hdb & _)|(_ & _ & Hn)]; [done|].
  exfalso. apply Hn. rewrite map_app. apply in_or_app. right. left. simpl.
  by rewrite Hc2, <- Hc, !newId_prefix, Hp.
Qed.

Lemma banks_with_same_initials_collide_witness :
  idPrefix "Python Scripting" = idPrefix "Perl Studio"
  /\ status (fst (addQuestion (snd (addQuestion [] "Python Scripting" sampleData))
                    "Perl Studio" sampleData)) = 500.
Proof.
  split; [reflexivity|].
  refine (proj1 (banks_with_same_initials_collide [] _ "Python Scripting" "Perl Studio"
                   sampleData sampleData _ eq_refl eq_refl eq_refl)).
  discriminate.
Defined.

(** X5: with distinct identifiers, a delete is answered 200 exactly when a
    question has the identifier; it then removes one question, no stored
    question has the identifier afterwards, and a second delete of it is
    answered 404; a delete answered 404 removes nothing. *)
Theorem delete_removes_once (db : questionCollection) (params : QuestionParams) :
  NoDup (List.map questionId db) ->
  let res := fst (deleteQuestion db params) in
  let db' := snd (deleteQuestion db params) in
  (status res = 200 <-> In (p_questionId params) (List.map questionId db))
  /\ (status res = 200 ->
      S (length db') = length db
      /\ ~ In (p_questionId params) (List.map questionId db')
      /\ deleteQuestion db' params
         = (respond 404 (Message false "Question ID not found."), db'))
  /\ (status res <> 200 ->
      res = respond 404 (Message false "Question ID not found.") /\ db' = db).
Proof.
  intros Hnd res db'. subst res db'. unfold deleteQuestion.
  rewrite <- existsb_hasId.
  destruct (List.existsb (hasId (p_questionId params)) db) eqn:He.
  - destruct (deleteOne_some _ _ He) as (l1 & d & l2 & -> & Hd & Hl1 & ->). simpl.
    assert (List.existsb (hasId (p_questionId params)) (l1 ++ l2) = false) as Hgone.
    { rewrite List.existsb_app, Hl1. simpl. apply existsb_hasId_false. intros Hin.
      rewrite map_app in Hnd. simpl in Hnd. apply NoDup_app in Hnd as (_ & _ & H3).
      apply NoDup_cons in H3 as [H3 _]. apply H3. apply list_elem_of_In.
      apply String.eqb_eq in Hd. by rewrite Hd. }
    split_and!; try done.
    intros _. split_and!.
    + rewrite !length_app. simpl. lia.
    + by apply existsb_hasId_false.
    + by rewrite (deleteOne_none _ _ Hgone).
  - rewrite (deleteOne_none _ _ He). simpl. split_and!; try done.
Qed.

Lemma delete_removes_once_witness :
  NoDup (List.map questionId sampleBanks)
  /\ deleteQuestion (snd (deleteQuestion sampleBanks crossParams)) crossParams
     = (respond 404 (Message false "Question ID not found."),
        snd (deleteQuestion sampleBanks crossParams)).
Proof.
  assert (NoDup (List.map questionId sampleBanks)) as H.
  { apply NoDup_ListNoDup. repeat constructor; simpl; intuition discriminate. }
  split; [exact H|].
  exact (proj2 (proj2 (proj1 (proj2 (delete_removes_once sampleBanks crossParams H))
                         eq_refl))).
Defined.

(** X6: an update is answered 404 exactly when no question has the
    identifier, and then changes nothing; in any case it keeps the number of
    questions, their identifiers and their banks, so that no question moves
    to another bank or gets another identifier; and sending the same update
    again changes nothing more. *)
Theorem update_keeps_identity (db : questionCollection) (params : QuestionParams)
    (qData : QuestionData) :
  let res := fst (updateQuestion db params qData) in
  let db' := snd (updateQuestion db params qData) in
  (status res = 404 <-> ~ In (p_questionId params) (List.map questionId db))
  /\ (status res = 404 -> db' = db)
  /\ (status res <> 404 -> res = respond 200 (Message true "Question updated successfully!"))
  /\ List.map questionId db' = List.map questionId db
  /\ List.map questionBankName db' = List.map questionBankName db
  /\ snd (updateQuestion db' params qData) = db'.
Proof.
  intros res db'. subst res db'. rewrite <- existsb_hasId_false.
  split_and!.
  - unfold updateQuestion.
    destruct (List.existsb (hasId (p_questionId params)) db) eqn:He.
    + pose proof (findOneAndUpdate_present _ (applyUpdate qData) _ He) as [u Hu].
      destruct (findOneAndUpdate _ _ db) as [r db']. simpl in Hu. subst r. done.
    + by rewrite (findOneAndUpdate_absent _ _ _ He).
  - unfold updateQuestion. intros Hs.
    destruct (List.existsb (hasId (p_questionId params)) db) eqn:He.
    + pose proof (findOneAndUpdate_present _ (applyUpdate qData) _ He) as [u Hu].
      destruct (findOneAndUpdate _ _ db) as [r db']. simpl in Hu. subst r. done.
    + by rewrite (findOneAndUpdate_absent _ _ _ He).
  - unfold updateQuestion. destruct (findOneAndUpdate _ _ db) as [[u|] db']; done.
  - rewrite updateQuestion_db. by apply findOneAndUpdate_keys.
  - rewrite updateQuestion_db. by apply findOneAndUpdate_keys.
  - rewrite !updateQuestion_db. by apply findOneAndUpdate_twice.
Qed.

Lemma update_keeps_identity_witness :
  status (fst (updateQuestion sampleBanks
                 {| p_questionBankName := "Go Backend"; p_questionId := "GB404" |}
                 sampleData)) = 404
  /\ snd (updateQuestion sampleBanks
            {| p_questionBankName := "Go Backend"; p_questionId := "GB404" |} sampleData)
     = sampleBanks.
Proof.
  split; [reflexivity|].
  exact (proj1 (proj2 (update_keeps_identity sampleBanks
                         {| p_questionBankName := "Go Backend"; p_questionId := "GB404" |}
                         sampleData)) eq_refl).
Defined.

(* ===================================================================== *)
(** * Further properties of the exam *)
(* ===================================================================== *)

Section ExamContent.
Variable rand : randomSource.

(** The exam is made of the first questions of the three shuffled tiers. *)
Lemma assemble_from_tiers (all : list QuestionBankItem) (k : nat) :
  exists (E M H : list QuestionBankItem) (n : nat),
    E ≡ₚ List.filter (hasType "easy") all
    /\ M ≡ₚ List.filter (hasType "moderate") all
    /\ H ≡ₚ List.filter (hasType "hard") all
    /\ fst (assemble rand all k) ≡ₚ (take n E ++ take n M ++ take n H)%list.
Proof.
  set (E := shuffleArray rand (List.filter (hasType "easy") all) k).
  set (M := shuffleArray rand (List.filter (hasType "moderate") all) (snd E)).
  set (H := shuffleArray rand (List.filter (hasType "hard") all) (snd M)).
  exists (fst E), (fst M), (fst H),
    (Nat.min (length (fst E)) (Nat.min (length (fst M)) (length (fst H)))).
  split_and!; try apply shuffleArray_Permutation.
  rewrite assemble_unfold. fold E M H.
  rewrite triplets_Permutation by lia. by rewrite !drop_0.
Qed.

Lemma In_take_tier (t : string) (all B : list QuestionBankItem) (n : nat)
    (q : QuestionBankItem) :
  B ≡ₚ List.filter (hasType t) all -> In q (take n B) -> In q all /\ questionType q = t.
Proof.
  intros HB Hq. apply list_elem_of_In, elem_of_take in Hq as (i & Hi & _).
  apply list_elem_of_lookup_2, list_elem_of_In in Hi.
  apply (Permutation_in _ HB), List.filter_In in Hi as [Hin Ht].
  split; [done|]. by apply String.eqb_eq.
Qed.

Lemma NoDup_take_tier (t : string) (all B : list QuestionBankItem) (n : nat) :
  NoDup all -> B ≡ₚ List.filter (hasType t) all -> NoDup (take n B).
Proof.
  intros Hnd HB. assert (NoDup B) as H.
  { rewrite HB. apply NoDup_ListNoDup, List.NoDup_filter. by apply NoDup_ListNoDup. }
  rewrite <- (take_drop n B) in H. by apply NoDup_app in H as (H & _ & _).
Qed.

Lemma assemble_content (all : list QuestionBankItem) (k : nat) (q : QuestionBankItem) :
  In q (fst (assemble rand all k)) ->
  In q all /\ In (questionType q) ["easy"; "moderate"; "hard"].
Proof.
  destruct (assemble_from_tiers all k) as (E & M & H & n & HE & HM & HH & Hout).
  intros Hq. apply (Permutation_in _ Hout) in Hq.
  apply in_app_or in Hq as [Hq|Hq]; [|apply in_app_or in Hq as [Hq|Hq]].
  - destruct (In_take_tier "easy" all E n q HE Hq) as [? ->]. split; [done|]. by left.
  - destruct (In_take_tier "moderate" all M n q HM Hq) as [? ->].
    split; [done|]. right. by left.
  - destruct (In_take_tier "hard" all H n q HH Hq) as [? ->].
    split; [done|]. right. right. by left.
Qed.

Lemma assemble_NoDup (all : list QuestionBankItem) (k : nat) :
  NoDup all -> NoDup (fst (assemble rand all k)).
Proof.
  intros Hnd.
  destruct (assemble_from_tiers all k) as (E & M & H & n & HE & HM & HH & Hout).
  rewrite Hout.
  assert (forall t t' B B' q, t <> t' ->
            B ≡ₚ List.filter (hasType t) all -> B' ≡ₚ List.filter (hasType t') all ->
            q ∈ take n B -> q ∈ take n B' -> False) as Hdisj.
  { intros t t' B B' q Hne HB HB' H1 H2. apply list_elem_of_In in H1, H2.
    destruct (In_take_tier t all B n q HB H1) as [_ Ht].
    destruct (In_take_tier t' all B' n q HB' H2) as [_ Ht']. congruence. }
  apply NoDup_app. split_and!.
  - by apply (NoDup_take_tier "easy" all).
  - intros q Hq Hq'. apply elem_of_app in Hq' as [Hq'|Hq'].
    + by apply (Hdisj "easy" "moderate" E M q).
    + by apply (Hdisj "easy" "hard" E H q).
  - apply NoDup_app. split_and!.
    + by apply (NoDup_take_tier "moderate" all).
    + intros q Hq Hq'. by apply (Hdisj "moderate" "hard" M H q).
    + by apply (NoDup_take_tier "hard" all).
Qed.
End ExamContent.

(** X7: with distinct question identifiers, no question is twice in the
    exam sent to a candidate; each question of the exam is a stored question
    of the bank of the token and of one of the three tiers, so that a
    question of another type is in no exam; each question is sent with its
    stored correct answer. *)
Theorem exam_questions_distinct_and_from_bank (rand : randomSource)
    (candidates : candidateCollection) (questions : questionCollection)
    (user : TokenClaims) (k : nat) (level name : string) (sent : list ExamQuestion) :
  NoDup (List.map questionId questions) ->
  fst (testSetup rand candidates questions user k) = respond 200 (Exam level name sent) ->
  NoDup (List.map eq_id sent)
  /\ forall e, In e sent ->
       exists q, e = clean q /\ In q questions
                 /\ questionBankName q = tk_questionBankName user
                 /\ In (questionType q) ["easy"; "moderate"; "hard"]
                 /\ eq_answer e = correctAnswer q.
Proof.
  intros Hnd. unfold testSetup.
  destruct (findById candidates (tk_id user)) as [c|]; [|by intros [=]].
  destruct (JS.truthy (result c)); [by intros [=]|].
  set (bank := findByBank questions (tk_questionBankName user)).
  destruct (length bank =? 0); [by intros [=]|].
  pose proof (assemble_content rand bank k) as Hcontent.
  pose proof (assemble_NoDup rand bank k) as Hdistinct.
  destruct (assemble rand bank k) as [out k']. simpl in *. intros [= _ _ <-].
  assert (forall q, In q out -> In q questions
                                /\ questionBankName q = tk_questionBankName user) as Hbank.
  { intros q Hq. destruct (Hcontent q Hq) as [Hin _].
    apply List.filter_In in Hin as [Hin Hb]. split; [done|]. by apply String.eqb_eq. }
  split.
  - rewrite map_map. change (fun x => eq_id (clean x)) with questionId.
    apply (NoDup_fmap_2_strong questionId).
    + intros x y Hx Hy Hid. apply list_elem_of_In in Hx, Hy.
      destruct (Hbank x Hx) as [Hx' _]. destruct (Hbank y Hy) as [Hy' _].
      apply list_elem_of_In in Hx', Hy'.
      apply list_elem_of_lookup in Hx' as [i Hi], Hy' as [j Hj].
      assert (i = j) as ->.
      { apply (NoDup_lookup (List.map questionId questions) i j (questionId x)); [done| |].
        - change (List.map questionId questions) with (questionId <$> questions).
          by rewrite list_lookup_fmap, Hi.
        - change (List.map questionId questions) with (questionId <$> questions).
          by rewrite list_lookup_fmap, Hj, Hid. }
      congruence.
    + apply Hdistinct. apply NoDup_by_id in Hnd.
      apply NoDup_ListNoDup, List.NoDup_filter. by apply NoDup_ListNoDup.
  - intros e He. apply in_map_iff in He as (q & <- & Hq). exists q.
    destruct (Hbank q Hq) as [? ?]. destruct (Hcontent q Hq) as [_ ?]. done.
Qed.

Lemma exam_questions_distinct_and_from_bank_witness :
  NoDup (List.map questionId goBackend)
  /\ exists sent,
       fst (testSetup sampleRand [sampleCandidate] goBackend sampleToken 0)
       = respond 200 (Exam "Go Backend" "ravi@example.org" sent)
       /\ NoDup (List.map eq_id sent).
Proof.
  assert (NoDup (List.map questionId goBackend)) as H.
  { apply NoDup_ListNoDup. repeat constructor; simpl; intuition discriminate. }
  split; [exact H|]. eexists. split; [reflexivity|].
  exact (proj1 (exam_questions_distinct_and_from_bank sampleRand [sampleCandidate]
                  goBackend sampleToken 0 _ _ _ H eq_refl)).
Defined.

(* ===================================================================== *)
(** * Further properties of the scoring operations *)
(* ===================================================================== *)

Lemma lookup_findOneAndUpdate_cases {D : Type} (matches : D -> bool) (update : D -> D)
    (db : list D) (i : nat) (d : D) :
  db !! i = Some d ->
  snd (findOneAndUpdate matches update db) !! i = Some d
  \/ (snd (findOneAndUpdate matches update db) !! i = Some (update d)
      /\ List.find matches db = Some d).
Proof.
  revert i. induction db as [|x db IH]; intros i Hi; [done|]. simpl.
  destruct (matches x) eqn:Hx.
  - destruct i as [|i]; simpl in *.
    + right. by simplify_eq.
    + by left.
  - destruct (findOneAndUpdate matches update db) as [r db'] eqn:E.
    destruct i as [|i]; simpl in *.
    + by left.
    + apply IH in Hi. done.
Qed.

Lemma setVerdict_same (c : Candidate) :
  c = setVerdict c (score c) (result c) (c_status c) (videoLink c).
Proof. by destruct c. Qed.

(** X8: a scoring request (login, setup, submit, fail) neither adds, removes
    nor moves a candidate document, and changes nothing of a document but the
    four verdict fields: names, e-mail, user name, password, programme and
    recruiter stay.  The document of a closed attempt, and every document
    other than the one of the token of a submit or fail, stays as it is. *)
Theorem scoring_changes_verdict_fields_only (w : World) (call : scoringCall)
    (db : candidateCollection) :
  length (snd (run w call db)) = length db
  /\ forall i c, db !! i = Some c ->
       exists c',
         snd (run w call db) !! i = Some c'
         /\ c' = setVerdict c (score c') (result c') (c_status c') (videoLink c')
         /\ (closed c = true -> c' = c)
         /\ (closingTarget call <> Some (_id c) -> c' = c).
Proof.
  destruct (closing_call_cases w call db)
    as [->|(c0 & s & r & st & v & id & Ht & Hf & Hopen & _ & ->)].
  - split; [done|]. intros i c Hi. exists c. split_and!; try done. apply setVerdict_same.
  - unfold save. split; [apply findOneAndUpdate_length|]. intros i c Hi.
    destruct (lookup_findOneAndUpdate_cases
                (fun d => _id d =? _id (setVerdict c0 s r st v))
                (fun _ => setVerdict c0 s r st v) db i c Hi) as [H|[H Hfirst]].
    + exists c. split_and!; try done. apply setVerdict_same.
    + exists (setVerdict c0 s r st v). rewrite setVerdict_id in Hfirst.
      pose proof (findById_id _ _ _ Hf) as Hid.
      assert (c = c0) as ->.
      { unfold findById in Hf. rewrite Hid in Hfirst. congruence. }
      split_and!; try done; congruence.
Qed.

Lemma split_cons_sep (sep : ascii) (w rest : string) :
  ~ In sep (list_ascii_of_string w) ->
  JS.split sep (w ++ String sep rest) = w :: JS.split sep rest.
Proof.
  induction w as [|c w IH]; intros Hw; simpl.
  - by rewrite Ascii.eqb_refl.
  - simpl in Hw. destruct (Ascii.eqb c sep) eqn:E.
    + apply Ascii.eqb_eq in E. tauto.
    + rewrite IH by tauto. done.
Qed.

(** X9: in a score string "x/y", the part before the first "/" has no
    effect on what a submission records besides the stored string itself:
    two submissions that differ in that part only get the same status and
    score, and the same answer. *)
Theorem verdict_ignores_correct_count (sendMail : string -> bool)
    (db : candidateCollection) (user : TokenClaims) (c : Candidate)
    (p : option JS.number) (correct1 correct2 rest : string) :
  findById db (tk_id user) = Some c -> closed c = false ->
  ~ In "/"%char (list_ascii_of_string correct1) ->
  ~ In "/"%char (list_ascii_of_string correct2) ->
  let req x := {| percentage := p; scoreString := Some (x ++ "/" ++ rest) |} in
  let after x := findById (snd (submit sendMail db user (req x))) (tk_id user) in
  fst (submit sendMail db user (req correct1)) = fst (submit sendMail db user (req correct2))
  /\ (c_status <$> after correct1) = (c_status <$> after correct2)
  /\ (score <$> after correct1) = (score <$> after correct2)
  /\ (result <$> after correct1) = Some (Some (correct1 ++ "/" ++ rest))
  /\ exists attempted,
       head (JS.split "/" rest) = Some attempted
       /\ (c_status <$> after correct1)
          = Some (verdict (JS.orZeroInt (JS.parseInt (JS.trim attempted)))
                          (JS.orZero (parseFloat p))).
Proof.
  intros Hc Hopen H1 H2 req after.
  destruct (JS.split "/" rest) as [|attempted parts] eqn:Hrest;
    [by destruct (split_nonempty "/" rest)|].
  assert (forall x, ~ In "/"%char (list_ascii_of_string x) ->
            JS.split "/" (x ++ "/" ++ rest) !! 1 = Some attempted) as Hsplit.
  { intros x Hx. change (x ++ "/" ++ rest) with (x ++ String "/" rest).
    rewrite split_cons_sep, Hrest by done. done. }
  assert (forall x, ~ In "/"%char (list_ascii_of_string x) ->
            submit sendMail db user (req x)
            = (notify sendMail "Asia/Kolkata" c "Test submitted and email sent.",
               save db (setVerdict c
                 (Some (JS.toFixed1 (JS.mul (JS.orZero (parseFloat p)) JS.num_100) ++ "%"))
                 (Some (x ++ "/" ++ rest))
                 (verdict (JS.orZeroInt (JS.parseInt (JS.trim attempted)))
                          (JS.orZero (parseFloat p)))
                 (videoLink c)))) as Hsubmit.
  { intros x Hx. unfold submit, req. rewrite Hc. unfold closed in Hopen. rewrite Hopen.
    cbn [scoreString percentage]. rewrite (Hsplit x Hx). done. }
  assert (forall s1 r1 st1 v1,
            findById (save db (setVerdict c s1 r1 st1 v1)) (tk_id user)
            = Some (setVerdict c s1 r1 st1 v1)) as Hread.
  { intros. by apply findById_save_read. }
  unfold after. rewrite (Hsubmit correct1 H1), (Hsubmit correct2 H2). simpl snd.
  rewrite !Hread. split_and!; try done.
  exists attempted. done.
Qed.

Lemma verdict_ignores_correct_count_witness :
  let db := [sampleCandidate] in
  let req x := {| percentage := Some num_0_8; scoreString := Some (x ++ "/" ++ " 20") |} in
  (c_status <$> findById (snd (submit sampleMail db sampleToken (req "0 ")))
                         (tk_id sampleToken))
  = (c_status <$> findById (snd (submit sampleMail db sampleToken (req "20 ")))
                           (tk_id sampleToken)).
Proof.
  intros db req.
  refine (proj1 (proj2 (verdict_ignores_correct_count sampleMail db sampleToken
                          sampleCandidate (Some num_0_8) "0 " "20 " " 20"
                          eq_refl eq_refl _ _))).
  - simpl. intros [H|[H|[]]]; discriminate H.
  - simpl. intros [H|[H|[H|[]]]]; discriminate H.
Defined.

(** X10: a submission without a percentage, or with one that is NaN or
    zero, is scored "0.0%" and is never a "Pass": the status is
    "Not Qualified" below 15 attempted questions and "Fail" from 15 on. *)
Theorem missing_percentage_scores_zero (sendMail : string -> bool)
    (db : candidateCollection) (user : TokenClaims) (req : SubmitBody)
    (c : Candidate) (s part : string) :
  findById db (tk_id user) = Some c -> closed c = false ->
  scoreString req = Some s -> JS.split "/" s !! 1 = Some part ->
  (percentage req = None \/ percentage req = Some S754_nan
   \/ exists sign, percentage req = Some (S754_zero sign)) ->
  exists c',
    findById (snd (submit sendMail db user req)) (tk_id user) = Some c'
    /\ score c' = Some "0.0%"
    /\ c_status c' <> "Pass"
    /\ c_status c'
       = (if (JS.orZeroInt (JS.parseInt (JS.trim part)) <? 15)%Z
          then "Not Qualified" else "Fail").
Proof.
  intros Hc Hopen Hs Hpart Hp.
  assert (JS.orZero (parseFloat (percentage req)) = JS.num_0) as H0.
  { destruct Hp as [->|[->|[sign ->]]]; done. }
  rewrite (submit_open sendMail db user req c s part Hc Hopen Hs Hpart), H0.
  eexists. split; [by apply findById_save_read|]. simpl.
  unfold verdict. destruct (_ <? 15)%Z; split_and!; done.
Qed.

Lemma missing_percentage_scores_zero_witness :
  exists c',
    findById (snd (submit sampleMail [sampleCandidate] sampleToken
                     {| percentage := None; scoreString := Some "18 / 20" |}))
             (tk_id sampleToken) = Some c'
    /\ score c' = Some "0.0%" /\ c_status c' = "Fail".
Proof.
  destruct (missing_percentage_scores_zero sampleMail [sampleCandidate] sampleToken
              {| percentage := None; scoreString := Some "18 / 20" |}
              sampleCandidate "18 / 20" " 20" eq_refl eq_refl eq_refl eq_refl
              (or_introl eq_refl)) as (c' & H1 & H2 & _ & H4).
  exists c'. split_and!; [exact H1|exact H2|exact H4].
Defined.

(* ===================================================================== *)
(** * The options of a question sent to a candidate *)
(* ===================================================================== *)

Lemma split_length (sep : ascii) (s : string) :
  length (JS.split sep s) = S (countChar sep s).
Proof.
  induction s as [|c s IH]; [done|]. simpl.
  destruct (Ascii.eqb c sep); simpl; [by rewrite IH|].
  destruct (JS.split sep s); simpl in *; lia.
Qed.

Lemma split_pieces (sep : ascii) (s p : string) :
  In p (JS.split sep s) -> ~ In sep (list_ascii_of_string p).
Proof.
  revert p. induction s as [|c s IH]; intros p; simpl.
  - intros [<-|[]]. simpl. tauto.
  - destruct (Ascii.eqb c sep) eqn:E.
    + intros [<-|H]; [simpl; tauto|by apply IH].
    + destruct (JS.split sep s) as [|w ws]; simpl.
      * intros [<-|[]]. simpl. intros [->|[]]. by rewrite Ascii.eqb_refl in E.
      * intros [<-|H]; [|apply IH; by right]. simpl. intros [->|H].
        -- by rewrite Ascii.eqb_refl in E.
        -- apply (IH w); [by left|done].
Qed.

Lemma In_trimStart (c : ascii) (s : string) :
  In c (list_ascii_of_string (JS.trimStart s)) -> In c (list_ascii_of_string s).
Proof.
  induction s as [|x s IH]; [done|]. simpl.
  destruct (JS.isWhiteSpace x); [by right; apply IH|done].
Qed.

Lemma In_trimEnd (c : ascii) (s : string) :
  In c (list_ascii_of_string (JS.trimEnd s)) -> In c (list_ascii_of_string s).
Proof.
  induction s as [|x s IH]; [done|]. simpl.
  destruct (JS.trimEnd s) as [|y t] eqn:E.
  - destruct (JS.isWhiteSpace x); simpl; [tauto|]. intros [->|[]]. by left.
  - simpl in *. intros [->|H]; [by left|]. right. by apply IH.
Qed.

Lemma trimEnd_idem (s : string) : JS.trimEnd (JS.trimEnd s) = JS.trimEnd s.
Proof.
  induction s as [|x s IH]; [done|]. simpl.
  destruct (JS.trimEnd s) as [|y t] eqn:E.
  - destruct (JS.isWhiteSpace x) eqn:W; simpl; [done|]. by rewrite W.
  - change (JS.trimEnd (String x (String y t)))
      with (match JS.trimEnd (String y t) with
            | EmptyString => if JS.isWhiteSpace x then EmptyString else String x EmptyString
            | u => String x u
            end).
    by rewrite IH.
Qed.

Lemma trimEnd_head (x : ascii) (s : string) :
  JS.isWhiteSpace x = false -> exists t, JS.trimEnd (String x s) = String x t.
Proof.
  intros W. simpl. destruct (JS.trimEnd s); rewrite ?W; eauto.
Qed.

Lemma trimStart_head (s : string) :
  JS.trimStart s = "" \/ exists x t, JS.trimStart s = String x t /\ JS.isWhiteSpace x = false.
Proof.
  induction s as [|x s IH]; [by left|]. simpl.
  destruct (JS.isWhiteSpace x) eqn:W; [done|]. right. eauto.
Qed.

Lemma trim_idem (s : string) : JS.trim (JS.trim s) = JS.trim s.
Proof.
  unfold JS.trim. destruct (trimStart_head s) as [->|(x & t & -> & W)]; [done|].
  destruct (trimEnd_head x t W) as [t' E]. rewrite E.
  cbn [JS.trimStart]. rewrite W. rewrite <- E. apply trimEnd_idem.
Qed.

(** X11: the options sent with a question are the pieces of the stored
    option string between its commas, each without the white space around
    it: one more than there are commas (so that a comma at the end gives an
    empty last option), none containing a comma; a question stored without
    options, or with an empty option string, is sent with no option. *)
Theorem exam_options_follow_commas (q : QuestionBankItem) :
  (options q = None \/ options q = Some "" -> eq_options (clean q) = [])
  /\ (forall s, options q = Some s -> s <> "" ->
        length (eq_options (clean q)) = S (countChar "," s)
        /\ eq_options (clean q) = List.map JS.trim (JS.split "," s)
        /\ forall o, In o (eq_options (clean q)) ->
             JS.trim o = o /\ ~ In ","%char (list_ascii_of_string o)).
Proof.
  unfold clean. cbn [eq_options]. split.
  - by intros [->| ->].
  - intros s Hs Hne. rewrite Hs.
    assert (JS.truthy (Some s) = true) as -> by by apply truthy_Some_nonempty.
    cbn [JS.template]. split_and!.
    + by rewrite length_map, split_length.
    + done.
    + intros o Ho. apply in_map_iff in Ho as (p & <- & Hp). split.
      * apply trim_idem.
      * intros Hin. apply (split_pieces "," s p Hp).
        unfold JS.trim in Hin. by apply In_trimStart, In_trimEnd.
Qed.

Lemma exam_options_follow_commas_witness :
  length (eq_options (clean (sampleQuestion "Go Backend" "GB001" "easy"))) = 4.
Proof.
  exact (proj1 (proj2 (exam_options_follow_commas
                         (sampleQuestion "Go Backend" "GB001" "easy"))
                  "a, b, c, d" eq_refl ltac:(discriminate))).
Defined.

(* ===================================================================== *)
(** * The candidate collection over sequences of requests *)
(* ===================================================================== *)

Lemma key_inj {A K : Type} (f : A -> K) (l : list A) (a b : A) :
  NoDup (List.map f l) -> In a l -> In b l -> f a = f b -> a = b.
Proof.
  intros Hnd Ha Hb Hf. apply list_elem_of_In, list_elem_of_lookup in Ha as [i Hi].
  apply list_elem_of_In, list_elem_of_lookup in Hb as [j Hj].
  assert (i = j) as ->; [|congruence].
  change (List.map f l) with (f <$> l) in Hnd.
  apply (NoDup_lookup (f <$> l) i j (f a)); [done| |].
  - by rewrite list_lookup_fmap, Hi.
  - by rewrite list_lookup_fmap, Hj, Hf.
Qed.

Lemma map_findOneAndUpdate {D K : Type} (f : D -> K) (matches : D -> bool)
    (update : D -> D) (db : list D) :
  (forall d, In d db -> matches d = true -> f (update d) = f d) ->
  List.map f (snd (findOneAndUpdate matches update db)) = List.map f db.
Proof.
  induction db as [|d db IH]; intros H; [done|]. simpl.
  destruct (matches d) eqn:E; simpl.
  - f_equal. apply H; [by left|done].
  - destruct (findOneAndUpdate matches update db) as [r db'] eqn:E'. simpl in *.
    f_equal. apply IH. intros d' Hd'. apply H. by right.
Qed.

Lemma save_ids (db : candidateCollection) (c : Candidate) :
  List.map _id (save db c) = List.map _id db.
Proof.
  unfold save. apply map_findOneAndUpdate. intros d _ Hd.
  apply Nat.eqb_eq in Hd. done.
Qed.

Lemma save_particulars (db : candidateCollection) (c c' : Candidate) :
  NoDup (List.map _id db) -> In c db -> particulars c' = particulars c ->
  List.map particulars (save db c') = List.map particulars db.
Proof.
  intros Hnd Hc Hp. unfold save. apply map_findOneAndUpdate. intros d Hd Hm.
  apply Nat.eqb_eq in Hm. rewrite Hp. f_equal.
  apply (key_inj _id db); [done..|]. rewrite Hm. by injection Hp.
Qed.

Lemma freshId_fresh (db : candidateCollection) : ~ In (freshId db) (List.map _id db).
Proof.
  unfold freshId. intros Hin.
  assert (Forall (fun k => k <= list_max (List.map _id db)) (List.map _id db)) as H
    by by apply list_max_le.
  rewrite Forall_forall in H. apply list_elem_of_In, H in Hin. lia.
Qed.

Lemma findByEmail_In db address c : findByEmail db address = Some c -> In c db.
Proof. intros H. by apply find_some in H as [? _]. Qed.

Lemma findByUsername_In db name c : findByUsername db name = Some c -> In c db.
Proof. intros H. by apply find_some in H as [? _]. Qed.

(** What one request does to the collection. *)
Lemma portalStep_cases (w : World) (bcryptHash : string -> string)
    (db : candidateCollection) (call : portalCall) :
  portalStep w bcryptHash db call = db
  \/ (exists c0 s r st v, findById db (_id c0) = Some c0 /\ closed c0 = false
        /\ JS.truthy r = true
        /\ (exists scoring, call = Scoring scoring)
        /\ portalStep w bcryptHash db call = save db (setVerdict c0 s r st v))
  \/ (exists c0 h, In c0 db /\ portalStep w bcryptHash db call = save db (setPassword c0 h))
  \/ (exists c, _id c = freshId db /\ c_status c = "Mail Sent" /\ result c = None
        /\ score c = None /\ videoLink c = None
        /\ portalStep w bcryptHash db call = (db ++ [c])%list).
Proof.
  destruct call as [call|ta req hashed|user address newPassword]; simpl.
  - destruct (closing_call_cases w call db)
      as [->|(c0 & s & r & st & v & id & _ & Hf & Hopen & Hr & ->)]; [by left|].
    right. left. exists c0, s, r, st, v.
    rewrite (findById_id _ _ _ Hf). split_and!; eauto.
  - unfold onboard. destruct (findByEmail db _); [by left|].
    destruct (negb (requiredPresent _)); [by left|].
    right. right. right. destruct (w_sendMail w _); cbn [snd];
      (match goal with |- context [(db ++ [?c])%list] => exists c end); done.
  - unfold resendCredentials. destruct (sharedGuard user); [by left|].
    destruct (findByEmail db _) as [c0|] eqn:E; [|by left].
    destruct (String.eqb (bcryptHash newPassword) ""); [by left|].
    right. right. left. exists c0, (bcryptHash newPassword).
    split; [by apply findByEmail_In in E|]. by destruct (w_sendMail w address).
Qed.

Lemma portalStep_ids (w : World) (bcryptHash : string -> string)
    (db : candidateCollection) (call : portalCall) :
  NoDup (List.map _id db) -> NoDup (List.map _id (portalStep w bcryptHash db call)).
Proof.
  intros Hnd.
  destruct (portalStep_cases w bcryptHash db call)
    as [->|[(c0 & s & r & st & v & _ & _ & _ & _ & ->)
           |[(c0 & h & _ & ->)|(c & Hid & _ & _ & _ & _ & ->)]]];
    rewrite ?save_ids; try done.
  rewrite List.map_app. simpl. apply NoDup_app. split_and!; [done| |].
  - intros x Hx Hx'. apply list_elem_of_singleton in Hx' as ->.
    rewrite Hid in Hx. by apply list_elem_of_In, freshId_fresh in Hx.
  - apply NoDup_singleton.
Qed.

Lemma portalStep_particulars (w : World) (bcryptHash : string -> string)
    (db : candidateCollection) (call : portalCall) :
  NoDup (List.map _id db) ->
  exists new, List.map particulars (portalStep w bcryptHash db call)
              = (List.map particulars db ++ new)%list.
Proof.
  intros Hnd.
  destruct (portalStep_cases w bcryptHash db call)
    as [->|[(c0 & s & r & st & v & Hf & _ & _ & _ & ->)
           |[(c0 & h & Hin & ->)|(c & _ & _ & _ & _ & _ & ->)]]].
  - exists []. by rewrite app_nil_r.
  - exists []. rewrite app_nil_r. apply (save_particulars db c0); [done| |done].
    by apply findById_In in Hf.
  - exists []. rewrite app_nil_r. by apply (save_particulars db c0).
  - exists [particulars c]. by rewrite List.map_app.
Qed.

(** X12: on a collection where every user name is the e-mail, as onboarding
    makes it, no sequence of requests to the portal (logins, setups,
    submissions, failures, onboardings, credentials sent again; addresses
    without white space around them) removes a candidate or
    changes what onboarding recorded of one, the password apart: the
    documents there at the start are still in the collection with their
    identifier, names, e-mail, user name, programme, project and recruiter;
    identifiers stay distinct. *)
Theorem candidates_are_never_removed (w : World) (bcryptHash : string -> string)
    (calls : list portalCall) (db : candidateCollection) :
  NoDup (List.map _id db) ->
  (forall c, In c db -> username c = email c) -> Forall plainCall calls ->
  NoDup (List.map _id (portalRun w bcryptHash calls db))
  /\ exists new,
       List.map particulars (portalRun w bcryptHash calls db)
       ≡ₚ (List.map particulars db ++ new)%list.
Proof.
  intros Hnd _ _. revert db Hnd.
  unfold portalRun. induction calls as [|call calls IH]; intros db Hnd; simpl.
  - split; [done|]. exists []. by rewrite app_nil_r.
  - pose proof (portalStep_ids w bcryptHash db call Hnd) as Hnd'.
    destruct (portalStep_particulars w bcryptHash db call Hnd) as [new1 H1].
    destruct (IH _ Hnd') as [Hnd'' [new2 H2]]. split; [done|].
    exists (new1 ++ new2)%list. by rewrite H2, H1, <- app_assoc.
Qed.

Lemma candidates_are_never_removed_witness :
  let calls := [Onboarding {| ta_fullName := "Asha"; ta_email := "asha@example.org" |}
                  {| ob_firstName := "Mina"; ob_lastName := "Rao";
                     ob_email := "mina@example.org"; ob_program := "Go";
                     ob_project := Some "Backend" |} "hash:pw";
                Scoring (CallFail sampleToken "Tab switched");
                Resending {| au_role := Some "TA"; au_scope := Some "enrollment" |}
                  "ravi@example.org" "fresh"] in
  exists new,
    List.map particulars (portalRun sampleWorld (fun p => "hash:" ++ p) calls [sampleCandidate])
    ≡ₚ (List.map particulars [sampleCandidate] ++ new)%list.
Proof.
  intros calls.
  refine (proj2 (candidates_are_never_removed sampleWorld (fun p => "hash:" ++ p) calls
                   [sampleCandidate] _ _ _)).
  - apply NoDup_ListNoDup. repeat constructor. simpl. tauto.
  - intros c [<-|[]]. reflexivity.
  - repeat constructor.
Defined.

Lemma findById_app db id c extra :
  findById db id = Some c -> findById (db ++ extra)%list id = Some c.
Proof.
  unfold findById. induction db as [|d db IH]; [done|]. simpl.
  destruct (_id d =? id); [done|apply IH].
Qed.

Lemma setPassword_id c h : _id (setPassword c h) = _id c.
Proof. done. Qed.

Lemma verdictFields_closed c c' : verdictFields c' = verdictFields c -> closed c' = closed c.
Proof.
  intros H. unfold closed. assert (result c' = result c) as ->; [|done].
  unfold verdictFields in H. congruence.
Qed.

(** A closed attempt after one more request. *)
Lemma portalStep_closed (w : World) (bcryptHash : string -> string)
    (db : candidateCollection) (call : portalCall) (id : nat) (c : Candidate) :
  NoDup (List.map _id db) -> findById db id = Some c -> closed c = true ->
  exists c', findById (portalStep w bcryptHash db call) id = Some c'
             /\ verdictFields c' = verdictFields c /\ particulars c' = particulars c.
Proof.
  intros Hnd Hf Hclosed.
  destruct call as [call|ta req hashed|user address newPassword]; simpl.
  - exists c. split; [by apply closed_frame|done].
  - exists c. split; [|done]. unfold onboard. destruct (findByEmail db _); [done|].
    destruct (negb (requiredPresent _)); [done|].
    destruct (w_sendMail w _); by apply findById_app.
  - unfold resendCredentials. destruct (sharedGuard user); [by exists c|].
    destruct (findByEmail db _) as [c0|] eqn:E; [|by exists c].
    destruct (String.eqb (bcryptHash newPassword) ""); [by exists c|]. cbn zeta.
    assert (snd (if w_sendMail w address
                 then (respond 200 (Message true
                         ("New assessment credentials sent to " ++ address ++ ".")),
                       save db (setPassword c0 (bcryptHash newPassword)))
                 else (respond 500 (Message false "mail not sent"),
                       save db (setPassword c0 (bcryptHash newPassword))))
            = save db (setPassword c0 (bcryptHash newPassword))) as ->
      by by destruct (w_sendMail w address).
    destruct (decide (id = _id c0)) as [->|Hne].
    + assert (c0 = c) as ->.
      { apply (key_inj _id db); [done|by apply findByEmail_In in E
                                 |by apply findById_In in Hf|].
        by rewrite (findById_id _ _ _ Hf). }
      exists (setPassword c (bcryptHash newPassword)). split; [|done].
      rewrite <- (setPassword_id c (bcryptHash newPassword)).
      apply (findById_save_same db c). by rewrite setPassword_id.
    + exists c. split; [|done]. by rewrite findById_save_other.
Qed.

(** X13: once an attempt is closed, no sequence of requests to the portal
    (addresses without white space around them, on a collection where every
    user name is the e-mail) reopens it or changes its verdict: whatever is logged in, set up,
    submitted, failed, onboarded or sent again, the candidate keeps the
    stored result, score, status and video link; no login issues a token for
    that candidate any more, and setup, submit and fail with a token of the
    candidate are answered 403. *)
Theorem closed_attempt_survives_portal (w : World) (bcryptHash : string -> string)
    (calls : list portalCall) (db : candidateCollection) (id : nat) (c : Candidate) :
  NoDup (List.map _id db) ->
  (forall d, In d db -> username d = email d) -> Forall plainCall calls ->
  findById db id = Some c -> closed c = true ->
  let db' := portalRun w bcryptHash calls db in
  exists c',
    findById db' id = Some c'
    /\ verdictFields c' = verdictFields c
    /\ particulars c' = particulars c
    /\ (forall req token page,
          body (login (w_bcryptCompare w) db' req) = Login token page -> tk_id token <> id)
    /\ (forall user k, tk_id user = id ->
          fst (testSetup (w_rand w) db' (w_questions w) user k)
          = respond 403 (Message false "Test has already been submitted."))
    /\ (forall call, closingTarget call = Some id ->
          run w call db' = (respond 403 (Message false "Test already submitted."), db')).
Proof.
  intros Hnd _ _ Hf Hclosed db'.
  assert (NoDup (List.map _id db')
          /\ exists c', findById db' id = Some c'
                        /\ verdictFields c' = verdictFields c
                        /\ particulars c' = particulars c) as [Hnd' (c' & Hf' & Hv & Hp)].
  { unfold db', portalRun. clear db'. revert db c Hnd Hf Hclosed.
    induction calls as [|call calls IH]; intros db c Hnd Hf Hclosed; simpl.
    - split; [done|]. by exists c.
    - destruct (portalStep_closed w bcryptHash db call id c Hnd Hf Hclosed)
        as (c1 & Hf1 & Hv1 & Hp1).
      assert (closed c1 = true) as Hclosed1.
      { by rewrite (verdictFields_closed _ _ Hv1). }
      destruct (IH _ c1 (portalStep_ids w bcryptHash db call Hnd) Hf1 Hclosed1)
        as [Hnd2 (c2 & Hf2 & Hv2 & Hp2)].
      split; [done|]. exists c2. split_and!; [done|congruence..]. }
  assert (closed c' = true) as Hclosed'.
  { by rewrite (verdictFields_closed _ _ Hv). }
  exists c'. split_and!; try done.
  - intros req token page. unfold login.
    destruct (_ || _); [by intros [=]|].
    destruct (findByUsername db' _) as [c1|] eqn:E; [|by intros [=]].
    destruct (negb _); [by intros [=]|].
    destruct (JS.truthy (result c1) || _ || _) eqn:A; [by intros [=]|].
    simpl. intros [= <- _]. simpl. intros Hid.
    assert (c1 = c') as ->.
    { apply (key_inj _id db'); [done|by apply findByUsername_In in E
                                |by apply findById_In in Hf'|].
      by rewrite (findById_id _ _ _ Hf'). }
    unfold closed in Hclosed'. by rewrite Hclosed' in A.
  - intros user k <-. unfold testSetup. rewrite Hf'.
    unfold closed in Hclosed'. by rewrite Hclosed'.
  - intros call Hcall. by apply (closing_refused w call db' id c').
Qed.

Lemma closed_attempt_survives_portal_witness :
  let closedRavi := setVerdict sampleCandidate (Some "80.0%") (Some "16 / 20") "Pass" None in
  let calls := [Resending {| au_role := Some "TA"; au_scope := Some "enrollment" |}
                  "ravi@example.org" "fresh";
                Scoring (CallFail sampleToken "Tab switched")] in
  exists c',
    findById (portalRun sampleWorld (fun p => "hash:" ++ p) calls [closedRavi]) 1 = Some c'
    /\ verdictFields c' = (Some "16 / 20", Some "80.0%", "Pass", None).
Proof.
  intros closedRavi calls.
  assert (NoDup (List.map _id [closedRavi])) as Hnd.
  { apply NoDup_ListNoDup. repeat constructor. simpl. tauto. }
  assert (forall d, In d [closedRavi] -> username d = email d) as Hnames.
  { intros d [<-|[]]. reflexivity. }
  assert (Forall plainCall calls) as Hplain by (repeat constructor).
  destruct (closed_attempt_survives_portal sampleWorld (fun p => "hash:" ++ p) calls
              [closedRavi] 1 closedRavi Hnd Hnames Hplain eq_refl eq_refl)
    as (c' & H1 & H2 & _).
  exists c'. split; [exact H1|exact H2].
Defined.

Lemma closed_iff_attempted_of_shape (c : Candidate) :
  verdictShape c -> alreadyAttempted c = closed c.
Proof.
  unfold alreadyAttempted, closed.
  intros [(-> & -> & _)|[(s & -> & Hs & _)|(-> & _)]]; try done.
  assert (JS.truthy (Some s) = true) as ->; [|done].
  apply truthy_Some_nonempty. intros ->. done.
Qed.

Lemma verdictShape_open (c : Candidate) :
  verdictShape c -> closed c = false ->
  c_status c = "Mail Sent" /\ result c = None /\ score c = None /\ videoLink c = None.
Proof.
  unfold closed. intros [H|[(s & Hr & Hs & _)|(Hr & _)]] Hopen; [done|..].
  - rewrite Hr in Hopen. assert (JS.truthy (Some s) = true) as Ht; [|congruence].
    apply truthy_Some_nonempty. intros ->. done.
  - by rewrite Hr in Hopen.
Qed.

Lemma In_save (db : candidateCollection) (c' d : Candidate) :
  In d (save db c') -> d = c' \/ In d db.
Proof. apply In_findOneAndUpdate. Qed.

Lemma verdict_values a p : In (verdict a p) ["Not Qualified"; "Pass"; "Fail"].
Proof.
  unfold verdict. destruct (a <? 15)%Z; [by left|].
  destruct (JS.geb p JS.num_0_75); [right; by left|right; right; by left].
Qed.

Lemma portalStep_shape (w : World) (bcryptHash : string -> string)
    (db : candidateCollection) (call : portalCall) :
  (forall c, In c db -> verdictShape c) ->
  forall c, In c (portalStep w bcryptHash db call) -> verdictShape c.
Proof.
  intros Hall c.
  destruct call as [[req|user k|user req|user reason]|ta req hashed|user address newPassword];
    simpl; try apply Hall.
  - unfold submit. destruct (findById db (tk_id user)) as [c0|] eqn:Hf; [|apply Hall].
    destruct (JS.truthy (result c0)) eqn:Hopen; [apply Hall|].
    destruct (scoreString req) as [s|] eqn:Hs; [|apply Hall].
    destruct (JS.split "/" s !! 1) as [part|] eqn:Hpart; [|apply Hall].
    simpl. intros Hin. apply In_save in Hin as [->|Hin]; [|by apply Hall].
    destruct (verdictShape_open c0 (Hall c0 (findById_In _ _ _ Hf)) Hopen)
      as (_ & _ & _ & Hv).
    right. left. exists s. simpl. split_and!; try done.
    + apply split_second_iff. by rewrite Hpart.
    + apply verdict_values.
  - unfold fail. destruct (findById db (tk_id user)) as [c0|] eqn:Hf; [|apply Hall].
    destruct (JS.truthy (result c0)) eqn:Hopen; [apply Hall|].
    simpl. intros Hin. apply In_save in Hin as [->|Hin]; [|by apply Hall].
    right. right. done.
  - unfold onboard. destruct (findByEmail db _); [apply Hall|].
    destruct (negb (requiredPresent _)); [apply Hall|].
    assert (forall x y : response * candidateCollection, snd x = snd y ->
              snd (if w_sendMail w (ob_email req) then x else y) = snd x) as Hif
      by (intros; by destruct (w_sendMail w _)).
    rewrite Hif by done. simpl. intros Hin. apply in_app_or in Hin as [Hin|[<-|[]]].
    + by apply Hall.
    + by left.
  - unfold resendCredentials. destruct (sharedGuard user); [apply Hall|].
    destruct (findByEmail db _) as [c0|] eqn:E; [|apply Hall].
    destruct (String.eqb (bcryptHash newPassword) ""); [apply Hall|]. cbn zeta.
    assert (forall x y : response * candidateCollection, snd x = snd y ->
              snd (if w_sendMail w address then x else y) = snd x) as Hif
      by (intros; by destruct (w_sendMail w _)).
    rewrite Hif by done. simpl. intros Hin. apply In_save in Hin as [->|Hin]; [|by apply Hall].
    apply findByEmail_In, Hall in E. exact E.
Qed.

(** X14: every candidate record the portal makes, from an empty collection
    and by any sequence of requests carrying a failure reason where one is
    asked and addresses without white space around them, has one of three shapes: not attempted (status "Mail Sent", no
    result, score or video link), submitted (a result with a "/", a score, a
    status among "Not Qualified", "Pass" and "Fail", no video link), or
    failed (result "0 / 0", score "0.0%", the reason as status and video
    link).  So a score is never stored without a result, and the test the
    login makes on the status adds nothing to its test on the result. *)
Theorem records_have_one_of_three_shapes (w : World) (bcryptHash : string -> string)
    (calls : list portalCall) (c : Candidate) :
  Forall plainCall calls ->
  In c (portalRun w bcryptHash calls []) ->
  verdictShape c
  /\ alreadyAttempted c = closed c
  /\ (is_Some (score c) <-> closed c = true).
Proof.
  intros _ Hin.
  assert (verdictShape c) as Hshape.
  { revert c Hin. unfold portalRun.
    assert (forall c, In c (@nil Candidate) -> verdictShape c) as H0 by by intros ? [].
    revert H0. generalize (@nil Candidate) as db.
    induction calls as [|call calls IH]; intros db Hall c; simpl; [apply Hall|].
    apply IH. by apply portalStep_shape. }
  split; [done|]. split; [by apply closed_iff_attempted_of_shape|].
  unfold closed.
  destruct Hshape as [(_ & -> & -> & _)|[(s & -> & Hs & _ & Hsc & _)|(-> & -> & _)]].
  - split; [by intros [? [=]]|done].
  - split; [|done]. intros _. apply truthy_Some_nonempty. by intros ->.
  - done.
Qed.

Lemma records_have_one_of_three_shapes_witness :
  let calls := [Onboarding {| ta_fullName := "Asha"; ta_email := "asha@example.org" |}
                  {| ob_firstName := "Ravi"; ob_lastName := "Kumar";
                     ob_email := "ravi@example.org"; ob_program := "Go";
                     ob_project := Some "Backend" |} "hash:secret";
                Scoring (CallSubmit sampleToken
                           {| percentage := Some num_0_8; scoreString := Some "16 / 20" |})] in
  exists c, In c (portalRun sampleWorld (fun p => "hash:" ++ p) calls [])
            /\ alreadyAttempted c = closed c /\ c_status c = "Pass".
Proof.
  intros calls.
  eexists. split; [left; reflexivity|]. split; [|reflexivity].
  refine (proj1 (proj2 (records_have_one_of_three_shapes sampleWorld
                          (fun p => "hash:" ++ p) calls _ _ _))).
  - repeat constructor.
  - left. reflexivity.
Defined.

(* ===================================================================== *)
(** * Credentials: onboarding, sending again, and the login they allow *)
(* ===================================================================== *)

Lemma find_save (P : Candidate -> bool) (db : candidateCollection) (c c' : Candidate) :
  NoDup (List.map _id db) -> List.find P db = Some c -> _id c' = _id c -> P c' = true ->
  List.find P (save db c') = Some c'.
Proof.
  unfold save. induction db as [|d db IH]; intros Hnd Hfind Hid HP; [done|].
  simpl in Hfind |- *. destruct (P d) eqn:E.
  - simplify_eq. rewrite Hid, Nat.eqb_refl. simpl. by rewrite HP.
  - simpl in Hnd. apply NoDup_cons in Hnd as [Hnotin Hnd].
    destruct (_id d =? _id c') eqn:Eid.
    + apply Nat.eqb_eq in Eid. destruct Hnotin. rewrite Eid, Hid.
      apply list_elem_of_In, in_map. by apply find_some in Hfind as [? _].
    + destruct (findOneAndUpdate _ _ db) as [r db'] eqn:E'. simpl in *.
      rewrite E. by apply IH.
Qed.

Lemma toLowerCase_idem (s : string) : JS.toLowerCase (JS.toLowerCase s) = JS.toLowerCase s.
Proof.
  unfold JS.toLowerCase. induction s as [|c s IH]; [done|]. simpl. rewrite IH. f_equal.
  destruct c as [[] [] [] [] [] [] [] []]; reflexivity.
Qed.



(** X15: sending credentials again to an address without white space
    around it replaces the stored password of the candidate found by the
    lower-cased address by the hash of the new one,
    which [bcrypt.hash] never leaves empty, whether or not the mail goes
    out, and touches no other candidate.  After it the new password logs an
    open candidate in and an old one that the new hash does not match is
    refused; a candidate whose attempt was made is still refused with 403. *)
Theorem resend_replaces_password (bcryptCompare : string -> string -> bool)
    (bcryptHash : string -> string) (sendMail : string -> bool)
    (db : candidateCollection) (user : AuthUser) (address newPassword : string)
    (c : Candidate) :
  NoDup (List.map _id db) -> sharedGuard user = None ->
  findByEmail db (JS.toLowerCase address) = Some c ->
  plainAddress address -> bcryptHash newPassword <> "" ->
  let out := resendCredentials bcryptHash sendMail db user address newPassword in
  let c' := setPassword c (bcryptHash newPassword) in
  findById (snd out) (_id c) = Some c'
  /\ (forall id, id <> _id c -> findById (snd out) id = findById db id)
  /\ (status (fst out) = 200 <-> sendMail address = true)
  /\ (forall name typed, name <> "" -> typed <> "" ->
        findByUsername db (JS.toLowerCase name) = Some c ->
        let answer := login bcryptCompare (snd out)
                        {| lb_username := name; lb_password := typed |} in
        (bcryptCompare typed (bcryptHash newPassword) = false ->
         answer = respond 401 (ErrorMessage "Invalid username or password."))
        /\ (bcryptCompare typed (bcryptHash newPassword) = true ->
            alreadyAttempted c = false ->
            exists page, answer = respond 200 (Login (tokenFor c) page))
        /\ (bcryptCompare typed (bcryptHash newPassword) = true ->
            alreadyAttempted c = true ->
            answer = respond 403 (ErrorMessage
                       "The test has already been attempted with these credentials."))).
Proof.
  intros Hnd Hguard Hfind _ Hhash out c'. apply String.eqb_neq in Hhash.
  assert (snd out = save db c') as Hout.
  { unfold out, resendCredentials. rewrite Hguard, Hfind, Hhash.
    by destruct (sendMail address). }
  assert (In c db) as Hin by by apply findByEmail_In in Hfind.
  assert (findById db (_id c) = Some c) as Hid.
  { destruct (findById db (_id c)) as [d|] eqn:E.
    - f_equal. apply (key_inj _id db); [done|by apply findById_In in E|done|].
      by apply findById_id in E.
    - unfold findById in E. apply (find_none _ _ E) in Hin. by rewrite Nat.eqb_refl in Hin. }
  rewrite Hout. split_and!.
  - change (_id c) with (_id c'). by apply (findById_save_same db c).
  - intros id Hne. by apply findById_save_other.
  - unfold out, resendCredentials. rewrite Hguard, Hfind, Hhash.
    destruct (sendMail address); simpl; split; done.
  - intros name typed Hname Htyped Huser answer.
    assert (findByUsername (save db c') (JS.toLowerCase name) = Some c') as Hfound.
    { apply (find_save _ db c c'); [done..|].
      apply find_some in Huser as [_ H]. exact H. }
    unfold answer, login. cbn [lb_username lb_password].
    assert (JS.truthy (Some name) = true) as -> by by apply truthy_Some_nonempty.
    assert (JS.truthy (Some typed) = true) as -> by by apply truthy_Some_nonempty.
    cbn [negb orb]. rewrite Hfound.
    change (password c') with (bcryptHash newPassword).
    change (result c') with (result c). change (c_status c') with (c_status c).
    change (tk_id _) with (tk_id (tokenFor c)) || idtac.
    split_and!.
    + by intros ->.
    + intros -> Hopen. cbn [negb]. unfold alreadyAttempted in Hopen.
      rewrite Hopen. eexists. reflexivity.
    + intros -> Hdone. cbn [negb]. unfold alreadyAttempted in Hdone.
      by rewrite Hdone.
Qed.

Lemma resend_replaces_password_witness :
  let out := resendCredentials (fun p => "hash:" ++ p) (fun _ => false) [sampleCandidate]
               {| au_role := Some "TA"; au_scope := Some "enrollment" |}
               "Ravi@Example.org" "fresh" in
  status (fst out) = 500
  /\ exists page,
       login sampleCompare (snd out) {| lb_username := "RAVI@example.org"; lb_password := "fresh" |}
       = respond 200 (Login (tokenFor sampleCandidate) page).
Proof.
  intros out. split; [reflexivity|].
  assert (NoDup (List.map _id [sampleCandidate])) as Hnd.
  { apply NoDup_ListNoDup. repeat constructor. simpl. tauto. }
  destruct (resend_replaces_password sampleCompare (fun p => "hash:" ++ p) (fun _ => false)
              [sampleCandidate] {| au_role := Some "TA"; au_scope := Some "enrollment" |}
              "Ravi@Example.org" "fresh" sampleCandidate Hnd eq_refl eq_refl eq_refl
              ltac:(discriminate))
    as (_ & _ & _ & H).
  destruct (H "RAVI@example.org" "fresh" ltac:(discriminate) ltac:(discriminate) eq_refl)
    as (_ & Hlogin & _).
  exact (Hlogin eq_refl eq_refl).
Defined.



(* ===================================================================== *)
(** * The middleware and the scopes of the tokens *)
(* ===================================================================== *)

Lemma app_sep_truthy (a b : string) (sep : ascii) :
  JS.truthy (Some (a ++ String sep b)) = true.
Proof. apply truthy_Some_nonempty. by destruct a. Qed.

(** X17: [authenticateToken] takes the second word of the header for the
    token and looks at nothing else: the word before the first space is not
    compared with "Bearer", and what follows a second space is dropped.  A
    request without the header, or with a header that is not empty and has
    no space, is answered 401; a request goes on only with the claims of a
    token the verifier accepts. *)
Theorem authenticate_reads_second_word {U : Type} (jwtVerify : string -> option U) :
  authenticateToken jwtVerify None
  = inl (respond 401 (ErrorMessage "Unauthorized: No token provided"))
  /\ (forall h, h <> "" -> ~ In " "%char (list_ascii_of_string h) ->
        authenticateToken jwtVerify (Some h)
        = inl (respond 401 (ErrorMessage "Unauthorized: No token provided")))
  /\ (forall scheme token,
        ~ In " "%char (list_ascii_of_string scheme) ->
        ~ In " "%char (list_ascii_of_string token) ->
        let outcome := match jwtVerify token with
                       | Some user => inr user
                       | None => inl (respond 403 (ErrorMessage "Forbidden: Invalid token"))
                       end in
        authenticateToken jwtVerify (Some (scheme ++ " " ++ token)) = outcome
        /\ forall rest,
             authenticateToken jwtVerify (Some (scheme ++ " " ++ token ++ " " ++ rest))
             = outcome)
  /\ (forall header user,
        authenticateToken jwtVerify header = inr user ->
        exists token, jwtVerify token = Some user).
Proof.
  split_and!.
  - done.
  - intros h Hne Hh. unfold authenticateToken, bearerToken.
    assert (JS.truthy (Some h) = true) as -> by by apply truthy_Some_nonempty.
    by rewrite split_without.
  - intros scheme token Hs Ht outcome.
    unfold authenticateToken, bearerToken. split; [|intros rest].
    + change (scheme ++ " " ++ token) with (scheme ++ String " " token).
      rewrite app_sep_truthy, split_cons_sep, split_without by done. done.
    + change (scheme ++ " " ++ token ++ " " ++ rest)
        with (scheme ++ String " " (token ++ String " " rest)).
      rewrite app_sep_truthy, !split_cons_sep by done. done.
  - intros header user. unfold authenticateToken.
    destruct (bearerToken header) as [token|]; [|by intros [=]].
    destruct (jwtVerify token) as [u|] eqn:E; [|by intros [=]].
    intros [= <-]. by exists token.
Qed.

Lemma authenticate_reads_second_word_witness :
  let verify t := if String.eqb t "abc.def.ghi" then Some sampleToken else None in
  authenticateToken verify (Some "Basic abc.def.ghi") = inr sampleToken.
Proof.
  intros verify.
  refine (proj1 (proj1 (proj2 (proj2 (authenticate_reads_second_word verify)))
                   "Basic" "abc.def.ghi" _ _)).
  - simpl. intros H. repeat (destruct H as [H|H]; [discriminate H|]). exact H.
  - simpl. intros H. repeat (destruct H as [H|H]; [discriminate H|]). exact H.
Defined.



(* ===================================================================== *)
(** * The users of the enrollment application *)
(* ===================================================================== *)

(** What [tasOnboard] does to the collection. *)
Lemma tasOnboard_cases (sendMail : string -> bool) (db : list EnrollmentUser)
    (requester : AuthUser) (req : TaBody) (id : nat) (hashedPassword : string) :
  let out := tasOnboard sendMail db requester req id hashedPassword in
  (snd out = db /\ status (fst out) <> 201)
  \/ (snd out = (db ++ [ {| eu_id := id;
                            eu_firstName := tb_firstName req;
                            eu_lastName := tb_lastName req;
                            eu_email := JS.trim (JS.toLowerCase (tb_email req));
                            eu_password := hashedPassword;
                            eu_role := tb_role req |} ])%list
      /\ In (tb_role req) ["TA"; "Manager"; "Owner"]
      /\ (tb_role req = "Owner" -> au_role requester = Some "Owner")
      /\ List.existsb (fun u => String.eqb (eu_email u)
                                  (JS.trim (JS.toLowerCase (tb_email req)))) db = false
      /\ (status (fst out) = 201 <-> sendMail (tb_email req) = true)).
Proof.
  unfold tasOnboard.
  destruct (_ || _ || _ || _); [by left|].
  destruct (includes ["TA"; "Manager"; "Owner"] (Some (tb_role req))) eqn:Hrole;
    cbn [negb]; [|by left].
  destruct (String.eqb (tb_role req) "Owner" && _) eqn:Howner; [by left|].
  destruct (findEnrollmentUser db _); [by left|]. cbn zeta. cbn [eu_email eu_password].
  destruct (_ || _); [by left|].
  destruct (List.existsb _ db) eqn:Hdup; [by left|].
  right. split_and!.
  - by destruct (sendMail (tb_email req)).
  - unfold includes in Hrole. apply existsb_exists in Hrole as (r & Hr & E).
    apply String.eqb_eq in E. by subst.
  - intros Ho. rewrite Ho in Howner. simpl in Howner.
    unfold includes in Howner. destruct (au_role requester) as [r|]; [|done].
    simpl in Howner. rewrite orb_false_r in Howner.
    apply negb_false_iff, String.eqb_eq in Howner. by subst.
  - done.
  - destruct (sendMail (tb_email req)); simpl; split; done.
Qed.

(** X19: onboarding a user of the enrollment application keeps the users
    there, the e-mails distinct and the roles among TA, Manager and Owner,
    and only an Owner makes an Owner: after a request of a user whose role
    is not Owner, the Owners are those there before. *)
Theorem only_owners_create_owners (sendMail : string -> bool) (db : list EnrollmentUser)
    (requester : AuthUser) (req : TaBody) (id : nat) (hashedPassword : string) :
  let db' := snd (tasOnboard sendMail db requester req id hashedPassword) in
  (exists new, db' = (db ++ new)%list)
  /\ (NoDup (List.map eu_email db) -> NoDup (List.map eu_email db'))
  /\ ((forall u, In u db -> In (eu_role u) ["TA"; "Manager"; "Owner"]) ->
      forall u, In u db' -> In (eu_role u) ["TA"; "Manager"; "Owner"])
  /\ (au_role requester <> Some "Owner" ->
      List.filter (fun u => String.eqb (eu_role u) "Owner") db'
      = List.filter (fun u => String.eqb (eu_role u) "Owner") db).
Proof.
  intros db'. unfold db'.
  destruct (tasOnboard_cases sendMail db requester req id hashedPassword)
    as [[-> _]|(-> & Hrole & Howner & Hdup & _)].
  - split_and!; try done. exists []. by rewrite app_nil_r.
  - split_and!.
    + by eexists.
    + intros Hnd. rewrite List.map_app. simpl. apply NoDup_app. split_and!; [done| |].
      * intros e He He'. apply list_elem_of_singleton in He' as ->.
        apply list_elem_of_In, in_map_iff in He as (u & Hu & Hin).
        assert (List.existsb (fun u => String.eqb (eu_email u)
                  (JS.trim (JS.toLowerCase (tb_email req)))) db = true) as E; [|congruence].
        apply existsb_exists. exists u. split; [done|]. by apply String.eqb_eq.
      * apply NoDup_singleton.
    + intros Hall u Hu. apply in_app_or in Hu as [Hu|[<-|[]]]; [by apply Hall|done].
    + intros Hno. rewrite List.filter_app. simpl.
      destruct (String.eqb (tb_role req) "Owner") eqn:E; [|by rewrite app_nil_r].
      apply String.eqb_eq in E. by destruct (Hno (Howner E)).
Qed.

Lemma only_owners_create_owners_witness :
  let manager := {| au_role := Some "Manager"; au_scope := Some "enrollment" |} in
  let req := {| tb_firstName := "Omar"; tb_lastName := "Sy";
                tb_email := "omar@example.org"; tb_role := "Owner" |} in
  List.filter (fun u => String.eqb (eu_role u) "Owner")
    (snd (tasOnboard sampleMail [] manager req 1 "hash:pw")) = [].
Proof.
  intros manager req.
  refine (proj2 (proj2 (proj2 (only_owners_create_owners sampleMail [] manager req 1
                                 "hash:pw"))) _).
  discriminate.
Defined.



(* ===================================================================== *)
(** * The users of the quizzer application and the programmes *)
(* ===================================================================== *)

Lemma addProject_has (name project : string) (db : list Programme) :
  exists p, In p (addProject name project db)
            /\ pr_name p = name /\ In project (pr_projects p).
Proof.
  induction db as [|q db (p & Hin & Hn & Hp)]; simpl.
  - eexists. split; [by left|]. split; [done|by left].
  - destruct (String.eqb (pr_name q) name) eqn:E.
    + eexists. split; [by left|]. apply String.eqb_eq in E. split; [done|]. simpl.
      destruct (List.existsb (String.eqb project) (pr_projects q)) eqn:Ex.
      * apply existsb_exists in Ex as (x & Hx & Ex). apply String.eqb_eq in Ex. by subst.
      * apply in_or_app. right. by left.
    + exists p. split; [by right|done].
Qed.

Lemma addProject_names (name project : string) (db : list Programme) :
  List.map pr_name (addProject name project db)
  = (List.map pr_name db
     ++ if List.existsb (fun p => String.eqb (pr_name p) name) db then [] else [name])%list.
Proof.
  induction db as [|q db IH]; simpl; [done|].
  destruct (String.eqb (pr_name q) name) eqn:E; simpl.
  - by rewrite app_nil_r.
  - by rewrite IH.
Qed.

Lemma addProject_NoDup (name project : string) (db : list Programme) :
  NoDup (List.map pr_name db) -> NoDup (List.map pr_name (addProject name project db)).
Proof.
  intros Hnd. rewrite addProject_names.
  destruct (List.existsb _ db) eqn:E; [by rewrite app_nil_r|].
  apply NoDup_app. split_and!; [done| |apply NoDup_singleton].
  intros n Hn Hn'. apply list_elem_of_singleton in Hn' as ->.
  apply list_elem_of_In, in_map_iff in Hn as (p & Hp & Hin).
  assert (List.existsb (fun p => String.eqb (pr_name p) name) db = true) as E';
    [|congruence].
  apply existsb_exists. exists p. split; [done|]. by apply String.eqb_eq.
Qed.

Lemma addProject_keeps (name project : string) (db : list Programme) (p : Programme) :
  In p db ->
  exists p', In p' (addProject name project db)
             /\ pr_name p' = pr_name p /\ incl (pr_projects p) (pr_projects p').
Proof.
  induction db as [|q db IH]; [done|]. simpl. intros [->|Hin].
  - destruct (String.eqb (pr_name p) name) eqn:E.
    + eexists. split; [by left|]. split; [done|]. simpl.
      destruct (List.existsb _ _); [apply incl_refl|by apply incl_appl, incl_refl].
    + exists p. split; [by left|]. split; [done|apply incl_refl].
  - destruct (String.eqb (pr_name q) name) eqn:E.
    + exists p. split; [by right|]. split; [done|apply incl_refl].
    + destruct (IH Hin) as (p' & ? & ? & ?). exists p'. split; [by right|done].
Qed.

Lemma addProject_idem (name project : string) (db : list Programme) :
  addProject name project (addProject name project db) = addProject name project db.
Proof.
  induction db as [|q db IH]; simpl.
  - rewrite String.eqb_refl. simpl. by rewrite String.eqb_refl.
  - destruct (String.eqb (pr_name q) name) eqn:E; simpl; rewrite E; [|by rewrite IH].
    f_equal. f_equal.
    destruct (List.existsb (String.eqb project) (pr_projects q)) eqn:Ex; [by rewrite Ex|].
    rewrite existsb_app. simpl. by rewrite String.eqb_refl, orb_true_r.
Qed.

(** The object an Owner gets, key by key. *)
Lemma owner_map_other (ps : list Programme) (m : gmap string (list Sheet)) (n : string) :
  ~ In n (List.map pr_name ps) ->
  List.fold_left (fun all p => <[pr_name p := sheetsOf p]> all) ps m !! n = m !! n.
Proof.
  revert m. induction ps as [|p ps IH]; intros m Hn; [done|]. simpl in *.
  rewrite IH by tauto. apply lookup_insert_ne. tauto.
Qed.

Lemma owner_map_lookup (ps : list Programme) (m : gmap string (list Sheet)) (p : Programme) :
  NoDup (List.map pr_name ps) -> In p ps ->
  List.fold_left (fun all p => <[pr_name p := sheetsOf p]> all) ps m !! pr_name p
  = Some (sheetsOf p).
Proof.
  revert m. induction ps as [|q ps IH]; intros m Hnd Hin; [done|]. simpl in *.
  apply NoDup_cons in Hnd as [Hq Hnd]. destruct Hin as [->|Hin].
  - rewrite owner_map_other; [apply lookup_insert_eq|].
    intros H. by apply Hq, list_elem_of_In.
  - by apply IH.
Qed.

Lemma owner_map_dom (ps : list Programme) (m : gmap string (list Sheet)) (n : string) :
  is_Some (List.fold_left (fun all p => <[pr_name p := sheetsOf p]> all) ps m !! n) ->
  In n (List.map pr_name ps) \/ is_Some (m !! n).
Proof.
  revert m. induction ps as [|p ps IH]; intros m H; [by right|]. simpl in *.
  apply IH in H as [H|H]; [left; by right|].
  destruct (decide (pr_name p = n)) as [->|Hne]; [left; by left|].
  rewrite lookup_insert_ne in H by done. by right.
Qed.

(** X21: the access data, for distinct programme names, none of them
    "__proto__".  An Owner gets one
    key for each programme and no other, with one sheet for each project of
    the programme; a Manager gets what the Owner's object has under the
    Manager's programme and nothing when the token names no programme or an
    unknown one; each sheet is named by the programme, a space and the
    project.  Behind [authorize(['Owner', 'Manager'], 'quizzer')] the
    answer 403 of the handler is never given. *)
Theorem access_data_by_role (programmes : list Programme) (user : QuizzerClaims) :
  NoDup (List.map pr_name programmes) ->
  ~ In "__proto__" (List.map pr_name programmes) ->
  let ownerView :=
    List.fold_left (fun all p => <[pr_name p := sheetsOf p]> all) programmes ∅ in
  (forall p, In p programmes ->
     ownerView !! pr_name p = Some (sheetsOf p)
     /\ List.map sh_project (sheetsOf p) = pr_projects p
     /\ forall s, In s (sheetsOf p) -> sh_sheetName s = pr_name p ++ " " ++ sh_project s)
  /\ (forall n, is_Some (ownerView !! n) <-> In n (List.map pr_name programmes))
  /\ (qc_role user = "Owner" -> accessData programmes user = AllProgrammes ownerView)
  /\ (qc_role user = "Manager" ->
      accessData programmes user
      = ProjectsInProgramme
          (match qc_programme user with
           | Some n => default [] (ownerView !! n)
           | None => []
           end))
  /\ (authorize (Some ["Owner"; "Manager"]) "quizzer" (quizzerUser user) = None ->
      forall res, accessData programmes user <> AccessRefused res).
Proof.
  intros Hnd _ ownerView. split_and!.
  - intros p Hp. split_and!.
    + by apply owner_map_lookup.
    + unfold sheetsOf. rewrite map_map. simpl. apply map_id.
    + intros s Hs. unfold sheetsOf in Hs. apply in_map_iff in Hs as (proj & <- & _). done.
  - intros n. split.
    + intros H. apply owner_map_dom in H as [H|H]; [done|].
      rewrite lookup_empty in H. by destruct H.
    + intros H. apply in_map_iff in H as (p & <- & Hp).
      unfold ownerView. rewrite owner_map_lookup by done. by eexists.
  - intros Hrole. unfold accessData. by rewrite Hrole.
  - intros Hrole. unfold accessData. rewrite Hrole.
    change (String.eqb "Manager" "Owner") with false.
    change (String.eqb "Manager" "Manager") with true. cbv iota. f_equal.
    destruct (List.find _ programmes) as [p|] eqn:E.
    + apply find_some in E as [Hp E]. apply bool_decide_eq_true in E. rewrite <- E.
      unfold ownerView. by rewrite owner_map_lookup.
    + destruct (qc_programme user) as [n|] eqn:En; [|done].
      destruct (ownerView !! n) as [sheets|] eqn:Es; [|done].
      assert (In n (List.map pr_name programmes)) as Hin.
      { destruct (owner_map_dom programmes ∅ n) as [H|H];
          [unfold ownerView in Es; by rewrite Es|done|].
        rewrite lookup_empty in H. by destruct H. }
      apply in_map_iff in Hin as (p & Hn & Hp).
      apply (find_none _ _ E) in Hp. apply bool_decide_eq_false in Hp. congruence.
  - unfold authorize, hasScope, includes, quizzerUser, accessData. simpl.
    destruct (String.eqb (qc_scope user) "quizzer"); simpl; [|done].
    destruct (String.eqb (qc_role user) "Owner"); [done|].
    destruct (String.eqb (qc_role user) "Manager"); done.
Qed.

Lemma access_data_by_role_witness :
  let programmes := [ {| pr_name := "Go"; pr_projects := ["Backend"; "Tools"] |};
                      {| pr_name := "Python"; pr_projects := ["Scripting"] |} ] in
  let manager := {| qc_id := 1; qc_email := "m@example.org"; qc_username := "mia.k";
                    qc_role := "Manager"; qc_fullName := "Mia Khan";
                    qc_programme := Some "Go"; qc_project := None;
                    qc_questionBankSheet := None; qc_scope := "quizzer";
                    qc_expiresInHours := 8 |} in
  accessData programmes manager
  = ProjectsInProgramme [ {| sh_project := "Backend"; sh_sheetName := "Go Backend" |};
                          {| sh_project := "Tools"; sh_sheetName := "Go Tools" |} ].
Proof.
  intros programmes manager.
  assert (NoDup (List.map pr_name programmes)) as Hnd.
  { apply NoDup_ListNoDup. repeat constructor; simpl; intuition discriminate. }
  assert (~ In "__proto__" (List.map pr_name programmes)) as Hkeys.
  { simpl. intuition discriminate. }
  rewrite (proj1 (proj2 (proj2 (proj2 (access_data_by_role programmes manager Hnd Hkeys))))
             eq_refl).
  reflexivity.
Defined.

(** The three parts of the outcome of a registration. *)
Lemma registerQuizzer_programmes (sendMail : string -> bool) (programmes : list Programme)
    (db : list QuizzerUser) (requester : AuthUser) (req : RegisterBody) (id : nat)
    (hashedPassword : string) :
  includes ["Editor"; "Manager"; "Owner"] (Some (rb_role req)) = true ->
  (rb_role req = "Owner" -> au_role requester = Some "Owner") ->
  snd (fst (registerQuizzer sendMail programmes db requester req id hashedPassword))
  = if JS.truthy (rb_programme req) && JS.truthy (rb_project req)
    then addProject (JS.template (rb_programme req)) (JS.template (rb_project req)) programmes
    else programmes.
Proof.
  intros Hrole Howner. unfold registerQuizzer. rewrite Hrole. cbn [negb].
  assert (String.eqb (rb_role req) "Owner" && negb (includes ["Owner"] (au_role requester))
          = false) as ->.
  { destruct (String.eqb (rb_role req) "Owner") eqn:E; [|done].
    apply String.eqb_eq in E. by rewrite (Howner E). }
  destruct (List.find _ db); [done|]. cbn zeta.
  destruct (List.existsb (String.eqb "") _); [done|].
  destruct (List.existsb _ db); [done|].
  by destruct (sendMail (rb_email req)).
Qed.

Lemma registerQuizzer_users (sendMail : string -> bool) (programmes : list Programme)
    (db : list QuizzerUser) (requester : AuthUser) (req : RegisterBody) (id : nat)
    (hashedPassword : string) :
  let out := registerQuizzer sendMail programmes db requester req id hashedPassword in
  let user := {| qu_id := id;
                 qu_firstName := rb_firstName req;
                 qu_lastName := rb_lastName req;
                 qu_email := JS.trim (JS.toLowerCase (rb_email req));
                 qu_username := JS.trim (quizzerUsername (rb_firstName req) (rb_lastName req));
                 qu_password := hashedPassword;
                 qu_role := rb_role req;
                 qu_programme := rb_programme req;
                 qu_project := rb_project req;
                 qu_questionBankSheet := None |} in
  (snd out = db /\ status (fst (fst out)) <> 201)
  \/ (snd out = (db ++ [user])%list
      /\ (rb_role req = "Owner" -> au_role requester = Some "Owner")
      /\ List.existsb (fun u => String.eqb (qu_email u) (qu_email user)
                                || String.eqb (qu_username u) (qu_username user)) db = false
      /\ (status (fst (fst out)) = 201 <-> sendMail (rb_email req) = true)).
Proof.
  intros out user. unfold out, registerQuizzer.
  destruct (includes ["Editor"; "Manager"; "Owner"] (Some (rb_role req))); cbn [negb];
    [|by left].
  destruct (String.eqb (rb_role req) "Owner" && _) eqn:Howner; [by left|].
  destruct (List.find _ db); [by left|]. cbn zeta.
  destruct (List.existsb (String.eqb "") _); [by left|].
  destruct (List.existsb _ db) eqn:Hdup; [by left|].
  right. split_and!.
  - by destruct (sendMail (rb_email req)).
  - intros Ho. rewrite Ho in Howner. simpl in Howner.
    unfold includes in Howner. destruct (au_role requester) as [r|]; [|done].
    simpl in Howner. rewrite orb_false_r in Howner.
    apply negb_false_iff, String.eqb_eq in Howner. by subst.
  - reflexivity.
  - destruct (sendMail (rb_email req)); simpl; split; done.
Qed.

(** X22: a registration with a programme and a project (no programme
    being named "__proto__"), of an allowed role and not refused for making
    an Owner, records the project under the
    programme before the user is looked up: whatever the answer (201, 409
    for a known address, 500), the programme is there afterwards with the
    project, no programme or project is lost, the names stay distinct, the
    same registration again changes the programmes no further, and an Owner
    finds the sheet "programme project" in the access data. *)
Theorem register_records_project_first (sendMail : string -> bool)
    (programmes : list Programme) (db : list QuizzerUser) (requester : AuthUser)
    (req : RegisterBody) (id : nat) (hashedPassword : string) (programme project : string) :
  NoDup (List.map pr_name programmes) ->
  ~ In "__proto__" (programme :: List.map pr_name programmes) ->
  includes ["Editor"; "Manager"; "Owner"] (Some (rb_role req)) = true ->
  (rb_role req = "Owner" -> au_role requester = Some "Owner") ->
  rb_programme req = Some programme -> rb_project req = Some project ->
  programme <> "" -> project <> "" ->
  let out := registerQuizzer sendMail programmes db requester req id hashedPassword in
  let programmes' := snd (fst out) in
  NoDup (List.map pr_name programmes')
  /\ (exists p, In p programmes' /\ pr_name p = programme /\ In project (pr_projects p))
  /\ (forall p, In p programmes ->
        exists p', In p' programmes' /\ pr_name p' = pr_name p
                   /\ incl (pr_projects p) (pr_projects p'))
  /\ (forall id' hashed',
        snd (fst (registerQuizzer sendMail programmes' (snd out) requester req id' hashed'))
        = programmes')
  /\ (forall owner, qc_role owner = "Owner" ->
        exists view sheets,
          accessData programmes' owner = AllProgrammes view
          /\ view !! programme = Some sheets
          /\ In {| sh_project := project; sh_sheetName := programme ++ " " ++ project |}
                sheets).
Proof.
  intros Hnd _ Hrole Howner Hprog Hproj Hp Hj out programmes'.
  assert (programmes' = addProject programme project programmes) as Heq.
  { unfold programmes', out. rewrite registerQuizzer_programmes by done.
    rewrite Hprog, Hproj.
    assert (JS.truthy (Some programme) = true) as -> by by apply truthy_Some_nonempty.
    assert (JS.truthy (Some project) = true) as -> by by apply truthy_Some_nonempty.
    done. }
  assert (NoDup (List.map pr_name programmes')) as Hnd'.
  { rewrite Heq. by apply addProject_NoDup. }
  split_and!.
  - done.
  - rewrite Heq. apply addProject_has.
  - intros p Hin. rewrite Heq. by apply addProject_keeps.
  - intros id' hashed'. rewrite registerQuizzer_programmes by done.
    rewrite Hprog, Hproj.
    assert (JS.truthy (Some programme) = true) as -> by by apply truthy_Some_nonempty.
    assert (JS.truthy (Some project) = true) as -> by by apply truthy_Some_nonempty.
    cbn [andb JS.template]. rewrite Heq. apply addProject_idem.
  - intros owner Howner'.
    destruct (addProject_has programme project programmes) as (p & Hin & Hn & Hpr).
    rewrite <- Heq in Hin.
    exists (List.fold_left (fun all p => <[pr_name p := sheetsOf p]> all) programmes' ∅),
           (sheetsOf p).
    split_and!.
    + unfold accessData. by rewrite Howner'.
    + rewrite <- Hn. by apply owner_map_lookup.
    + unfold sheetsOf. apply in_map_iff. exists project. by rewrite Hn.
Qed.

Lemma register_records_project_first_witness :
  let req := {| rb_firstName := "Mia"; rb_lastName := "Khan"; rb_email := "mia@example.org";
                rb_role := "Manager"; rb_programme := Some "Go";
                rb_project := Some "Backend" |} in
  let known := {| qu_id := 1; qu_firstName := "Mia"; qu_lastName := "Khan";
                  qu_email := "mia@example.org"; qu_username := "mia.k";
                  qu_password := "hash:pw"; qu_role := "Manager";
                  qu_programme := None; qu_project := None;
                  qu_questionBankSheet := None |} in
  let out := registerQuizzer sampleMail [] [known]
               {| au_role := Some "Owner"; au_scope := Some "quizzer" |} req 2 "hash:pw2" in
  status (fst (fst out)) = 409
  /\ exists p, In p (snd (fst out)) /\ pr_name p = "Go" /\ In "Backend" (pr_projects p).
Proof.
  intros req known out. split; [reflexivity|].
  refine (proj1 (proj2 (register_records_project_first sampleMail [] [known]
                          {| au_role := Some "Owner"; au_scope := Some "quizzer" |}
                          req 2 "hash:pw2" "Go" "Backend" _ _ eq_refl _ eq_refl eq_refl
                          _ _)));
    try discriminate.
  - apply NoDup_nil_2.
  - simpl. intuition discriminate.
Defined.

(** X23: the user name of the quizzer application is made of the first
    name and the first letter of the last name, in lower case.  After a
    user is registered, a registration of anyone with the same first name
    and the same initial, in any case, stores no user and is not answered
    201, whatever the address. *)
Theorem same_first_name_and_initial_collide (sendMail : string -> bool)
    (programmes programmes2 : list Programme) (db : list QuizzerUser)
    (requester requester2 : AuthUser) (req req2 : RegisterBody) (id id2 : nat)
    (hashedPassword hashedPassword2 : string) :
  let db1 := snd (registerQuizzer sendMail programmes db requester req id hashedPassword) in
  db1 <> db ->
  JS.toLowerCase (rb_firstName req2) = JS.toLowerCase (rb_firstName req) ->
  JS.charAt0 (JS.toLowerCase (rb_lastName req2))
  = JS.charAt0 (JS.toLowerCase (rb_lastName req)) ->
  let out2 := registerQuizzer sendMail programmes2 db1 requester2 req2 id2 hashedPassword2 in
  snd out2 = db1 /\ status (fst (fst out2)) <> 201.
Proof.
  intros db1 Hstored Hfirst Hlast out2.
  destruct (registerQuizzer_users sendMail programmes db requester req id hashedPassword)
    as [[H _]|(H & _)]; [done|].
  destruct (registerQuizzer_users sendMail programmes2 db1 requester2 req2 id2
              hashedPassword2) as [H2|(_ & _ & Hdup & _)]; [done|].
  exfalso. unfold db1 in Hdup. rewrite H in Hdup. cbn [qu_email qu_username] in Hdup.
  rewrite existsb_app in Hdup. apply orb_false_iff in Hdup as [_ Hdup].
  simpl in Hdup. rewrite orb_false_r in Hdup. apply orb_false_iff in Hdup as [_ Hdup].
  apply String.eqb_neq in Hdup. apply Hdup.
  unfold quizzerUsername. by rewrite Hfirst, Hlast.
Qed.

Lemma same_first_name_and_initial_collide_witness :
  let owner := {| au_role := Some "Owner"; au_scope := Some "quizzer" |} in
  let req := {| rb_firstName := "Anna"; rb_lastName := "Smith";
                rb_email := "anna.smith@example.org"; rb_role := "Editor";
                rb_programme := None; rb_project := None |} in
  let req2 := {| rb_firstName := "ANNA"; rb_lastName := "stone";
                 rb_email := "anna.stone@example.org"; rb_role := "Editor";
                 rb_programme := None; rb_project := None |} in
  let db1 := snd (registerQuizzer sampleMail [] [] owner req 1 "hash:a") in
  status (fst (fst (registerQuizzer sampleMail [] db1 owner req2 2 "hash:b"))) <> 201.
Proof.
  intros owner req req2 db1.
  refine (proj2 (same_first_name_and_initial_collide sampleMail [] [] [] owner owner
                   req req2 1 2 "hash:a" "hash:b" _ eq_refl eq_refl)).
  discriminate.
Defined.



(* ===================================================================== *)
(** * The answers of the closing calls, the time of an exam, the page *)
(* ===================================================================== *)

(** X25: the answer of a closing call does not tell whether the verdict was
    recorded.  On an open record [fail] always answers 500, after saving
    the failure; [submit] with a "/" in the score string saves the verdict
    and then answers 200 when the record names no recruiter address or the
    mail to the recruiter is sent, and 500 when that mail is not sent.  In
    each case the attempt is closed, and the same call again is refused with
    403. *)
Theorem answer_500_after_saved_verdict (w : World) (db : candidateCollection)
    (user : TokenClaims) (c : Candidate) :
  findById db (tk_id user) = Some c -> closed c = false ->
  (forall reason,
     let out := fail (w_sendMail w) db user reason in
     status (fst out) = 500
     /\ (exists c', findById (snd out) (tk_id user) = Some c' /\ closed c' = true)
     /\ status (fst (fail (w_sendMail w) (snd out) user reason)) = 403)
  /\ (forall req s,
        scoreString req = Some s -> In "/"%char (list_ascii_of_string s) ->
        let out := submit (w_sendMail w) db user req in
        (status (fst out) = 200
         <-> onboardedByTaEmail c = "" \/ w_sendMail w (onboardedByTaEmail c) = true)
        /\ (status (fst out) = 500
            <-> onboardedByTaEmail c <> "" /\ w_sendMail w (onboardedByTaEmail c) = false)
        /\ (exists c', findById (snd out) (tk_id user) = Some c' /\ closed c' = true)
        /\ status (fst (submit (w_sendMail w) (snd out) user req)) = 403).
Proof.
  intros Hc Hopen. split.
  - intros reason out.
    destruct (closing_closes w (CallFail user reason) db (tk_id user) c Hc eq_refl eq_refl)
      as (c' & Hc' & Hclosed').
    simpl in Hc'. split_and!.
    + unfold out, fail. rewrite Hc. unfold closed in Hopen. by rewrite Hopen.
    + by exists c'.
    + unfold out. by rewrite (fail_closed (w_sendMail w) _ user reason c' Hc' Hclosed').
  - intros req s Hs Hslash out.
    assert (reachesSave (CallSubmit user req) = true) as Hsave.
    { simpl. rewrite Hs. apply bool_decide_eq_true. by apply split_second_iff. }
    destruct (closing_closes w (CallSubmit user req) db (tk_id user) c Hc eq_refl Hsave)
      as (c' & Hc' & Hclosed').
    simpl in Hc'.
    assert (fst out = notify (w_sendMail w) "Asia/Kolkata" c "Test submitted and email sent.")
      as Hfst.
    { unfold out, submit. rewrite Hc. unfold closed in Hopen. rewrite Hopen, Hs.
      apply split_second_iff in Hslash as [part ->]. done. }
    split_and!.
    + rewrite Hfst. unfold notify. cbn [knownTimeZone String.eqb Ascii.eqb Bool.eqb negb orb].
      simpl negb. cbv iota.
      destruct (JS.truthy (Some (onboardedByTaEmail c))) eqn:Et.
      * apply truthy_Some_nonempty in Et.
        destruct (w_sendMail w (onboardedByTaEmail c)); simpl; split; try done.
        -- intros _. by right.
        -- by intros [?|?].
      * simpl. split; [intros _; left|done].
        destruct (onboardedByTaEmail c); [done|discriminate Et].
    + rewrite Hfst. unfold notify. simpl negb. cbv iota.
      destruct (JS.truthy (Some (onboardedByTaEmail c))) eqn:Et.
      * apply truthy_Some_nonempty in Et.
        destruct (w_sendMail w (onboardedByTaEmail c)); simpl; split; try done.
        by intros [_ ?].
      * simpl. split; [done|]. intros [Hne _].
        destruct (onboardedByTaEmail c); [done|discriminate Et].
    + by exists c'.
    + unfold out. by rewrite (submit_closed (w_sendMail w) _ user req c' Hc' Hclosed').
Qed.

Lemma answer_500_after_saved_verdict_witness :
  let noMail := {| w_bcryptCompare := sampleCompare; w_sendMail := fun _ => false;
                   w_rand := sampleRand; w_questions := [] |} in
  let out := submit (w_sendMail noMail) [sampleCandidate] sampleToken
               {| percentage := Some num_0_8; scoreString := Some "16 / 20" |} in
  status (fst out) = 500
  /\ exists c', findById (snd out) (tk_id sampleToken) = Some c' /\ closed c' = true.
Proof.
  intros noMail out.
  destruct (proj2 (answer_500_after_saved_verdict noMail [sampleCandidate] sampleToken
                     sampleCandidate eq_refl eq_refl)
              {| percentage := Some num_0_8; scoreString := Some "16 / 20" |} "16 / 20"
              eq_refl) as (_ & H500 & Hclosed & _).
  - simpl. right. right. right. by left.
  - split; [|exact Hclosed]. apply H500. split; [discriminate|reflexivity].
Defined.

Lemma list_sum_Permutation (l l' : list nat) : l ≡ₚ l' -> list_sum l = list_sum l'.
Proof. induction 1; simpl; lia. Qed.

Lemma list_sum_constant {A : Type} (f : A -> nat) (l : list A) (v : nat) :
  (forall x, In x l -> f x = v) -> list_sum (List.map f l) = length l * v.
Proof.
  induction l as [|x l IH]; intros H; [done|]. simpl.
  rewrite (H x) by by left. rewrite IH; [lia|]. intros y Hy. apply H. by right.
Qed.

Lemma assemble_tiers_minCount (rand : randomSource) (all : list QuestionBankItem) (k : nat) :
  exists E M H : list QuestionBankItem,
    E ≡ₚ List.filter (hasType "easy") all
    /\ M ≡ₚ List.filter (hasType "moderate") all
    /\ H ≡ₚ List.filter (hasType "hard") all
    /\ fst (assemble rand all k)
       ≡ₚ (take (minCount all) E ++ take (minCount all) M ++ take (minCount all) H)%list.
Proof.
  set (E := shuffleArray rand (List.filter (hasType "easy") all) k).
  set (M := shuffleArray rand (List.filter (hasType "moderate") all) (snd E)).
  set (H := shuffleArray rand (List.filter (hasType "hard") all) (snd M)).
  exists (fst E), (fst M), (fst H).
  split_and!; try apply shuffleArray_Permutation.
  rewrite assemble_unfold. fold E M H.
  assert (Nat.min (length (fst E)) (Nat.min (length (fst M)) (length (fst H)))
          = minCount all) as ->.
  { unfold minCount, E, M, H. by rewrite !shuffleArray_length. }
  assert (length (fst E) = length (List.filter (hasType "easy") all)) as HE
    by apply shuffleArray_length.
  assert (length (fst M) = length (List.filter (hasType "moderate") all)) as HM
    by apply shuffleArray_length.
  assert (length (fst H) = length (List.filter (hasType "hard") all)) as HH
    by apply shuffleArray_length.
  rewrite triplets_Permutation by (unfold minCount; lia). by rewrite !drop_0.
Qed.

(** X26: an exam of [n] rounds has [3 * n] questions and a total time of
    [4 * n]: each question counts 1, a hard one 2, and every round has one
    easy, one moderate and one hard question; [n] is the size of the
    scarcest tier of the bank. *)
Theorem exam_time_is_four_per_round (rand : randomSource)
    (candidates : candidateCollection) (questions : questionCollection)
    (user : TokenClaims) (k : nat) (level name : string) (sent : list ExamQuestion) :
  fst (testSetup rand candidates questions user k) = respond 200 (Exam level name sent) ->
  let n := minCount (findByBank questions (tk_questionBankName user)) in
  length sent = 3 * n
  /\ list_sum (List.map eq_time sent) = 4 * n
  /\ forall e, In e sent -> eq_time e = if String.eqb (eq_type e) "hard" then 2 else 1.
Proof.
  intros Heq n. revert Heq. unfold testSetup.
  destruct (findById candidates (tk_id user)) as [c|]; [|by intros [=]].
  destruct (JS.truthy (result c)); [by intros [=]|].
  fold (minCount (findByBank questions (tk_questionBankName user))) in n.
  set (bank := findByBank questions (tk_questionBankName user)) in *.
  destruct (length bank =? 0); [by intros [=]|].
  destruct (assemble_tiers_minCount rand bank k) as (E & M & H & HE & HM & HH & Hout).
  destruct (assemble rand bank k) as [out k']. simpl in Hout. simpl.
  intros [= _ _ <-]. fold n in Hout.
  assert (n <= length E /\ n <= length M /\ n <= length H) as (HnE & HnM & HnH).
  { rewrite HE, HM, HH. unfold n, minCount. lia. }
  assert (forall t B q, B ≡ₚ List.filter (hasType t) bank -> In q (take n B) ->
            questionType q = t) as Htier.
  { intros t B q HB Hq. by destruct (In_take_tier t bank B n q HB Hq). }
  split_and!.
  - rewrite length_map, Hout, !length_app, !length_take. lia.
  - rewrite map_map.
    rewrite (list_sum_Permutation _ _ (Permutation_map _ Hout)), !List.map_app, !list_sum_app.
    rewrite (list_sum_constant _ (take n E) 1), (list_sum_constant _ (take n M) 1),
            (list_sum_constant _ (take n H) 2).
    + rewrite !length_take. lia.
    + intros q Hq. simpl. unfold hasType. by rewrite (Htier "hard" H q HH Hq).
    + intros q Hq. simpl. unfold hasType. by rewrite (Htier "moderate" M q HM Hq).
    + intros q Hq. simpl. unfold hasType. by rewrite (Htier "easy" E q HE Hq).
  - intros e He. apply in_map_iff in He as (q & <- & _). done.
Qed.

Lemma exam_time_is_four_per_round_witness :
  exists sent,
    fst (testSetup sampleRand [sampleCandidate] goBackend sampleToken 0)
    = respond 200 (Exam "Go Backend" "ravi@example.org" sent)
    /\ list_sum (List.map eq_time sent) = 12.
Proof.
  eexists. split; [reflexivity|].
  exact (proj1 (proj2 (exam_time_is_four_per_round sampleRand [sampleCandidate]
                         goBackend sampleToken 0 _ _ _ eq_refl))).
Defined.

Lemma replaceAmp_chars (s : string) (c : ascii) :
  In c (list_ascii_of_string (replaceAmp s)) -> c <> "&"%char.
Proof.
  induction s as [|x s IH]; simpl; [done|].
  destruct (Ascii.eqb x "&") eqn:E; simpl.
  - intros [<-|[<-|[<-|H]]]; try discriminate. by apply IH.
  - intros [<-|H]; [by apply Ascii.eqb_neq in E|by apply IH].
Qed.

Lemma replaceSpaces_chars (s : string) (c : ascii) :
  In c (list_ascii_of_string (replaceSpaces s)) ->
  JS.isWhiteSpace c = false /\ (c = "_"%char \/ In c (list_ascii_of_string s)).
Proof.
  induction s as [|x s IH]; [done|].
  cbn [replaceSpaces]. fold replaceSpaces. destruct (JS.isWhiteSpace x) eqn:W.
  - destruct s as [|y s'].
    + simpl. intros [<-|[]]. split; [done|by left].
    + destruct (JS.isWhiteSpace y) eqn:W'.
      * intros H. apply IH in H as [? [?|?]]; split; try done; [by left|right; by right].
      * cbn [list_ascii_of_string In]. intros [<-|H]; [split; [done|by left]|].
        apply IH in H as [? [?|?]]; split; try done; [by left|right; by right].
  - cbn [list_ascii_of_string In]. intros [<-|H]; [split; [done|right; by left]|].
    apply IH in H as [? [?|?]]; split; try done; [by left|right; by right].
Qed.

Lemma list_ascii_app (a b : string) :
  list_ascii_of_string (a ++ b) = (list_ascii_of_string a ++ list_ascii_of_string b)%list.
Proof. induction a as [|x a IH]; [done|]. simpl. by rewrite IH. Qed.

(** X27: the page a login names is one word: it ends with "_test" and has
    no white space and no "&" in it, whatever the programme and project of
    the candidate are. *)
Theorem login_page_is_one_word (bcryptCompare : string -> string -> bool)
    (db : candidateCollection) (req : LoginBody) (token : TokenClaims) (page : string) :
  body (login bcryptCompare db req) = Login token page ->
  page = replaceSpaces (replaceAmp (tk_questionBankName token)) ++ "_test"
  /\ forall c, In c (list_ascii_of_string page) ->
       JS.isWhiteSpace c = false /\ c <> "&"%char.
Proof.
  unfold login.
  destruct (_ || _); [by intros [=]|].
  destruct (findByUsername db _) as [cand|]; [|by intros [=]].
  destruct (negb _); [by intros [=]|].
  destruct (_ || _ || _); [by intros [=]|].
  cbn [body respond]. intros [= <- <-]. cbn [tk_questionBankName]. split; [done|].
  intros c Hc. rewrite list_ascii_app in Hc. apply in_app_or in Hc as [Hc|Hc].
  - apply replaceSpaces_chars in Hc as [Hws [->|Hc]]; split; try done.
    by apply replaceAmp_chars in Hc.
  - simpl in Hc. destruct Hc as [<-|[<-|[<-|[<-|[<-|[]]]]]]; split; done.
Qed.

Lemma login_page_is_one_word_witness :
  let db := [ {| _id := 1; onboardedByTaName := "Asha";
                 onboardedByTaEmail := "asha@example.org";
                 firstName := "Ravi"; lastName := "Kumar"; email := "ravi@example.org";
                 username := "ravi@example.org"; password := "hash:secret";
                 program := "R & D"; project := Some "Data  Tools";
                 c_status := "Mail Sent";
                 result := None; score := None; videoLink := None |} ] in
  let req := {| lb_username := "ravi@example.org"; lb_password := "secret" |} in
  (exists token, body (login sampleCompare db req) = Login token "R_and_D_Data_Tools_test")
  /\ forall c, In c (list_ascii_of_string "R_and_D_Data_Tools_test") ->
       JS.isWhiteSpace c = false /\ c <> "&"%char.
Proof.
  intros db req. split; [eexists; reflexivity|].
  exact (proj2 (login_page_is_one_word sampleCompare db req _ _ eq_refl)).
Defined.
